(** * The Golden Anvil Compendium: the logic core of [compendium.py]

    A shallow embedding of the currency converter, the catalog loader, the
    folder index, the filter and the table sort of [compendium.py], of the
    seeding of the default catalog and of the handlers of the buttons and
    the dropdown, and the theorems relating them to the specification and
    to each other.

    Python values are modelled as follows.
    - [str] is [string]; the model covers ASCII text, so [lower] and [strip]
      act on the ASCII letters and the ASCII white space only.
    - [float] is the kernel's binary64 [float]; arithmetic and comparisons
      are the IEEE 754 ones, conversions to and from text go through
      [spec_float] and exact integer arithmetic; rounding errors are
      measured over the real numbers.
    - [int] is [Z].
    - [dict] is an association list in insertion order with unique keys.
    - a raised exception is [inl e] of the [result] type. *)

From Stdlib Require Import Reals Lra.
From Stdlib Require Import ZArith List String Ascii Bool Lia Floats.
From Stdlib Require Import DecimalString DecimalZ DecimalNat Permutation Sorted QArith.
Import ListNotations.

Set Warnings "-inexact-float,-register-all".

Local Open Scope string_scope.
Local Open Scope Z_scope.

(** ** Exceptions *)

Inductive exn : Type :=
| ValueError
| TypeError
| OverflowError
| KeyError
| OSError
| FileNotFoundError
| JSONDecodeError
| RecursionError.

(** [isinstance(e, cls)]: [FileNotFoundError] is an [OSError] and
    [JSONDecodeError] is a [ValueError]. *)
Definition is_a (e cls : exn) : bool :=
  match e, cls with
  | ValueError, ValueError | TypeError, TypeError
  | OverflowError, OverflowError | KeyError, KeyError
  | OSError, OSError | FileNotFoundError, FileNotFoundError
  | JSONDecodeError, JSONDecodeError | RecursionError, RecursionError
  | FileNotFoundError, OSError | JSONDecodeError, ValueError => true
  | _, _ => false
  end.

Definition result (A : Type) : Type := (exn + A)%type.

Definition ret {A : Type} (a : A) : result A := inr a.
Definition raise {A : Type} (e : exn) : result A := inl e.
Definition bind {A B : Type} (m : result A) (k : A -> result B) : result B :=
  match m with
  | inl e => inl e
  | inr a => k a
  end.

Notation "x <- m ;; k" := (bind m (fun x => k))
  (at level 61, m at next level, right associativity).

(** ** Strings *)

Module Str.

Definition is_upper (c : ascii) : bool :=
  let n := nat_of_ascii c in (Nat.leb 65 n && Nat.leb n 90)%bool.

Definition lower_char (c : ascii) : ascii :=
  if is_upper c then ascii_of_nat (nat_of_ascii c + 32) else c.

(** [s.lower()] *)
Fixpoint lower (s : string) : string :=
  match s with
  | EmptyString => EmptyString
  | String c t => String (lower_char c) (lower t)
  end.

(** The ASCII characters for which [str.isspace] holds. *)
Definition is_space (c : ascii) : bool :=
  let n := nat_of_ascii c in
  ((Nat.leb 9 n && Nat.leb n 13) || (Nat.leb 28 n && Nat.leb n 32))%bool.

Fixpoint lstrip (s : string) : string :=
  match s with
  | EmptyString => EmptyString
  | String c t => if is_space c then lstrip t else s
  end.

Fixpoint rstrip (s : string) : string :=
  match s with
  | EmptyString => EmptyString
  | String c t =>
      match rstrip t with
      | EmptyString => if is_space c then EmptyString else String c EmptyString
      | t' => String c t'
      end
  end.

(** [s.strip()] *)
Definition strip (s : string) : string := rstrip (lstrip s).

(** [s.startswith(p)] *)
Fixpoint startswith (s p : string) : bool :=
  match p, s with
  | EmptyString, _ => true
  | String a p', String b s' => (Ascii.eqb a b && startswith s' p')%bool
  | String _ _, EmptyString => false
  end.

(** [sub in s] *)
Fixpoint contains (sub s : string) : bool :=
  (startswith s sub ||
   match s with
   | EmptyString => false
   | String _ t => contains sub t
   end)%bool.

Fixpoint rev_acc (s acc : string) : string :=
  match s with
  | EmptyString => acc
  | String c t => rev_acc t (String c acc)
  end.

Definition rev (s : string) : string := rev_acc s EmptyString.

(** [s.endswith(p)] *)
Definition endswith (s p : string) : bool := startswith (rev s) (rev p).

(** [str(n)] for an [int] *)
Definition of_Z (z : Z) : string := NilZero.string_of_int (Z.to_int z).

(** [a < b] on strings: lexicographic by character code. *)
Fixpoint ltb (a b : string) : bool :=
  match a, b with
  | _, EmptyString => false
  | EmptyString, String _ _ => true
  | String x a', String y b' =>
      let nx := nat_of_ascii x in
      let ny := nat_of_ascii y in
      if Nat.ltb nx ny then true
      else if Nat.ltb ny nx then false
      else ltb a' b'
  end.

End Str.

(** ** Floats *)

Module Flt.

Definition is_digit (c : ascii) : bool :=
  let n := nat_of_ascii c in (Nat.leb 48 n && Nat.leb n 57)%bool.

Definition digit_val (c : ascii) : Z := Z.of_nat (nat_of_ascii c - 48).

(** The nearest integer to [n / d], ties to the even one; [d] is positive. *)
Definition round_half_even (n d : Z) : Z :=
  let q := n / d in
  let r := n mod d in
  match 2 * r ?= d with
  | Lt => q
  | Gt => q + 1
  | Eq => if Z.even q then q else q + 1
  end.

(** The value [m * 2^e] of a finite float as the fraction [num / den]. *)
Definition num_den (m : positive) (e : Z) : Z * Z :=
  if 0 <=? e then (Zpos m * 2 ^ e, 1) else (Zpos m, 2 ^ (- e)).

(** [round(x)] with no digits argument: the nearest [int], ties to even. *)
Definition round (x : float) : result Z :=
  match Prim2SF x with
  | S754_nan => raise ValueError
  | S754_infinity _ => raise OverflowError
  | S754_zero _ => ret 0
  | S754_finite s m e =>
      let '(n, d) := num_den m e in
      ret (cond_Zopp s (round_half_even n d))
  end.

(** [math.isfinite(x)] *)
Definition isfinite (x : float) : bool :=
  match Prim2SF x with
  | S754_zero _ => true
  | S754_finite _ _ _ => true
  | _ => false
  end.

(** [float(z)] for an [int]: correctly rounded, [OverflowError] when the
    rounded value is not finite. *)
Definition of_int (z : Z) : result float :=
  match binary_normalize prec emax z 0 false with
  | S754_infinity _ => raise OverflowError
  | sf => ret (SF2Prim sf)
  end.

(** The binary64 value nearest to [m * 10^e10] (ties to even), [m > 0]. *)
Definition of_decimal (neg : bool) (m e10 : Z) : spec_float :=
  if m =? 0 then S754_zero neg
  else if 0 <=? e10 then
    if 1024 <? Z.log2 m + 3 * e10 then S754_infinity neg
    else binary_round prec emax neg (Z.to_pos (m * 10 ^ e10)) 0
  else
    if Z.log2 m + 1 + 3 * e10 <? -1076 then S754_zero neg
    else
      let d := 10 ^ (- e10) in
      let q := (m * 2 ^ 1200) / d in
      let r := (m * 2 ^ 1200) mod d in
      binary_round_aux prec emax neg q (-1200)
        (if r =? 0 then loc_Exact else loc_Inexact (2 * r ?= d)).

(** Underscores are accepted between two digits only; they are dropped. *)
Fixpoint drop_underscores (prev : ascii) (s : string) : option string :=
  match s with
  | EmptyString => if Ascii.eqb prev "_" then None else Some EmptyString
  | String c t =>
      if Ascii.eqb c "_" then
        if is_digit prev then drop_underscores c t else None
      else if (Ascii.eqb prev "_" && negb (is_digit c))%bool then None
      else option_map (String c) (drop_underscores c t)
  end.

(** Reads a run of digits: the value accumulated on [acc], the number of
    digits read, and the rest of the text. *)
Fixpoint take_digits (s : string) (acc : Z) (n : Z) : Z * Z * string :=
  match s with
  | String c t =>
      if is_digit c then take_digits t (10 * acc + digit_val c) (n + 1)
      else (acc, n, s)
  | EmptyString => (acc, n, s)
  end.

(** The characters of C's [isspace], the ones [float] skips at both ends of
    an ASCII text: [str.strip] skips the codes 28 to 31 too, [float] does
    not. *)
Definition is_space (c : ascii) : bool :=
  let n := nat_of_ascii c in
  ((Nat.leb 9 n && Nat.leb n 13) || Nat.eqb n 32)%bool.

Fixpoint lstrip (s : string) : string :=
  match s with
  | EmptyString => EmptyString
  | String c t => if is_space c then lstrip t else s
  end.

Fixpoint rstrip (s : string) : string :=
  match s with
  | EmptyString => EmptyString
  | String c t =>
      match rstrip t with
      | EmptyString => if is_space c then EmptyString else String c EmptyString
      | t' => String c t'
      end
  end.

Definition strip (s : string) : string := rstrip (lstrip s).

Definition take_sign (s : string) : bool * string :=
  match s with
  | String "-" t => (true, t)
  | String "+" t => (false, t)
  | _ => (false, s)
  end.

(** [digits [. digits] [(e|E) [sign] digits]] with a digit in the mantissa:
    the mantissa as an integer and the decimal exponent. *)
Definition parse_decimal (s : string) : option (Z * Z) :=
  let '(ip, ni, r1) := take_digits s 0 0 in
  let '(m, nf, r2) :=
    match r1 with
    | String "." t => take_digits t ip 0
    | _ => (ip, 0, r1)
    end in
  if ni + nf =? 0 then None
  else
    match r2 with
    | EmptyString => Some (m, - nf)
    | String c t =>
        if (Ascii.eqb c "e" || Ascii.eqb c "E")%bool then
          let '(sg, t') := take_sign t in
          let '(ex, ne, r3) := take_digits t' 0 0 in
          if ne =? 0 then None
          else
            match r3 with
            | EmptyString => Some (m, (if sg then - ex else ex) - nf)
            | String _ _ => None
            end
        else None
    end.

(** [float(s)] for a [str]; [None] is [ValueError]. *)
Definition parse (s : string) : option float :=
  match drop_underscores " " s with
  | None => None
  | Some s1 =>
      let '(neg, body) := take_sign (strip s1) in
      let lb := Str.lower body in
      if (String.eqb lb "inf" || String.eqb lb "infinity")%bool then
        Some (if neg then neg_infinity else infinity)
      else if String.eqb lb "nan" then Some nan
      else
        match parse_decimal body with
        | Some (m, e10) => Some (SF2Prim (of_decimal neg m e10))
        | None => None
        end
  end.

(** [float(s)] *)
Definition of_str (s : string) : result float :=
  match parse s with
  | Some x => ret x
  | None => raise ValueError
  end.

Definition two_digits (c : Z) : string :=
  String (ascii_of_nat (48 + Z.to_nat (c / 10)))
    (String (ascii_of_nat (48 + Z.to_nat (c mod 10))) EmptyString).

(** The text of [c / 100] with two decimals, [c >= 0]. *)
Definition hundredths (neg : bool) (c : Z) : string :=
  (if neg then "-" else "") ++ Str.of_Z (c / 100) ++ "." ++ two_digits (c mod 100).

(** [f"{x:.2f}"] *)
Definition format_2f (x : float) : string :=
  match Prim2SF x with
  | S754_nan => "nan"
  | S754_infinity s => if s then "-inf" else "inf"
  | S754_zero s => hundredths s 0
  | S754_finite s m e =>
      let '(n, d) := num_den m e in
      hundredths s (round_half_even (100 * n) d)
  end.

End Flt.

(** ** Dictionaries

    A [dict] keeps its keys in insertion order; assigning to a key that is
    present replaces the value where the key stands. *)

Module Dict.

Section Ops.
Context {V : Type}.

Definition t : Type := list (string * V).

Fixpoint get (k : string) (d : t) : option V :=
  match d with
  | [] => None
  | (k', v) :: rest => if String.eqb k k' then Some v else get k rest
  end.

(** [d[k] = v] *)
Fixpoint set (k : string) (v : V) (d : t) : t :=
  match d with
  | [] => [(k, v)]
  | (k', v') :: rest =>
      if String.eqb k k' then (k', v) :: rest else (k', v') :: set k v rest
  end.

(** [d.update(d2)] *)
Definition update (d d2 : t) : t :=
  fold_left (fun acc kv => set (fst kv) (snd kv) acc) d2 d.

(** [list(d.keys())] *)
Definition keys (d : t) : list string := map fst d.

End Ops.

Arguments t V : clear implicits.

End Dict.

(** ** Sorting

    [list.sort(key=..., reverse=...)]: a stable sort that compares keys with
    [<] only; with [reverse] the list is reversed, sorted and reversed again,
    which keeps equal keys in their original order. *)

Section Sorting.
Context {A K : Type}.
Variable lt : K -> K -> bool.
Variable key : A -> K.

Fixpoint insert (x : A) (l : list A) : list A :=
  match l with
  | [] => [x]
  | y :: rest => if lt (key y) (key x) then y :: insert x rest else x :: l
  end.

Fixpoint sort_asc (l : list A) : list A :=
  match l with
  | [] => []
  | x :: rest => insert x (sort_asc rest)
  end.

Definition sort_by (reverse : bool) (l : list A) : list A :=
  if reverse then rev (sort_asc (rev l)) else sort_asc l.

End Sorting.

(** ** Currency conversions *)

Definition UNIT_TO_GP : Dict.t float :=
  [("pp", 10.0%float); ("gp", 1.0%float); ("ep", 0.5%float);
   ("sp", 0.1%float); ("cp", 0.01%float)].

Definition UNITS : list string := ["pp"; "gp"; "ep"; "sp"; "cp"].

(** [d[k]] *)
Definition subscript {V : Type} (d : Dict.t V) (k : string) : result V :=
  match Dict.get k d with
  | Some v => ret v
  | None => raise KeyError
  end.

Definition to_gp (amount : float) (unit : string) : result float :=
  r <- subscript UNIT_TO_GP unit ;;
  ret (amount * r)%float.

Definition from_gp (gp_value : float) : result (Dict.t float) :=
  r_pp <- subscript UNIT_TO_GP "pp" ;;
  r_ep <- subscript UNIT_TO_GP "ep" ;;
  r_sp <- subscript UNIT_TO_GP "sp" ;;
  r_cp <- subscript UNIT_TO_GP "cp" ;;
  ret [("pp", (gp_value / r_pp)%float);
       ("gp", gp_value);
       ("ep", (gp_value / r_ep)%float);
       ("sp", (gp_value / r_sp)%float);
       ("cp", (gp_value / r_cp)%float)].

Definition pretty (n : float) (as_int_if_clean : bool) : result string :=
  clean <-
    (if as_int_if_clean then
       r <- Flt.round n ;;
       rf <- Flt.of_int r ;;
       ret (abs (n - rf) <? 1e-9)%float
     else ret false) ;;
  if clean then
    r <- Flt.round n ;;
    ret (Str.of_Z r)
  else ret (Flt.format_2f n).

(** The same conversions on exact rationals, with the rates of the
    specification's data model (10, 1, 0.5, 0.1, 0.01). *)

Module Ideal.

Inductive Denomination : Type := pp | gp | ep | sp | cp.

Definition rate (u : Denomination) : Q :=
  match u with
  | pp => 10 # 1
  | gp => 1 # 1
  | ep => 1 # 2
  | sp => 1 # 10
  | cp => 1 # 100
  end.

Definition to_base (amount : Q) (u : Denomination) : Q := (amount * rate u)%Q.

Definition from_base (price : Q) (u : Denomination) : Q := (price / rate u)%Q.

Definition name (u : Denomination) : string :=
  match u with
  | pp => "pp"
  | gp => "gp"
  | ep => "ep"
  | sp => "sp"
  | cp => "cp"
  end.

End Ideal.

(** ** Paths and the file system *)

Module Path.

Fixpoint has_sep (s : string) : bool :=
  match s with
  | EmptyString => false
  | String c t => (Ascii.eqb c "/" || has_sep t)%bool
  end.

(** [os.path.join(a, b)] *)
Definition join (a b : string) : string :=
  if Str.startswith b "/" then b
  else if (String.eqb a "" || Str.endswith a "/")%bool then a ++ b
  else a ++ "/" ++ b.

(** [os.path.basename(p)]: what follows the last separator. *)
Fixpoint basename (p : string) : string :=
  match p with
  | EmptyString => EmptyString
  | String c t => if has_sep p then basename t else p
  end.

Fixpoint all_dots (s : string) : bool :=
  match s with
  | EmptyString => true
  | String c t => (Ascii.eqb c "." && all_dots t)%bool
  end.


(** Splits a name at its last dot, which opens the second part. *)
Fixpoint split_last_dot (s : string) : option (string * string) :=
  match s with
  | EmptyString => None
  | String c t =>
      match split_last_dot t with
      | Some (b, e) => Some (String c b, e)
      | None => if Ascii.eqb c "." then Some (EmptyString, s) else None
      end
  end.

(** [os.path.splitext(p)] for a name without separators: the extension
    starts at the last dot, unless only dots stand before it. *)
Definition splitext (p : string) : string * string :=
  match split_last_dot p with
  | Some (b, e) => if all_dots b then (p, "") else (b, e)
  | None => (p, "")
  end.

Fixpoint all_seps (s : string) : bool :=
  match s with
  | EmptyString => true
  | String c t => (Ascii.eqb c "/" && all_seps t)%bool
  end.

(** What stands before the base name of [p], up to its last separator. *)
Fixpoint head (p : string) : string :=
  match p with
  | EmptyString => EmptyString
  | String c t => if has_sep p then String c (head t) else EmptyString
  end.

(** [s.rstrip("/")] *)
Fixpoint rstrip_seps (s : string) : string :=
  match s with
  | EmptyString => EmptyString
  | String c t =>
      match rstrip_seps t with
      | EmptyString => if Ascii.eqb c "/" then EmptyString else String c EmptyString
      | t' => String c t'
      end
  end.

(** [os.path.dirname(p)] *)
Definition dirname (p : string) : string :=
  let h := head p in
  if (negb (String.eqb h "") && negb (all_seps h))%bool then rstrip_seps h else h.

(** [p.split("/")] *)
Fixpoint split (s : string) : list string :=
  match s with
  | EmptyString => [EmptyString]
  | String c t =>
      if Ascii.eqb c "/" then EmptyString :: split t
      else
        match split t with
        | h :: r => String c h :: r
        | [] => [String c EmptyString]
        end
  end.

Definition is_nil (l : list string) : bool :=
  match l with
  | [] => true
  | _ :: _ => false
  end.

(** The body of the loop of [normpath] over the components. *)
Definition norm_step (initial_slashes : nat) (new_comps : list string)
  (comp : string) : list string :=
  if (String.eqb comp "" || String.eqb comp ".")%bool then new_comps
  else if (negb (String.eqb comp "..") ||
           (Nat.eqb initial_slashes 0 && is_nil new_comps) ||
           (negb (is_nil new_comps) && String.eqb (last new_comps "") ".."))%bool
  then (new_comps ++ [comp])%list
  else removelast new_comps.

(** [os.path.normpath(path)] *)
Definition normpath (path : string) : string :=
  if String.eqb path "" then "."
  else
    let initial_slashes :=
      if Str.startswith path "/" then
        if (Str.startswith path "//" && negb (Str.startswith path "///"))%bool
        then 2%nat else 1%nat
      else 0%nat in
    let comps := fold_left (norm_step initial_slashes) (split path) [] in
    let path :=
      String.concat "" (repeat "/" initial_slashes) ++ String.concat "/" comps in
    if String.eqb path "" then "." else path.

(** [os.path.abspath(path)], where [cwd] is [os.getcwd()]. *)
Definition abspath (cwd path : string) : string :=
  normpath (if Str.startswith path "/" then path else join cwd path).

End Path.

(** ** JSON values, as [json.load] returns them *)

Inductive key : Type :=
| KNone
| KStr (s : string).

Inductive json : Type :=
| JNull
| JBool (b : bool)
| JInt (z : Z)
| JFloat (x : float)
| JStr (s : string)
| JList (l : list json)
| JDict (kvs : list (key * json)).

(** What a file holds: bytes that are not a JSON document, or the JSON
    document [v]. *)
Inductive content : Type :=
| NotJson
| Json (v : json).

(** [sys.int_info.default_max_str_digits]: [int] refuses a decimal text of
    more digits with [ValueError]. *)
Definition int_max_str_digits : nat := 4300.

(** [sys.getrecursionlimit()] as the interpreter starts; the program does
    not change it. The decoder enters one level of recursion for each array
    and each object it opens. The frames of the functions that call the
    decoder count against the same limit and are not counted here: the
    interpreter gives up a few levels earlier than this model. *)
Definition recursion_limit : nat := 1000.

(** The pass of [json.load] over a document, in the order of its text, with
    [left] levels of recursion left: what it raises, if it does. *)
Fixpoint decode (left : nat) (v : json) {struct v} : result unit :=
  match v with
  | JInt z =>
      if Nat.ltb int_max_str_digits (String.length (Str.of_Z (Z.abs z)))
      then raise ValueError
      else ret tt
  | JList l =>
      match left with
      | O => raise RecursionError
      | S left' =>
          (fix items (l : list json) : result unit :=
             match l with
             | [] => ret tt
             | x :: rest => _ <- decode left' x ;; items rest
             end) l
      end
  | JDict kvs =>
      match left with
      | O => raise RecursionError
      | S left' =>
          (fix members (kvs : list (key * json)) : result unit :=
             match kvs with
             | [] => ret tt
             | (_, x) :: rest => _ <- decode left' x ;; members rest
             end) kvs
      end
  | _ => ret tt
  end.

Inductive node : Type :=
| File (readable : bool) (c : content)
| Dir.

(** The file system: the nodes by path; the first entry of a path counts. *)
Definition FS : Type := list (string * node).

Module Fs.

Fixpoint lookup (p : string) (fs : FS) : option node :=
  match fs with
  | [] => None
  | (p', n) :: rest => if String.eqb p p' then Some n else lookup p rest
  end.

(** [os.path.exists(p)] *)
Definition exists_ (fs : FS) (p : string) : bool :=
  match lookup p fs with
  | Some _ => true
  | None => false
  end.

(** [os.path.isfile(p)] *)
Definition isfile (fs : FS) (p : string) : bool :=
  match lookup p fs with
  | Some (File _ _) => true
  | _ => false
  end.

(** The name of [p] inside [folder], when [p] lies directly in it. *)
Fixpoint child_of (folder p : string) : option string :=
  match folder, p with
  | EmptyString, String "/" name =>
      if (Path.has_sep name || String.eqb name "")%bool then None else Some name
  | String a f', String b p' => if Ascii.eqb a b then child_of f' p' else None
  | _, _ => None
  end.

Fixpoint children (folder : string) (fs : FS) (seen : list string) : list string :=
  match fs with
  | [] => []
  | (p, _) :: rest =>
      match child_of folder p with
      | Some name =>
          if existsb (String.eqb name) seen then children folder rest seen
          else name :: children folder rest (name :: seen)
      | None => children folder rest seen
      end
  end.

(** [os.listdir(folder)] *)
Definition listdir (fs : FS) (folder : string) : result (list string) :=
  match lookup folder fs with
  | Some Dir => ret (children folder fs [])
  | Some (File _ _) => raise OSError
  | None => raise FileNotFoundError
  end.

(** [open(p)] followed by [json.load] *)
Definition read_json (fs : FS) (p : string) : result json :=
  match lookup p fs with
  | Some (File true (Json v)) => _ <- decode recursion_limit v ;; ret v
  | Some (File true NotJson) => raise JSONDecodeError
  | Some (File false _) | Some Dir => raise OSError
  | None => raise FileNotFoundError
  end.

(** [os.path.isdir(p)] *)
Definition isdir (fs : FS) (p : string) : bool :=
  match lookup p fs with
  | Some Dir => true
  | _ => false
  end.

(** [open(p, "wb")] for a path that does not exist: the file is created
    when the folder it goes to is a directory. A bare name goes to the
    working directory and a name under the root to the root, which are
    there; otherwise the folder is what stands before the name, which the
    file system may know with or without its closing separator. A folder
    that is a file gives [NotADirectoryError], an [OSError], and a folder
    that does not exist [FileNotFoundError]. Permissions to write are not
    modelled. *)
Definition create (fs : FS) (p : string) : result unit :=
  let h := Path.head p in
  if (String.eqb h "" || Path.all_seps h ||
      isdir fs (Path.dirname p) || isdir fs h)%bool
  then ret tt
  else if (exists_ fs (Path.dirname p) || exists_ fs h)%bool then raise OSError
  else raise FileNotFoundError.

(** [shutil.copy2(src, dst)]: a destination that is a directory stands for
    the file of the source's name in it; copying a file onto itself raises
    [SameFileError] and writing to a directory [IsADirectoryError], both of
    them [OSError]s; the source is opened before the destination. *)
Definition copy2 (fs : FS) (src dst : string) : result FS :=
  let dst := if isdir fs dst then Path.join dst (Path.basename src) else dst in
  if (String.eqb src dst && exists_ fs src)%bool then raise OSError
  else
    match lookup src fs with
    | Some (File true c) =>
        match lookup dst fs with
        | Some Dir => raise OSError
        | Some (File _ _) =>
            ret (map (fun e => if String.eqb (fst e) dst
                               then (dst, File true c) else e) fs)
        | None =>
            _ <- create fs dst ;;
            ret (fs ++ [(dst, File true c)])%list
        end
    | Some (File false _) | Some Dir => raise OSError
    | None => raise FileNotFoundError
    end.

End Fs.

(** ** Data loading and folder management *)

Definition list_json_files (fs : FS) (folder : string) : list string :=
  match Fs.listdir fs folder with
  | inr names =>
      sort_by Str.ltb (fun p => p) false
        (map (Path.join folder)
           (filter
              (fun fn =>
                 (Str.endswith (Str.lower fn) ".json" &&
                  Fs.isfile fs (Path.join folder fn))%bool)
              names))
  | inl _ => []
  end.

(** The [while] loop of [dedupe_filename]; [None] when [fuel] rounds do not
    reach a free name. *)
Fixpoint dedupe_loop (fuel : nat) (fs : FS) (folder base ext candidate : string)
  (i : Z) : option string :=
  match fuel with
  | O => None
  | S fuel' =>
      if Fs.exists_ fs (Path.join folder candidate) then
        dedupe_loop fuel' fs folder base ext (base ++ "_" ++ Str.of_Z i ++ ext) (i + 1)
      else Some candidate
  end.

Definition dedupe_filename (fs : FS) (folder filename : string) : option string :=
  let '(base, ext) := Path.splitext filename in
  dedupe_loop (S (S (List.length fs))) fs folder base ext filename 1.

(** [cwd] is [os.getcwd()], which [os.path.abspath] reads. *)
Definition safe_copy_into_json_dir (cwd : string) (fs : FS)
  (src_path json_dir : string) : option (result (FS * string)) :=
  if negb (Fs.isfile fs src_path) then Some (raise FileNotFoundError)
  else
    let filename := Path.basename src_path in
    let filename :=
      if Str.endswith (Str.lower filename) ".json" then filename
      else filename ++ ".json" in
    match dedupe_filename fs json_dir filename with
    | None => None
    | Some filename =>
        let dst := Path.join json_dir filename in
        Some (fs' <- Fs.copy2 fs src_path dst ;; ret (fs', Path.abspath cwd dst))
    end.

(** [float(v)] for a value decoded from JSON. *)
Definition float_of (v : json) : result float :=
  match v with
  | JNull => raise TypeError
  | JBool b => ret (if b then 1.0%float else 0.0%float)
  | JInt z => Flt.of_int z
  | JFloat x => ret x
  | JStr s => Flt.of_str s
  | JList _ => raise TypeError
  | JDict _ => raise TypeError
  end.

(** The loop of [load_prices_json] over [data.items()]. *)
Fixpoint load_entries (kvs : list (key * json)) (cleaned : Dict.t float)
  : result (Dict.t float) :=
  match kvs with
  | [] => ret cleaned
  | (KNone, _) :: rest => load_entries rest cleaned
  | (KStr k, v) :: rest =>
      let name := Str.strip k in
      match float_of v with
      | inr price => load_entries rest (Dict.set name price cleaned)
      | inl e =>
          if (is_a e TypeError || is_a e ValueError)%bool
          then load_entries rest cleaned
          else inl e
      end
  end.

Definition load_prices_json (fs : FS) (path : string) : result (Dict.t float) :=
  data <- Fs.read_json fs path ;;
  match data with
  | JDict kvs => load_entries kvs []
  | _ => ret []
  end.

(** ** The application *)

Record App : Type := mkApp {
  json_dir : string;
  file_index : Dict.t string;
  menu_values : list string;
  file_var : string;
  selected_display_name : string;
  items : Dict.t float;
  filtered_items : list (string * float);
  name_var : string;
  min_var : string;
  max_var : string;
  unit_var : string;
  tree : list (nat * list string);
  tree_next : nat;
  heading : Dict.t bool;
  dialogs : list (string * string)
}.

Definition with_index (ix : Dict.t string) (vals : list string) (fv : string)
  (a : App) : App :=
  mkApp (json_dir a) ix vals fv fv (items a) (filtered_items a)
    (name_var a) (min_var a) (max_var a) (unit_var a)
    (tree a) (tree_next a) (heading a) (dialogs a).

Definition with_items (d : Dict.t float) (a : App) : App :=
  mkApp (json_dir a) (file_index a) (menu_values a) (file_var a)
    (selected_display_name a) d (filtered_items a)
    (name_var a) (min_var a) (max_var a) (unit_var a)
    (tree a) (tree_next a) (heading a) (dialogs a).

Definition with_filtered (r : list (string * float)) (a : App) : App :=
  mkApp (json_dir a) (file_index a) (menu_values a) (file_var a)
    (selected_display_name a) (items a) r
    (name_var a) (min_var a) (max_var a) (unit_var a)
    (tree a) (tree_next a) (heading a) (dialogs a).

Definition with_tree (t : list (nat * list string)) (next : nat) (a : App) : App :=
  mkApp (json_dir a) (file_index a) (menu_values a) (file_var a)
    (selected_display_name a) (items a) (filtered_items a)
    (name_var a) (min_var a) (max_var a) (unit_var a)
    t next (heading a) (dialogs a).

Definition with_heading (h : Dict.t bool) (a : App) : App :=
  mkApp (json_dir a) (file_index a) (menu_values a) (file_var a)
    (selected_display_name a) (items a) (filtered_items a)
    (name_var a) (min_var a) (max_var a) (unit_var a)
    (tree a) (tree_next a) h (dialogs a).

(** [messagebox.showwarning(title, message)] *)
Definition showwarning (title message : string) (a : App) : App :=
  mkApp (json_dir a) (file_index a) (menu_values a) (file_var a)
    (selected_display_name a) (items a) (filtered_items a)
    (name_var a) (min_var a) (max_var a) (unit_var a)
    (tree a) (tree_next a) (heading a) ((dialogs a) ++ [(title, message)])%list.

(** *** Folder and files *)

Definition index_paths (paths : list string) : Dict.t string :=
  fold_left
    (fun ix p => Dict.set (fst (Path.splitext (Path.basename p))) p ix)
    paths [].

Definition _refresh_file_list (fs : FS) (select_display : option string) (a : App)
  : App :=
  let paths := list_json_files fs (json_dir a) in
  let ix := index_paths paths in
  let values :=
    ("All files" :: sort_by Str.ltb Str.lower false (Dict.keys ix))%list in
  let isin x := existsb (String.eqb x) values in
  let fv :=
    match select_display with
    | Some sd =>
        if (negb (String.eqb sd "") && isin sd)%bool then sd
        else if negb (isin (file_var a)) then "All files" else file_var a
    | None => if negb (isin (file_var a)) then "All files" else file_var a
    end in
  with_index ix values fv a.

(** The merge loop of [_load_items_for_selection] for "All files". *)
Fixpoint merge_all (fs : FS) (index : Dict.t string) (merged : Dict.t float)
  : Dict.t float :=
  match index with
  | [] => merged
  | (_, path) :: rest =>
      match load_prices_json fs path with
      | inr data => merge_all fs rest (Dict.update merged data)
      | inl _ => merge_all fs rest merged
      end
  end.

Definition _load_items_for_selection (fs : FS) (a : App) : App :=
  let sel := file_var a in
  let merged :=
    if String.eqb sel "All files" then merge_all fs (file_index a) []
    else
      match Dict.get sel (file_index a) with
      | Some path =>
          if negb (String.eqb path "") then
            match load_prices_json fs path with
            | inr data => data
            | inl _ => []
            end
          else []
      | None => []
      end in
  with_items merged a.

(** *** The table *)

Definition row_values (name : string) (gp_value : float) : result (list string) :=
  conv <- from_gp gp_value ;;
  c_pp <- (x <- subscript conv "pp" ;; pretty x true) ;;
  c_gp <- (x <- subscript conv "gp" ;; pretty x true) ;;
  c_ep <- (x <- subscript conv "ep" ;; pretty x true) ;;
  c_sp <- (x <- subscript conv "sp" ;; pretty x true) ;;
  c_cp <- (x <- subscript conv "cp" ;; pretty x true) ;;
  ret [name; c_pp; c_gp; c_ep; c_sp; c_cp].

Fixpoint insert_rows (rows : list (string * float)) (a : App) : App * result unit :=
  match rows with
  | [] => (a, ret tt)
  | (name, gp_value) :: rest =>
      match row_values name gp_value with
      | inr vals =>
          insert_rows rest
            (with_tree (tree a ++ [(tree_next a, vals)])%list (S (tree_next a)) a)
      | inl e => (a, inl e)
      end
  end.

Definition _refresh_table (rows : list (string * float)) (a : App)
  : App * result unit :=
  insert_rows rows (with_tree [] (tree_next a) a).

(** *** Filters *)

Definition parse_bound (s unit : string) : result (option float) :=
  if negb (String.eqb s "") then
    x <- Flt.of_str s ;;
    g <- to_gp x unit ;;
    ret (Some g)
  else ret None.

(** The loop of [_apply_filters] over [self.items.items()]. *)
Fixpoint filter_loop (name_query : string) (min_gp max_gp : option float)
  (its : list (string * float)) (results : list (string * float))
  : list (string * float) :=
  match its with
  | [] => results
  | (name, price_gp) :: rest =>
      if (negb (String.eqb name_query "") &&
          negb (Str.contains name_query (Str.lower name)))%bool
      then filter_loop name_query min_gp max_gp rest results
      else if match min_gp with
              | Some m => (price_gp <? m)%float
              | None => false
              end
      then filter_loop name_query min_gp max_gp rest results
      else if match max_gp with
              | Some m => (m <? price_gp)%float
              | None => false
              end
      then filter_loop name_query min_gp max_gp rest results
      else filter_loop name_query min_gp max_gp rest
             (results ++ [(name, price_gp)])%list
  end.

Definition _apply_filters (a : App) : App * result unit :=
  let name_query := Str.lower (Str.strip (name_var a)) in
  let min_s := Str.strip (min_var a) in
  let max_s := Str.strip (max_var a) in
  let unit := unit_var a in
  match (min_gp <- parse_bound min_s unit ;;
         max_gp <- parse_bound max_s unit ;;
         ret (min_gp, max_gp)) with
  | inl e =>
      if is_a e ValueError then
        (showwarning "Invalid Range" "Min/Max must be numbers." a, ret tt)
      else (a, inl e)
  | inr (min_gp, max_gp) =>
      let results := filter_loop name_query min_gp max_gp (items a) [] in
      _refresh_table results (with_filtered results a)
  end.

(** *** Sorting *)

Definition columns : list string := ["name"; "pp"; "gp"; "ep"; "sp"; "cp"].

Definition numeric_cols : list string := ["pp"; "gp"; "ep"; "sp"; "cp"].

Definition to_num (s : string) : float :=
  match Flt.of_str s with
  | inr x => x
  | inl _ => infinity
  end.

(** The cell of column [col_key] for every child of the table. *)
Fixpoint collect_rows (col_key : string) (children : list (nat * list string))
  : result (list (string * nat)) :=
  match children with
  | [] => ret []
  | (iid, vals) :: rest =>
      cell <- subscript (combine columns vals) col_key ;;
      rows <- collect_rows col_key rest ;;
      ret ((cell, iid) :: rows)
  end.

(** [tree.move(iid, "", idx)] *)
Definition tree_move (iid idx : nat) (children : list (nat * list string))
  : list (nat * list string) :=
  match find (fun c => Nat.eqb (fst c) iid) children with
  | Some c =>
      let others := filter (fun c => negb (Nat.eqb (fst c) iid)) children in
      (firstn idx others ++ c :: skipn idx others)%list
  | None => children
  end.

Fixpoint move_all (rows : list (string * nat)) (idx : nat)
  (children : list (nat * list string)) : list (nat * list string) :=
  match rows with
  | [] => children
  | (_, iid) :: rest => move_all rest (S idx) (tree_move iid idx children)
  end.

Definition sort_rows (col_key : string) (descending : bool)
  (rows : list (string * nat)) : list (string * nat) :=
  if existsb (String.eqb col_key) numeric_cols then
    sort_by PrimFloat.ltb (fun t => to_num (fst t)) descending rows
  else
    sort_by Str.ltb (fun t => Str.lower (fst t)) descending rows.

Definition _sort_by (col_key : string) (descending : bool) (a : App)
  : App * result unit :=
  match collect_rows col_key (tree a) with
  | inl e => (a, inl e)
  | inr rows =>
      let rows := sort_rows col_key descending rows in
      let a := with_tree (move_all rows 0 (tree a)) (tree_next a) a in
      (with_heading (Dict.set col_key (negb descending) (heading a)) a, ret tt)
  end.

(** *** Paths of the program *)

(** What the program reads of its interpreter: [sys.frozen], the folder of
    [sys.executable], [sys._MEIPASS], and the absolute folder of the
    script. *)
Record Env : Type := mkEnv {
  frozen : bool;
  executable_dir : string;
  meipass : option string;
  script_dir : string
}.

Definition DEFAULT_JSON_NAME : string := "prices.json".

Definition JSON_DIR_NAME : string := "json_files".

Definition is_frozen (env : Env) : bool := frozen env.

Definition app_base_dir (env : Env) : string :=
  if is_frozen env then executable_dir env else script_dir env.

Definition resource_base_dir (env : Env) : string :=
  if is_frozen env then
    match meipass env with
    | Some d => d
    | None => app_base_dir env
    end
  else app_base_dir env.

Definition resource_path (env : Env) (rel_path : string) : string :=
  Path.join (resource_base_dir env) rel_path.

Definition writeable_path (env : Env) (rel_path : string) : string :=
  Path.join (app_base_dir env) rel_path.

(** The file system after the call, and the path returned. *)
Definition seed_default_prices (env : Env) (fs : FS) (json_dir default_name : string)
  : FS * option string :=
  let dst := Path.join json_dir default_name in
  if Fs.exists_ fs dst then (fs, None)
  else
    let src := resource_path env default_name in
    if Fs.exists_ fs src then
      match Fs.copy2 fs src dst with
      | inr fs' => (fs', Some dst)
      | inl _ => (fs, None)
      end
    else (fs, None).

(** *** Buttons and menu *)

Definition with_filters (name_s min_s max_s unit : string) (a : App) : App :=
  mkApp (json_dir a) (file_index a) (menu_values a) (file_var a)
    (selected_display_name a) (items a) (filtered_items a)
    name_s min_s max_s unit
    (tree a) (tree_next a) (heading a) (dialogs a).

Definition with_selected (choice : string) (a : App) : App :=
  mkApp (json_dir a) (file_index a) (menu_values a) (file_var a)
    choice (items a) (filtered_items a)
    (name_var a) (min_var a) (max_var a) (unit_var a)
    (tree a) (tree_next a) (heading a) (dialogs a).

(** [messagebox.showinfo(title, message)] *)
Definition showinfo (title message : string) (a : App) : App :=
  showwarning title message a.

(** [messagebox.showerror(title, message)] *)
Definition showerror (title message : string) (a : App) : App :=
  showwarning title message a.

Definition _clear_filters (a : App) : App * result unit :=
  _apply_filters (with_filters "" "" "" "gp" a).

Definition _on_select_file (fs : FS) (choice : string) (a : App) : App * result unit :=
  _apply_filters (_load_items_for_selection fs (with_selected choice a)).

Definition _reload_folder (fs : FS) (a : App) : App * result unit :=
  _apply_filters
    (_load_items_for_selection fs (_refresh_file_list fs (Some (file_var a)) a)).

Definition newline : string := String (ascii_of_nat 10) "".

Section ImportDialog.

(** The text of an exception, [f"{e}"]. *)
Variable describe : exn -> string.

(** [path] is what the file dialog returned, empty when it was cancelled,
    and [cwd] is [os.getcwd()]. [None] when the search of a free name runs
    out of fuel. *)
Definition _choose_and_import_json (cwd : string) (fs : FS) (path : string)
  (a : App) : option (FS * App) :=
  if String.eqb path "" then Some (fs, a)
  else
    match safe_copy_into_json_dir cwd fs path (json_dir a) with
    | None => None
    | Some (inl e) =>
        Some (fs, showerror "Import failed"
                    ("Could not import file:" ++ newline ++ describe e) a)
    | Some (inr (fs', dst)) =>
        let disp_name := fst (Path.splitext (Path.basename dst)) in
        let a1 := _refresh_file_list fs' (Some disp_name) a in
        let a2 := _load_items_for_selection fs' a1 in
        match _apply_filters a2 with
        | (a3, inr _) =>
            Some (fs', showinfo "Imported"
                         ("Copied into " ++ JSON_DIR_NAME ++ ":" ++ newline ++
                          Path.basename dst) a3)
        | (a3, inl e) =>
            Some (fs', showerror "Import failed"
                         ("Could not import file:" ++ newline ++ describe e) a3)
        end
    end.

End ImportDialog.

(** * Properties *)

Local Open Scope list_scope.

(** ** Basic facts *)

Lemma float_neq (x y : float) : PrimFloat.eqb x y = false -> is_nan x = false -> x <> y.
Proof.
  unfold is_nan. intros Hxy Hx E. subst y.
  rewrite Hxy in Hx. discriminate.
Qed.

Module DictFacts.

Section Facts.
Context {V : Type}.

Lemma get_set (k n : string) (v : V) (d : Dict.t V) :
  Dict.get n (Dict.set k v d) = if String.eqb n k then Some v else Dict.get n d.
Proof.
  induction d as [| [k' v'] d IH]; simpl.
  - reflexivity.
  - destruct (String.eqb k k') eqn:Ekk'; simpl.
    + apply String.eqb_eq in Ekk'. subst k'.
      destruct (String.eqb n k); reflexivity.
    + destruct (String.eqb n k') eqn:Enk'.
      * apply String.eqb_eq in Enk'. subst k'.
        rewrite String.eqb_sym, Ekk'. reflexivity.
      * exact IH.
Qed.

Lemma get_set_same (k : string) (v : V) (d : Dict.t V) :
  Dict.get k (Dict.set k v d) = Some v.
Proof. rewrite get_set, String.eqb_refl. reflexivity. Qed.

Lemma get_set_other (k n : string) (v : V) (d : Dict.t V) :
  n <> k -> Dict.get n (Dict.set k v d) = Dict.get n d.
Proof.
  intros H. rewrite get_set.
  destruct (String.eqb n k) eqn:E; [apply String.eqb_eq in E; contradiction | reflexivity].
Qed.

Lemma get_update (n : string) (d d2 : Dict.t V) :
  Dict.get n (Dict.update d d2) =
  match Dict.get n (rev d2) with
  | Some v => Some v
  | None => Dict.get n d
  end.
Proof.
  unfold Dict.update. revert d.
  induction d2 as [| [k v] d2 IH]; intros d; simpl.
  - reflexivity.
  - rewrite IH, get_set.
    assert (Happ : forall (l : Dict.t V),
               Dict.get n (l ++ [(k, v)]) =
               match Dict.get n l with
               | Some x => Some x
               | None => if String.eqb n k then Some v else None
               end).
    { induction l as [| [k1 v1] l IHl]; simpl.
      - reflexivity.
      - destruct (String.eqb n k1); [reflexivity | exact IHl]. }
    rewrite Happ.
    destruct (Dict.get n (rev d2)); [reflexivity |].
    destruct (String.eqb n k); reflexivity.
Qed.

End Facts.

End DictFacts.

(** ** The order of floats

    A float that is not NaN is ranked by its class, then its exponent and
    mantissa; [<] and [<=] compare ranks lexicographically. *)

Module FloatOrder.

Definition rank (x : spec_float) : Z * Z * Z :=
  match x with
  | S754_nan => (0, 0, 0)
  | S754_zero _ => (0, 0, 0)
  | S754_infinity true => (-2, 0, 0)
  | S754_infinity false => (2, 0, 0)
  | S754_finite true m e => (-1, - e, - Zpos m)
  | S754_finite false m e => (1, e, Zpos m)
  end.

Definition lex_compare (a b : Z * Z * Z) : comparison :=
  let '(a1, a2, a3) := a in
  let '(b1, b2, b3) := b in
  match a1 ?= b1 with
  | Eq => match a2 ?= b2 with
          | Eq => a3 ?= b3
          | c => c
          end
  | c => c
  end.

Definition lex_lt (a b : Z * Z * Z) : Prop :=
  fst (fst a) < fst (fst b) \/
  (fst (fst a) = fst (fst b) /\
   (snd (fst a) < snd (fst b) \/
    (snd (fst a) = snd (fst b) /\ snd a < snd b))).

Definition lex_eq (a b : Z * Z * Z) : Prop :=
  fst (fst a) = fst (fst b) /\ snd (fst a) = snd (fst b) /\ snd a = snd b.

Lemma lex_compare_Lt (a b : Z * Z * Z) : lex_compare a b = Lt <-> lex_lt a b.
Proof.
  destruct a as [[a1 a2] a3], b as [[b1 b2] b3]. unfold lex_compare, lex_lt. simpl.
  destruct (Z.compare_spec a1 b1); destruct (Z.compare_spec a2 b2);
    destruct (Z.compare_spec a3 b3); split; intros; try discriminate;
    try reflexivity; try lia.
Qed.

Lemma lex_compare_Eq (a b : Z * Z * Z) : lex_compare a b = Eq <-> lex_eq a b.
Proof.
  destruct a as [[a1 a2] a3], b as [[b1 b2] b3]. unfold lex_compare, lex_eq. simpl.
  destruct (Z.compare_spec a1 b1); destruct (Z.compare_spec a2 b2);
    destruct (Z.compare_spec a3 b3); split; intros; try discriminate;
    try reflexivity; try lia.
Qed.

Lemma lex_compare_Gt (a b : Z * Z * Z) : lex_compare a b = Gt <-> lex_lt b a.
Proof.
  destruct a as [[a1 a2] a3], b as [[b1 b2] b3]. unfold lex_compare, lex_lt. simpl.
  destruct (Z.compare_spec a1 b1); destruct (Z.compare_spec a2 b2);
    destruct (Z.compare_spec a3 b3); split; intros; try discriminate;
    try reflexivity; try lia.
Qed.

Lemma SFcompare_rank (x y : spec_float) :
  x <> S754_nan -> y <> S754_nan ->
  SFcompare x y = Some (lex_compare (rank x) (rank y)).
Proof.
  intros Hx Hy.
  destruct x as [sx | sx | | sx mx ex]; try contradiction;
    destruct y as [sy | sy | | sy my ey]; try contradiction;
    try destruct sx; try destruct sy; try reflexivity.
  - simpl. rewrite Z.compare_opp.
    rewrite (Z.compare_antisym ey ex).
    destruct (ey ?= ex); reflexivity.
Qed.

Definition not_nan (x : float) : Prop := is_nan x = false.

Lemma not_nan_spec (x : float) : not_nan x <-> Prim2SF x <> S754_nan.
Proof.
  unfold not_nan, is_nan. rewrite FloatAxioms.eqb_spec. unfold SFeqb. split.
  - intros H E. rewrite E in H. simpl in H. discriminate.
  - intros H. rewrite (SFcompare_rank _ _ H H).
    assert (E : lex_compare (rank (Prim2SF x)) (rank (Prim2SF x)) = Eq).
    { apply lex_compare_Eq. unfold lex_eq. auto. }
    rewrite E. reflexivity.
Qed.

Lemma ltb_rank (x y : float) :
  not_nan x -> not_nan y ->
  ((x <? y)%float = true <-> lex_lt (rank (Prim2SF x)) (rank (Prim2SF y))).
Proof.
  intros Hx Hy. apply not_nan_spec in Hx. apply not_nan_spec in Hy.
  rewrite FloatAxioms.ltb_spec. unfold SFltb. rewrite (SFcompare_rank _ _ Hx Hy).
  rewrite <- lex_compare_Lt.
  destruct (lex_compare (rank (Prim2SF x)) (rank (Prim2SF y)));
    split; intros; try discriminate; reflexivity.
Qed.

Lemma ltb_false_rank (x y : float) :
  not_nan x -> not_nan y ->
  ((x <? y)%float = false <-> ~ lex_lt (rank (Prim2SF x)) (rank (Prim2SF y))).
Proof.
  intros Hx Hy. rewrite <- (ltb_rank x y Hx Hy).
  destruct (x <? y)%float; split; intros; try discriminate; try reflexivity.
  exfalso. apply H. reflexivity.
Qed.

Lemma leb_rank (x y : float) :
  not_nan x -> not_nan y ->
  ((x <=? y)%float = true <-> ~ lex_lt (rank (Prim2SF y)) (rank (Prim2SF x))).
Proof.
  intros Hx Hy. apply not_nan_spec in Hx. apply not_nan_spec in Hy.
  rewrite FloatAxioms.leb_spec. unfold SFleb. rewrite (SFcompare_rank _ _ Hx Hy).
  destruct (lex_compare (rank (Prim2SF x)) (rank (Prim2SF y))) eqn:E.
  - apply lex_compare_Eq in E. unfold lex_eq, lex_lt in *.
    split; [intros _; lia | reflexivity].
  - apply lex_compare_Lt in E. unfold lex_lt in *.
    split; [intros _; lia | reflexivity].
  - apply lex_compare_Gt in E. split; [discriminate | contradiction].
Qed.

(** With no NaN involved, [a <= b] is the negation of [b < a]. *)
Lemma leb_negb_ltb (x y : float) :
  not_nan x -> not_nan y -> (x <=? y)%float = negb (y <? x)%float.
Proof.
  intros Hx Hy.
  destruct (y <? x)%float eqn:E; simpl.
  - apply (ltb_rank y x Hy Hx) in E.
    destruct (x <=? y)%float eqn:E2; [| reflexivity].
    apply (leb_rank x y Hx Hy) in E2. contradiction.
  - apply (ltb_false_rank y x Hy Hx) in E.
    apply (leb_rank x y Hx Hy). exact E.
Qed.

Lemma ltb_asym (x y : float) :
  not_nan x -> not_nan y -> (x <? y)%float = true -> (y <? x)%float = false.
Proof.
  intros Hx Hy H. apply (ltb_rank x y Hx Hy) in H.
  apply (ltb_false_rank y x Hy Hx). unfold lex_lt in *. lia.
Qed.

Lemma ltb_negtrans (x y z : float) :
  not_nan x -> not_nan y -> not_nan z ->
  (y <? x)%float = false -> (z <? y)%float = false -> (z <? x)%float = false.
Proof.
  intros Hx Hy Hz H1 H2.
  apply (ltb_false_rank y x Hy Hx) in H1.
  apply (ltb_false_rank z y Hz Hy) in H2.
  apply (ltb_false_rank z x Hz Hx). unfold lex_lt in *. lia.
Qed.

(** A comparison with NaN is false. *)
Lemma ltb_nan_l (x : float) : (nan <? x)%float = false.
Proof. rewrite FloatAxioms.ltb_spec. reflexivity. Qed.

Lemma ltb_nan_r (x : float) : (x <? nan)%float = false.
Proof.
  rewrite FloatAxioms.ltb_spec. unfold SFltb.
  destruct (Prim2SF x); reflexivity.
Qed.

Lemma leb_nan_l (x : float) : (nan <=? x)%float = false.
Proof. rewrite FloatAxioms.leb_spec. reflexivity. Qed.

Lemma leb_nan_r (x : float) : (x <=? nan)%float = false.
Proof.
  rewrite FloatAxioms.leb_spec. unfold SFleb.
  destruct (Prim2SF x); reflexivity.
Qed.

(** Nothing is above infinity. *)
Lemma ltb_infinity_l (x : float) : (infinity <? x)%float = false.
Proof.
  rewrite FloatAxioms.ltb_spec. unfold SFltb.
  change (Prim2SF infinity) with (S754_infinity false).
  destruct (Prim2SF x) as [s | s | | s m e]; try reflexivity.
  destruct s; reflexivity.
Qed.

End FloatOrder.

(** ** Exact float operations

    Operations whose result needs no rounding: the product with 1 and the
    conversion of an integer that is the value of a float. *)

Module FloatExact.

Lemma iter_pos_iter {A : Type} (f : A -> A) (p : positive) :
  forall x, SpecFloat.iter_pos f p x = Pos.iter f x p.
Proof.
  induction p as [p IH | p IH |]; intros x; simpl.
  - rewrite !IH. rewrite <- !Pos.iter_swap. reflexivity.
  - rewrite !IH. reflexivity.
  - reflexivity.
Qed.

Lemma digits_shift (m k : positive) :
  digits2_pos (Pos.iter xO m k) = (digits2_pos m + k)%positive.
Proof.
  induction k as [| k IH] using Pos.peano_ind.
  - simpl. rewrite Pos.add_1_r. reflexivity.
  - rewrite Pos.iter_succ. simpl. rewrite IH, Pos.add_succ_r. reflexivity.
Qed.

Lemma shr_shift (m k : positive) :
  SpecFloat.iter_pos shr_1 k (Build_shr_record (Zpos (Pos.iter xO m k)) false false) =
  Build_shr_record (Zpos m) false false.
Proof.
  rewrite iter_pos_iter.
  induction k as [| k IH] using Pos.peano_ind.
  - reflexivity.
  - rewrite Pos.iter_succ_r, Pos.iter_succ. simpl. exact IH.
Qed.

Lemma bounded_inv (m : positive) (e : Z) :
  bounded prec emax m e = true ->
  fexp prec emax (Zpos (digits2_pos m) + e) = e /\ e <= emax - prec.
Proof.
  unfold bounded, canonical_mantissa. intros H.
  apply andb_true_iff in H. destruct H as [H1 H2].
  apply Z.eqb_eq in H1. apply Z.leb_le in H2. auto.
Qed.

Lemma round_aux_unshifted (s : bool) (m : positive) (e : Z) :
  bounded prec emax m e = true ->
  binary_round_aux prec emax s (Zpos m) e loc_Exact = S754_finite s m e.
Proof.
  intros Hb. destruct (bounded_inv m e Hb) as [Hc He].
  unfold binary_round_aux, shr_fexp. simpl Zdigits2.
  rewrite Hc, Z.sub_diag.
  cbn [shr shr_record_of_loc round_nearest_even shr_m loc_of_shr_record Zdigits2 shr_r shr_s].
  rewrite Hc, Z.sub_diag.
  cbn [shr shr_record_of_loc round_nearest_even shr_m loc_of_shr_record Zdigits2 shr_r shr_s].
  apply Z.leb_le in He. rewrite He. reflexivity.
Qed.

Lemma round_aux_shifted (s : bool) (m k : positive) (e : Z) :
  bounded prec emax m e = true ->
  binary_round_aux prec emax s (Zpos (Pos.iter xO m k)) (e - Zpos k) loc_Exact =
  S754_finite s m e.
Proof.
  intros Hb. destruct (bounded_inv m e Hb) as [Hc He].
  unfold binary_round_aux, shr_fexp. simpl Zdigits2.
  rewrite digits_shift.
  replace (Zpos (digits2_pos m + k) + (e - Zpos k)) with (Zpos (digits2_pos m) + e) by lia.
  rewrite Hc.
  replace (e - (e - Zpos k)) with (Zpos k) by lia.
  cbn [shr shr_record_of_loc].
  rewrite shr_shift.
  cbn [shr shr_record_of_loc round_nearest_even shr_m loc_of_shr_record Zdigits2 shr_r shr_s].
  replace (e - Zpos k + Zpos k) with e by lia.
  rewrite Hc, Z.sub_diag.
  cbn [shr shr_record_of_loc round_nearest_even shr_m loc_of_shr_record Zdigits2 shr_r shr_s].
  apply Z.leb_le in He. rewrite He. reflexivity.
Qed.

Lemma mul_one (p : float) : (p * 1)%float = p.
Proof.
  apply Prim2SF_inj. rewrite mul_spec.
  pose proof (Prim2SF_valid p) as Hv.
  change (Prim2SF 1) with (S754_finite false 4503599627370496 (-52)).
  destruct (Prim2SF p) as [s | s | | s m e]; try (destruct s; reflexivity).
  - reflexivity.
  - simpl in Hv. unfold SF64mul, SFmul.
    rewrite xorb_false_r, Pos.mul_comm.
    change (4503599627370496 * m)%positive with (Pos.iter xO m 52).
    change (e + -52) with (e - 52).
    apply round_aux_shifted. exact Hv.
Qed.

Lemma digits_size (p : positive) : digits2_pos p = Pos.size p.
Proof.
  induction p as [p IH | p IH |]; simpl; [rewrite IH | rewrite IH |]; reflexivity.
Qed.

Lemma digits_mono (p m : positive) :
  (p <= m)%positive -> Zpos (digits2_pos p) <= Zpos (digits2_pos m).
Proof.
  intros Hle. rewrite !digits_size.
  destruct (Z_le_gt_dec (Zpos (Pos.size p)) (Zpos (Pos.size m))) as [H | H];
    [exact H | exfalso].
  pose proof (Pos.size_le p) as Hp. pose proof (Pos.size_gt m) as Hm.
  apply Pos2Z.pos_le_pos in Hp. apply Pos2Z.pos_lt_pos in Hm.
  rewrite Pos2Z.inj_pow in Hp, Hm. change (Zpos p~0) with (2 * Zpos p) in Hp.
  assert (Hpow : 2 ^ (Zpos (Pos.size m) + 1) <= 2 ^ Zpos (Pos.size p))
    by (apply Z.pow_le_mono_r; lia).
  rewrite Z.pow_add_r, Z.pow_1_r in Hpow by lia.
  apply Pos2Z.pos_le_pos in Hle. lia.
Qed.

(** An integer of at most 53 bits is a float. *)
Lemma round_small (s : bool) (p : positive) :
  Zpos (digits2_pos p) <= 53 ->
  exists m e, binary_round prec emax s p 0 = S754_finite s m e.
Proof.
  intros Hd. unfold binary_round.
  assert (Hf : fexp prec emax (Zpos (digits2_pos p) + 0) = Zpos (digits2_pos p) - 53).
  { unfold fexp, emin, prec, emax. lia. }
  rewrite Hf. unfold shl_align.
  destruct (Zpos (digits2_pos p) - 53 - 0) as [| k | k] eqn:Ek; try lia.
  - exists p, 0. apply round_aux_unshifted.
    unfold bounded, canonical_mantissa. rewrite Hf.
    replace (Zpos (digits2_pos p) - 53) with 0 by lia. reflexivity.
  - exists (Pos.iter xO p k), (Zpos (digits2_pos p) - 53).
    apply round_aux_unshifted.
    unfold bounded, canonical_mantissa. rewrite digits_shift.
    apply andb_true_iff. split.
    + apply Z.eqb_eq. unfold fexp, emin, prec, emax. lia.
    + apply Z.leb_le. unfold prec, emax. lia.
Qed.

Lemma round_half_even_bounds (n d : Z) :
  0 < n -> 1 < d -> 0 <= Flt.round_half_even n d <= n.
Proof.
  intros Hn Hd. unfold Flt.round_half_even.
  pose proof (Z.div_mod n d ltac:(lia)) as Hdm.
  pose proof (Z.mod_pos_bound n d ltac:(lia)) as Hr.
  assert (Hq : 0 <= n / d) by (apply Z.div_pos; lia).
  destruct (Z.compare_spec (2 * (n mod d)) d) as [E | E | E].
  - destruct (Z.even (n / d)); nia.
  - nia.
  - nia.
Qed.

(** The nearest integer: [round_half_even n d] is within a half of
    [n / d]. *)
Lemma round_half_even_nearest (n d : Z) :
  0 < d -> 2 * Z.abs (Flt.round_half_even n d * d - n) <= d.
Proof.
  intros Hd. unfold Flt.round_half_even.
  pose proof (Z.div_mod n d ltac:(lia)) as Hdm.
  pose proof (Z.mod_pos_bound n d ltac:(lia)) as Hr.
  destruct (Z.compare_spec (2 * (n mod d)) d) as [E | E | E].
  - destruct (Z.even (n / d)); nia.
  - nia.
  - nia.
Qed.

(** [float(z)] succeeds when [z] is an integer of at most 53 bits. *)
Lemma of_int_small (s : bool) (z : Z) (m : positive) :
  0 <= z <= Zpos m -> Zpos (digits2_pos m) <= 53 ->
  exists zf, Flt.of_int (cond_Zopp s z) = inr zf.
Proof.
  intros Hz Hm. unfold Flt.of_int.
  destruct z as [| p | p]; try lia.
  - destruct s; simpl; eexists; reflexivity.
  - assert (Hp : Zpos (digits2_pos p) <= 53).
    { apply Z.le_trans with (Zpos (digits2_pos m)); [| exact Hm].
      apply digits_mono. apply Pos2Z.pos_le_pos. lia. }
    destruct s; simpl.
    + destruct (round_small true p Hp) as (m' & e' & ->). eexists. reflexivity.
    + destruct (round_small false p Hp) as (m' & e' & ->). eexists. reflexivity.
Qed.

(** [float(z)] succeeds when [z] is the value of a float with a
    non-negative exponent. *)
Lemma of_int_scaled (s : bool) (m : positive) (e : Z) :
  bounded prec emax m e = true -> 0 <= e ->
  exists zf, Flt.of_int (cond_Zopp s (Zpos m * 2 ^ e)) = inr zf.
Proof.
  intros Hb He. destruct (bounded_inv m e Hb) as [Hc Hmax].
  unfold Flt.of_int.
  destruct e as [| k | k]; try lia.
  - rewrite Z.pow_0_r, Z.mul_1_r.
    assert (E : forall s', binary_round prec emax s' m 0 = S754_finite s' m 0).
    { intros s'. unfold binary_round. rewrite Hc. unfold shl_align. simpl.
      apply round_aux_unshifted. exact Hb. }
    destruct s; simpl; rewrite E; eexists; reflexivity.
  - assert (Hshift : Zpos m * 2 ^ Zpos k = Zpos (Pos.iter xO m k)).
    { rewrite <- Z.shiftl_mul_pow2 by lia. simpl.
      symmetry. apply (Pos.iter_swap_gen _ _ Zpos xO (Z.mul 2)). reflexivity. }
    rewrite Hshift.
    assert (E : forall s', binary_round prec emax s' (Pos.iter xO m k) 0 =
                           S754_finite s' m (Zpos k)).
    { intros s'. unfold binary_round. rewrite digits_shift.
      replace (Zpos (digits2_pos m + k) + 0) with (Zpos (digits2_pos m) + Zpos k) by lia.
      rewrite Hc. unfold shl_align. simpl.
      pose proof (round_aux_shifted s' m k (Zpos k) Hb) as Hr.
      rewrite Z.sub_diag in Hr. exact Hr. }
    destruct s; simpl; rewrite E; eexists; reflexivity.
Qed.

End FloatExact.

(** ** The decoder of [json.load] *)

Module Decoding.

(** Induction on JSON values, with the property on the items of a list and
    on the values of an object. *)
Section Induction.
Variable P : json -> Prop.
Hypothesis HNull : P JNull.
Hypothesis HBool : forall b, P (JBool b).
Hypothesis HInt : forall z, P (JInt z).
Hypothesis HFloat : forall x, P (JFloat x).
Hypothesis HStr : forall s, P (JStr s).
Hypothesis HList : forall l, Forall P l -> P (JList l).
Hypothesis HDict : forall kvs, Forall (fun kv => P (snd kv)) kvs -> P (JDict kvs).


End Induction.













End Decoding.

(** ** The catalog loader *)

Module Loader.

Import Decoding.










(** *** The entries of an object *)

(** No value under a string key is an integer beyond the range of floats. *)
Definition no_overflow (kvs : list (key * json)) : Prop :=
  forall k v, In (KStr k, v) kvs -> float_of v <> inl OverflowError.

(** The price the loop leaves under [name]: that of the last entry whose
    stripped key is [name] and whose value [float] accepts. *)
Fixpoint last_accepted (name : string) (kvs : list (key * json)) : option float :=
  match kvs with
  | [] => None
  | (KNone, _) :: rest => last_accepted name rest
  | (KStr k, v) :: rest =>
      match last_accepted name rest with
      | Some x => Some x
      | None =>
          if String.eqb name (Str.strip k) then
            match float_of v with
            | inr x => Some x
            | inl _ => None
            end
          else None
      end
  end.

Lemma float_of_errors (v : json) (e : exn) :
  float_of v = inl e -> e = TypeError \/ e = ValueError \/ e = OverflowError.
Proof.
  destruct v; simpl; try (intros H; inversion H; auto; fail).
  - unfold Flt.of_int.
    destruct (binary_normalize prec emax z 0 false); simpl; intros H;
      inversion H; auto.
  - unfold Flt.of_str. destruct (Flt.parse s); simpl; intros H; inversion H; auto.
Qed.

Lemma load_entries_get (kvs : list (key * json)) :
  forall acc cleaned,
    load_entries kvs acc = inr cleaned ->
    forall name,
      Dict.get name cleaned =
      match last_accepted name kvs with
      | Some x => Some x
      | None => Dict.get name acc
      end.
Proof.
  induction kvs as [| [[| k] v] rest IH]; intros acc cleaned H name; simpl in *.
  - inversion H. reflexivity.
  - exact (IH _ _ H name).
  - destruct (float_of v) as [e | price] eqn:Ev.
    + destruct (is_a e TypeError || is_a e ValueError)%bool; [| discriminate].
      rewrite (IH _ _ H name).
      destruct (last_accepted name rest); [reflexivity |].
      destruct (String.eqb name (Str.strip k)); reflexivity.
    + rewrite (IH _ _ H name).
      destruct (last_accepted name rest); [reflexivity |].
      rewrite DictFacts.get_set.
      destruct (String.eqb name (Str.strip k)); reflexivity.
Qed.

Lemma load_entries_returns (kvs : list (key * json)) :
  no_overflow kvs -> forall acc, exists cleaned, load_entries kvs acc = inr cleaned.
Proof.
  induction kvs as [| [[| k] v] rest IH]; intros Hno acc; simpl.
  - exists acc. reflexivity.
  - apply IH. intros k' v' Hin. apply (Hno k' v'). right. exact Hin.
  - assert (Hrest : no_overflow rest).
    { intros k' v' Hin. apply (Hno k' v'). right. exact Hin. }
    destruct (float_of v) as [e | price] eqn:Ev.
    + destruct (float_of_errors v e Ev) as [-> | [-> | ->]]; simpl.
      * apply IH, Hrest.
      * apply IH, Hrest.
      * exfalso. apply (Hno k v); [left; reflexivity | exact Ev].
    + apply IH, Hrest.
Qed.

(** [last_accepted] in words: the object splits at an accepted entry named
    [name] after which every entry of that name is rejected. *)
Lemma last_accepted_split (name : string) (kvs : list (key * json)) :
  forall x,
  last_accepted name kvs = Some x <->
  exists l1 k v l2,
    kvs = l1 ++ (KStr k, v) :: l2 /\
    Str.strip k = name /\
    float_of v = inr x /\
    forall k' v', In (KStr k', v') l2 -> Str.strip k' = name ->
                  exists e, float_of v' = inl e.
Proof.
  induction kvs as [| [[| k] v] rest IH]; intros x; simpl.
  - split; [discriminate |].
    intros (l1 & k & v & l2 & H & _). destruct l1; discriminate.
  - rewrite IH. split.
    + intros (l1 & k & v' & l2 & -> & H).
      exists ((KNone, v) :: l1), k, v', l2. split; [reflexivity | exact H].
    + intros (l1 & k & v' & l2 & E & H).
      destruct l1 as [| p l1]; [discriminate |].
      inversion E; subst. exists l1, k, v', l2. split; [reflexivity | exact H].
  - destruct (last_accepted name rest) as [y |] eqn:Ey.
    + split.
      * intros Hy. inversion Hy; subst y.
        destruct (proj1 (IH x) eq_refl) as (l1 & k1 & v1 & l2 & -> & H).
        exists ((KStr k, v) :: l1), k1, v1, l2. split; [reflexivity | exact H].
      * intros (l1 & k1 & v1 & l2 & E & Hk & Hv & Hlater).
        destruct l1 as [| p l1].
        -- inversion E; subst.
           destruct (proj1 (IH y) eq_refl)
             as (l1' & k2 & v2 & l2' & E2 & Hk2 & Hv2 & _).
           destruct (Hlater k2 v2) as [e He].
           ++ rewrite E2. apply in_or_app. right. left. reflexivity.
           ++ exact Hk2.
           ++ rewrite Hv2 in He. discriminate.
        -- inversion E; subst. apply IH.
           exists l1, k1, v1, l2. auto.
    + split.
      * destruct (String.eqb name (Str.strip k)) eqn:En; [| discriminate].
        apply String.eqb_eq in En.
        destruct (float_of v) as [e | y] eqn:Ev; [discriminate |].
        intros Hy. inversion Hy; subst y.
        exists [], k, v, rest. repeat split; auto.
        intros k' v' Hin Hk'.
        destruct (float_of v') as [e | z] eqn:Ev'; [exists e; reflexivity |].
        exfalso.
        assert (Hsome : last_accepted name rest <> None).
        { clear - Hin Hk' Ev'.
          induction rest as [| [[| k2] v2] rest IHr]; simpl in *.
          - contradiction.
          - destruct Hin as [Hin | Hin]; [discriminate | auto].
          - destruct Hin as [Hin | Hin].
            + inversion Hin; subst.
              destruct (last_accepted (Str.strip k') rest); [discriminate |].
              rewrite String.eqb_refl, Ev'. discriminate.
            + specialize (IHr Hin).
              destruct (last_accepted name rest); [discriminate |].
              contradiction. }
        contradiction.
      * intros (l1 & k1 & v1 & l2 & E & Hk & Hv & Hlater).
        destruct l1 as [| p l1].
        -- inversion E; subst.
           rewrite String.eqb_refl, Hv. reflexivity.
        -- inversion E; subst. exfalso.
           assert (Hsome : @None float = Some x).
           { apply IH. exists l1, k1, v1, l2. auto. }
           discriminate.
Qed.

Definition colliding_object : list (key * json) :=
  [(KStr " a", JInt 1); (KStr "a", JInt 2)].

(** The reading of C4 that every accepted entry is in the result. *)
Definition keeps_every_accepted_entry
  (kvs : list (key * json)) (cleaned : Dict.t float) : Prop :=
  forall k v x,
    In (KStr k, v) kvs -> float_of v = inr x ->
    Dict.get (Str.strip k) cleaned = Some x.

(** C4, as stated, fails: in the object [{" a": 1, "a": 2}] both values are
    numbers, the two keys strip to ["a"], and the result holds the second
    value only. *)
Lemma load_entries_collision :
  exists cleaned,
    load_entries colliding_object [] = inr cleaned /\
    ~ keeps_every_accepted_entry colliding_object cleaned.
Proof.
  exists [("a", 2%float)]. split.
  - vm_compute. reflexivity.
  - intros H.
    specialize (H " a" (JInt 1) 1%float).
    assert (E : Dict.get (Str.strip " a") [("a", 2%float)] = Some 2%float)
      by (vm_compute; reflexivity).
    rewrite E in H.
    assert (E2 : Some 2%float = Some 1%float).
    { apply H; [left; reflexivity | vm_compute; reflexivity]. }
    assert (Hne : 2%float <> 1%float) by (apply float_neq; vm_compute; reflexivity).
    apply Hne. congruence.
Qed.

(** C4, amended. For every object none of whose values is an integer too
    large for a float, the loader returns a catalog, and the catalog maps
    [name] to [x] exactly when the object has an entry with a string key
    that strips to [name] and a value that [float] turns into [x], and
    every later entry whose key strips to [name] is rejected by [float]:
    entries with a null key or a rejected value leave no trace, and of
    several accepted entries with one stripped name the last one wins. *)
Theorem load_entries_last_wins (kvs : list (key * json)) :
  no_overflow kvs ->
  exists cleaned,
    load_entries kvs [] = inr cleaned /\
    forall name x,
      Dict.get name cleaned = Some x <->
      exists l1 k v l2,
        kvs = l1 ++ (KStr k, v) :: l2 /\
        Str.strip k = name /\
        float_of v = inr x /\
        forall k' v', In (KStr k', v') l2 -> Str.strip k' = name ->
                      exists e, float_of v' = inl e.
Proof.
  intros Hno.
  destruct (load_entries_returns kvs Hno []) as [cleaned Hc].
  exists cleaned. split; [exact Hc |].
  intros name x.
  rewrite (load_entries_get kvs [] cleaned Hc name).
  rewrite <- last_accepted_split.
  destruct (last_accepted name kvs); simpl; split; intros H; auto; discriminate.
Qed.

Definition mixed_object : list (key * json) :=
  [(KStr " Dagger ", JInt 2);
   (KNone, JInt 9);
   (KStr "Rope", JNull);
   (KStr "Dagger", JStr "oops");
   (KStr "Longsword", JFloat 15%float)].

Lemma load_entries_last_wins_witness :
  exists cleaned,
    load_entries mixed_object [] = inr cleaned /\
    forall name x,
      Dict.get name cleaned = Some x <->
      exists l1 k v l2,
        mixed_object = l1 ++ (KStr k, v) :: l2 /\
        Str.strip k = name /\
        float_of v = inr x /\
        forall k' v', In (KStr k', v') l2 -> Str.strip k' = name ->
                      exists e, float_of v' = inl e.
Proof.
  apply (load_entries_last_wins mixed_object).
  intros k v Hin.
  unfold mixed_object in Hin. simpl in Hin.
  repeat (destruct Hin as [Hin | Hin];
          [inversion Hin; subst; vm_compute; discriminate |]).
  contradiction.
Defined.

(** *** What counts as a number *)

Lemma load_entries_drop_rejected (l1 l2 : list (key * json)) (k : string)
  (v : json) (e : exn) :
  float_of v = inl e ->
  forall acc cleaned,
    load_entries (l1 ++ (KStr k, v) :: l2) acc = inr cleaned ->
    load_entries (l1 ++ l2) acc = inr cleaned.
Proof.
  intros Hv.
  induction l1 as [| [[| k1] v1] l1 IH]; intros acc cleaned H; simpl in *.
  - rewrite Hv in H.
    destruct (is_a e TypeError || is_a e ValueError)%bool; [exact H | discriminate].
  - apply IH. exact H.
  - destruct (float_of v1) as [e1 | p1].
    + destruct (is_a e1 TypeError || is_a e1 ValueError)%bool; [| discriminate].
      apply IH. exact H.
    + apply IH. exact H.
Qed.

Definition overwritten_object : list (key * json) :=
  [(KStr "x", JStr "3.5"); (KStr " x", JStr "inf")].

(** The reading of C10 that every entry whose value is a string [float]
    parses is in the result with the parsed value. *)
Definition keeps_every_numeric_string
  (kvs : list (key * json)) (cleaned : Dict.t float) : Prop :=
  forall k s x,
    In (KStr k, JStr s) kvs -> Flt.parse s = Some x ->
    Dict.get (Str.strip k) cleaned = Some x.

(** C10, as stated, fails: in [{"x": "3.5", " x": "inf"}] the first value is
    a string that parses to 3.5, yet the result maps ["x"] to infinity. *)
Lemma numeric_string_overwritten :
  exists cleaned,
    load_entries overwritten_object [] = inr cleaned /\
    ~ keeps_every_numeric_string overwritten_object cleaned.
Proof.
  exists [("x", infinity)]. split.
  - vm_compute. reflexivity.
  - intros H.
    assert (E2 : Dict.get (Str.strip "x") [("x", infinity)] = Some 3.5%float).
    { apply (H "x" "3.5" 3.5%float); [left; reflexivity | vm_compute; reflexivity]. }
    assert (Hne : infinity <> 3.5%float) by (apply float_neq; vm_compute; reflexivity).
    apply Hne. vm_compute in E2. congruence.
Qed.

(** C10, amended. Whether an entry counts is decided by [float], not by the
    shape of the JSON value. Whenever the loader returns a catalog for an
    object, an entry with a string key whose value [float] accepts is in the
    catalog under its stripped key with the coerced value, unless a later
    accepted entry has the same stripped key; an entry whose value [float]
    rejects is skipped, the catalog being that of the object without it.
    [float] accepts a string that parses as a float (such as "3.5", "inf"
    and "nan") with the parsed value, and [true] and [false] as 1.0 and
    0.0; it rejects null, lists, objects and strings that do not parse. *)
Theorem float_coercion_decides (l1 l2 : list (key * json)) (k : string)
  (v : json) (cleaned : Dict.t float) :
  load_entries (l1 ++ (KStr k, v) :: l2) [] = inr cleaned ->
  (forall x,
      float_of v = inr x ->
      (forall k' v', In (KStr k', v') l2 -> Str.strip k' = Str.strip k ->
                     exists e, float_of v' = inl e) ->
      Dict.get (Str.strip k) cleaned = Some x) /\
  (forall e, float_of v = inl e -> load_entries (l1 ++ l2) [] = inr cleaned) /\
  (forall s x, Flt.parse s = Some x -> float_of (JStr s) = inr x) /\
  (forall s, Flt.parse s = None -> float_of (JStr s) = inl ValueError) /\
  float_of (JBool true) = inr 1%float /\
  float_of (JBool false) = inr 0%float /\
  float_of JNull = inl TypeError /\
  (forall l, float_of (JList l) = inl TypeError) /\
  (forall d, float_of (JDict d) = inl TypeError) /\
  Flt.parse "3.5" = Some 3.5%float /\
  Flt.parse "inf" = Some infinity /\
  Flt.parse "nan" = Some nan.
Proof.
  intros H.
  split; [| split; [| split; [| split]]].
  - intros x Hx Hlater.
    rewrite (load_entries_get _ [] cleaned H (Str.strip k)).
    assert (Hl : last_accepted (Str.strip k) (l1 ++ (KStr k, v) :: l2) = Some x).
    { apply last_accepted_split. exists l1, k, v, l2. auto. }
    rewrite Hl. reflexivity.
  - intros e He. exact (load_entries_drop_rejected l1 l2 k v e He [] cleaned H).
  - intros s x Hs. simpl. unfold Flt.of_str. rewrite Hs. reflexivity.
  - intros s Hs. simpl. unfold Flt.of_str. rewrite Hs. reflexivity.
  - repeat split; vm_compute; reflexivity.
Qed.

Definition coerced_object_head : list (key * json) :=
  [(KStr "Rope", JNull)].

Definition coerced_object_tail : list (key * json) :=
  [(KStr "Shield", JBool true); (KStr "Torch", JList [])].

Lemma float_coercion_decides_witness :
  exists cleaned,
    load_entries
      (coerced_object_head ++ (KStr "Dagger ", JStr "3.5") :: coerced_object_tail) []
    = inr cleaned /\
    Dict.get "Dagger" cleaned = Some 3.5%float.
Proof.
  exists [("Dagger", 3.5%float); ("Shield", 1%float)].
  assert (H : load_entries
                (coerced_object_head ++ (KStr "Dagger ", JStr "3.5") :: coerced_object_tail) []
              = inr [("Dagger", 3.5%float); ("Shield", 1%float)])
    by (vm_compute; reflexivity).
  split; [exact H |].
  apply (proj1 (float_coercion_decides coerced_object_head coerced_object_tail
                  "Dagger " (JStr "3.5") _ H) 3.5%float).
  - vm_compute. reflexivity.
  - intros k' v' Hin Hk. exfalso.
    unfold coerced_object_tail in Hin. simpl in Hin.
    destruct Hin as [Hin | [Hin | []]]; inversion Hin; subst;
      vm_compute in Hk; discriminate.
Defined.

End Loader.

(** ** The filter *)

Module Filter.

(** The test of the loop of [_apply_filters]: a row is kept unless the
    query is not in its name, its price is below the minimum, or its price
    is above the maximum. *)
Definition keeps (name_query : string) (min_gp max_gp : option float)
  (it : string * float) : bool :=
  ((String.eqb name_query "" || Str.contains name_query (Str.lower (fst it))) &&
   match min_gp with
   | Some m => negb (snd it <? m)%float
   | None => true
   end &&
   match max_gp with
   | Some m => negb (m <? snd it)%float
   | None => true
   end)%bool.

(** The test in the words of the specification: price at least the minimum
    and at most the maximum. *)
Definition within (name_query : string) (min_gp max_gp : option float)
  (it : string * float) : bool :=
  ((String.eqb name_query "" || Str.contains name_query (Str.lower (fst it))) &&
   match min_gp with
   | Some m => (m <=? snd it)%float
   | None => true
   end &&
   match max_gp with
   | Some m => (snd it <=? m)%float
   | None => true
   end)%bool.

(** The rows the specification's sentence selects. *)
Definition selected_rows (a : App) : result (list (string * float)) :=
  min_gp <- parse_bound (Str.strip (min_var a)) (unit_var a) ;;
  max_gp <- parse_bound (Str.strip (max_var a)) (unit_var a) ;;
  ret (filter (within (Str.lower (Str.strip (name_var a))) min_gp max_gp) (items a)).

Definition bound_not_nan (b : option float) : Prop :=
  match b with
  | Some m => FloatOrder.not_nan m
  | None => True
  end.

Lemma filter_loop_spec (nq : string) (mn mx : option float)
  (its : list (string * float)) :
  forall acc, filter_loop nq mn mx its acc = acc ++ filter (keeps nq mn mx) its.
Proof.
  induction its as [| [name price] rest IH]; intros acc; simpl.
  - rewrite app_nil_r. reflexivity.
  - unfold keeps at 1. simpl.
    destruct (String.eqb nq "") eqn:Eq; simpl.
    + destruct mn as [m |]; simpl.
      * destruct (price <? m)%float; simpl; [apply IH |].
        destruct mx as [m' |]; simpl.
        -- destruct (m' <? price)%float; simpl; [apply IH |].
           rewrite IH, <- app_assoc. reflexivity.
        -- rewrite IH, <- app_assoc. reflexivity.
      * destruct mx as [m' |]; simpl.
        -- destruct (m' <? price)%float; simpl; [apply IH |].
           rewrite IH, <- app_assoc. reflexivity.
        -- rewrite IH, <- app_assoc. reflexivity.
    + destruct (Str.contains nq (Str.lower name)); simpl; [| apply IH].
      destruct mn as [m |]; simpl.
      * destruct (price <? m)%float; simpl; [apply IH |].
        destruct mx as [m' |]; simpl.
        -- destruct (m' <? price)%float; simpl; [apply IH |].
           rewrite IH, <- app_assoc. reflexivity.
        -- rewrite IH, <- app_assoc. reflexivity.
      * destruct mx as [m' |]; simpl.
        -- destruct (m' <? price)%float; simpl; [apply IH |].
           rewrite IH, <- app_assoc. reflexivity.
        -- rewrite IH, <- app_assoc. reflexivity.
Qed.

Lemma insert_rows_keeps (rows : list (string * float)) :
  forall a,
    filtered_items (fst (insert_rows rows a)) = filtered_items a /\
    dialogs (fst (insert_rows rows a)) = dialogs a /\
    items (fst (insert_rows rows a)) = items a.
Proof.
  induction rows as [| [name gp_value] rest IH]; intros a; simpl.
  - auto.
  - destruct (row_values name gp_value) as [e | vals]; simpl.
    + auto.
    + destruct (IH (with_tree (tree a ++ [(tree_next a, vals)]) (S (tree_next a)) a))
        as (H1 & H2 & H3).
      rewrite H1, H2, H3. auto.
Qed.

Lemma refresh_table_keeps (rows : list (string * float)) (a : App) :
  filtered_items (fst (_refresh_table rows a)) = filtered_items a /\
  dialogs (fst (_refresh_table rows a)) = dialogs a /\
  items (fst (_refresh_table rows a)) = items a.
Proof.
  unfold _refresh_table.
  destruct (insert_rows_keeps rows (with_tree [] (tree_next a) a)) as (H1 & H2 & H3).
  rewrite H1, H2, H3. auto.
Qed.

(** What [parse_bound] returns: nothing for an empty field, the parsed
    amount times the rate of the unit otherwise. *)
Lemma parse_bound_spec (s unit : string) (b : option float) :
  parse_bound s unit = inr b <->
  (s = "" /\ b = None) \/
  (s <> "" /\ exists x, Flt.parse s = Some x /\
                        exists g, to_gp x unit = inr g /\ b = Some g).
Proof.
  unfold parse_bound.
  destruct (String.eqb s "") eqn:E; simpl.
  - apply String.eqb_eq in E. subst s. split.
    + intros H. inversion H. left. auto.
    + intros [[_ ->] | [H _]]; [reflexivity | contradiction].
  - apply String.eqb_neq in E. unfold Flt.of_str.
    destruct (Flt.parse s) as [x |]; simpl.
    + destruct (to_gp x unit) as [e | g] eqn:Eg; simpl.
      * split; [discriminate |].
        intros [[H _] | (_ & x' & Hx & g & Hg & _)]; [contradiction |].
        inversion Hx; subst x'. rewrite Hg in Eg. discriminate.
      * split.
        -- intros H. inversion H. right. split; [exact E |].
           exists x. split; [reflexivity |]. exists g. auto.
        -- intros [[H _] | (_ & x' & Hx & g' & Hg & ->)]; [contradiction |].
           inversion Hx; subst x'. rewrite Hg in Eg. inversion Eg. reflexivity.
    + split; [discriminate |].
      intros [[H _] | (_ & x' & Hx & _)]; [contradiction | discriminate].
Qed.

Lemma keeps_within (nq : string) (mn mx : option float) (it : string * float) :
  FloatOrder.not_nan (snd it) -> bound_not_nan mn -> bound_not_nan mx ->
  keeps nq mn mx it = within nq mn mx it.
Proof.
  intros Hp Hmn Hmx. unfold keeps, within.
  destruct mn as [m |], mx as [m' |]; simpl in *;
    repeat rewrite FloatOrder.leb_negb_ltb by assumption; reflexivity.
Qed.

Definition sample_app (name_q min_s max_s unit : string) : App :=
  mkApp "/data" [] ["All files"] "All files" "All files"
    [("Dagger", 2%float); ("Longsword", 15%float)] []
    name_q min_s max_s unit [] 0 [] [].

(** C1, as stated, fails: with "nan" typed as the minimum every price
    passes the test [price < min], so both rows are shown, while no price is
    at least NaN. *)
Lemma filter_nan_minimum :
  selected_rows (sample_app "" "nan" "" "gp") <>
  inr (filtered_items (fst (_apply_filters (sample_app "" "nan" "" "gp")))).
Proof.
  intros H. vm_compute in H. discriminate.
Qed.

(** C1, amended. When the minimum and maximum fields are empty or parse,
    the filter outputs exactly the rows of the catalog, in the catalog's
    order, for which: the stripped, lowercased query is empty or occurs in
    the lowercased name; there is no minimum or the price is not below the
    minimum converted to base units; there is no maximum or the price is not
    above the converted maximum. When neither the price nor a bound is NaN
    these are the tests "price >= min" and "price <= max". *)
Theorem filter_exact (a : App) (min_gp max_gp : option float) :
  parse_bound (Str.strip (min_var a)) (unit_var a) = inr min_gp ->
  parse_bound (Str.strip (max_var a)) (unit_var a) = inr max_gp ->
  filtered_items (fst (_apply_filters a)) =
    filter (keeps (Str.lower (Str.strip (name_var a))) min_gp max_gp) (items a) /\
  (forall it,
      In it (filtered_items (fst (_apply_filters a))) <->
      In it (items a) /\
      keeps (Str.lower (Str.strip (name_var a))) min_gp max_gp it = true) /\
  (forall it,
      FloatOrder.not_nan (snd it) -> bound_not_nan min_gp -> bound_not_nan max_gp ->
      keeps (Str.lower (Str.strip (name_var a))) min_gp max_gp it =
      within (Str.lower (Str.strip (name_var a))) min_gp max_gp it).
Proof.
  intros Hmin Hmax.
  assert (E : filtered_items (fst (_apply_filters a)) =
              filter (keeps (Str.lower (Str.strip (name_var a))) min_gp max_gp) (items a)).
  { unfold _apply_filters. rewrite Hmin, Hmax. simpl.
    destruct (refresh_table_keeps
                (filter_loop (Str.lower (Str.strip (name_var a))) min_gp max_gp (items a) [])
                (with_filtered
                   (filter_loop (Str.lower (Str.strip (name_var a))) min_gp max_gp (items a) [])
                   a)) as (H1 & _).
    rewrite H1. simpl. rewrite filter_loop_spec. reflexivity. }
  split; [exact E | split].
  - intros it. rewrite E. apply filter_In.
  - intros it. apply keeps_within.
Qed.

Lemma filter_exact_witness :
  filtered_items (fst (_apply_filters (sample_app " DAG " "1" "10" "gp"))) =
  [("Dagger", 2%float)].
Proof.
  assert (Hmin : parse_bound (Str.strip (min_var (sample_app " DAG " "1" "10" "gp")))
                   (unit_var (sample_app " DAG " "1" "10" "gp")) = inr (Some 1%float))
    by (vm_compute; reflexivity).
  assert (Hmax : parse_bound (Str.strip (max_var (sample_app " DAG " "1" "10" "gp")))
                   (unit_var (sample_app " DAG " "1" "10" "gp")) = inr (Some 10%float))
    by (vm_compute; reflexivity).
  rewrite (proj1 (filter_exact (sample_app " DAG " "1" "10" "gp") _ _ Hmin Hmax)).
  vm_compute. reflexivity.
Defined.

(** *** Invalid ranges *)

(** A field that is not empty and that [float] rejects. *)
Definition unparsable (s : string) : bool :=
  (negb (String.eqb s "") &&
   match Flt.parse s with
   | None => true
   | Some _ => false
   end)%bool.

Definition invalid_range (a : App) : bool :=
  (unparsable (Str.strip (min_var a)) || unparsable (Str.strip (max_var a)))%bool.

(** The "Invalid Range" warning was shown between [a] and [a']. *)
Definition warned (a a' : App) : Prop :=
  dialogs a' = dialogs a ++ [("Invalid Range", "Min/Max must be numbers.")].

(** C5, as stated, fails: a minimum field holding one blank is not empty
    and is not a number, yet the filter runs without a warning. *)
Lemma blank_minimum_is_accepted :
  ~ (warned (sample_app "" " " "" "gp")
       (fst (_apply_filters (sample_app "" " " "" "gp"))) <->
     (unparsable (min_var (sample_app "" " " "" "gp")) ||
      unparsable (max_var (sample_app "" " " "" "gp")))%bool = true).
Proof.
  intros [_ H].
  assert (W : warned (sample_app "" " " "" "gp")
                (fst (_apply_filters (sample_app "" " " "" "gp"))))
    by (apply H; vm_compute; reflexivity).
  unfold warned in W. vm_compute in W. discriminate.
Qed.

Lemma unit_rate (unit : string) :
  In unit UNITS -> exists r, Dict.get unit UNIT_TO_GP = Some r.
Proof.
  unfold UNITS. simpl.
  intros [<- | [<- | [<- | [<- | [<- | []]]]]]; eexists; reflexivity.
Qed.

Lemma parse_bound_cases (s unit : string) :
  In unit UNITS ->
  (unparsable s = true /\ parse_bound s unit = inl ValueError) \/
  (unparsable s = false /\ exists b, parse_bound s unit = inr b).
Proof.
  intros Hu. destruct (unit_rate unit Hu) as [r Hr].
  unfold unparsable, parse_bound, Flt.of_str, to_gp, subscript.
  destruct (String.eqb s "").
  - right. split; [reflexivity | eexists; reflexivity].
  - destruct (Flt.parse s) as [x |]; unfold bind, ret, raise.
    + rewrite Hr. right. split; [reflexivity | eexists; reflexivity].
    + left. split; reflexivity.
Qed.

Lemma list_neq_app_one {A : Type} (l : list A) (x : A) : l <> l ++ [x].
Proof.
  intros H. apply (f_equal (@List.length A)) in H.
  rewrite length_app in H. simpl in H. lia.
Qed.

(** C5, amended. For a unit of the menu, the filter shows the "Invalid
    Range" warning if and only if the minimum or the maximum field, with
    surrounding white space stripped, is not empty and is rejected by
    [float]; in that case nothing but the warning changes: the filtered
    list and the rows of the table stay as they were. *)
Theorem invalid_range_iff (a : App) :
  In (unit_var a) UNITS ->
  (warned a (fst (_apply_filters a)) <-> invalid_range a = true) /\
  (invalid_range a = true ->
   _apply_filters a =
     (showwarning "Invalid Range" "Min/Max must be numbers." a, inr tt) /\
   filtered_items (fst (_apply_filters a)) = filtered_items a /\
   tree (fst (_apply_filters a)) = tree a /\
   items (fst (_apply_filters a)) = items a).
Proof.
  intros Hu.
  assert (Hbad : invalid_range a = true ->
                 _apply_filters a =
                 (showwarning "Invalid Range" "Min/Max must be numbers." a, inr tt)).
  { unfold invalid_range, _apply_filters. intros Hb.
    destruct (parse_bound_cases (Str.strip (min_var a)) (unit_var a) Hu)
      as [[Hm ->] | [Hm [b ->]]]; simpl.
    - reflexivity.
    - rewrite Hm in Hb. simpl in Hb.
      destruct (parse_bound_cases (Str.strip (max_var a)) (unit_var a) Hu)
        as [[Hx ->] | [Hx [b' ->]]]; simpl.
      + reflexivity.
      + rewrite Hx in Hb. discriminate. }
  assert (Hgood : invalid_range a = false ->
                  dialogs (fst (_apply_filters a)) = dialogs a).
  { unfold invalid_range, _apply_filters. intros Hb.
    apply orb_false_iff in Hb. destruct Hb as [Hm Hx].
    destruct (parse_bound_cases (Str.strip (min_var a)) (unit_var a) Hu)
      as [[Hm' _] | [_ [b ->]]]; [rewrite Hm in Hm'; discriminate |].
    destruct (parse_bound_cases (Str.strip (max_var a)) (unit_var a) Hu)
      as [[Hx' _] | [_ [b' ->]]]; [rewrite Hx in Hx'; discriminate |].
    simpl.
    match goal with
    | |- dialogs (fst (_refresh_table ?r ?s)) = _ =>
        destruct (refresh_table_keeps r s) as (_ & H2 & _); rewrite H2
    end.
    reflexivity. }
  split.
  - unfold warned. split.
    + intros W. destruct (invalid_range a) eqn:E; [reflexivity |].
      rewrite (Hgood eq_refl) in W. exfalso. exact (list_neq_app_one _ _ W).
    + intros Hb. rewrite (Hbad Hb). reflexivity.
  - intros Hb. rewrite (Hbad Hb). simpl. auto.
Qed.

Lemma invalid_range_iff_witness :
  warned (sample_app "" "1" "ten" "sp")
    (fst (_apply_filters (sample_app "" "1" "ten" "sp"))).
Proof.
  assert (Hu : In (unit_var (sample_app "" "1" "ten" "sp")) UNITS)
    by (simpl; auto 10).
  apply (proj1 (invalid_range_iff (sample_app "" "1" "ten" "sp") Hu)).
  vm_compute. reflexivity.
Defined.

End Filter.

(** ** Importing a file *)

Module Importing.

Lemma list_of_append (s1 s2 : string) :
  list_ascii_of_string (s1 ++ s2)%string =
  list_ascii_of_string s1 ++ list_ascii_of_string s2.
Proof.
  induction s1 as [| c s1 IH]; simpl; [reflexivity | rewrite IH; reflexivity].
Qed.

Lemma list_of_string_inj (s1 s2 : string) :
  list_ascii_of_string s1 = list_ascii_of_string s2 -> s1 = s2.
Proof.
  intros H.
  rewrite <- (string_of_list_ascii_of_string s1),
          <- (string_of_list_ascii_of_string s2), H.
  reflexivity.
Qed.

Lemma append_cancel_l (p s1 s2 : string) :
  (p ++ s1)%string = (p ++ s2)%string -> s1 = s2.
Proof.
  induction p as [| c p IH]; simpl; intros H; [exact H |].
  inversion H. auto.
Qed.

Lemma append_cancel_r (s1 s2 e : string) :
  (s1 ++ e)%string = (s2 ++ e)%string -> s1 = s2.
Proof.
  intros H. apply list_of_string_inj.
  apply (f_equal list_ascii_of_string) in H.
  rewrite !list_of_append in H.
  exact (app_inv_tail _ _ _ H).
Qed.

(** The decimal text of a positive integer determines it. *)
Lemma of_Z_inj (i j : Z) : 0 < i -> 0 < j -> Str.of_Z i = Str.of_Z j -> i = j.
Proof.
  intros Hi Hj H.
  destruct i as [| p | p]; try lia. destruct j as [| q | q]; try lia.
  unfold Str.of_Z in H. simpl in H.
  apply (f_equal NilZero.uint_of_string) in H.
  rewrite !NilZero.usu in H
    by (apply DecimalPos.Unsigned.to_uint_nonnil).
  inversion H as [H1].
  apply DecimalPos.Unsigned.to_uint_inj in H1. congruence.
Qed.

Lemma startswith_head (b r1 r2 : string) (c : ascii) :
  Str.startswith (b ++ String c r1) "/" = Str.startswith (b ++ String c r2) "/".
Proof.
  assert (He : forall s, Str.startswith s "" = true) by (intros []; reflexivity).
  destruct b as [| x b]; cbn [Str.startswith append]; rewrite ?He; reflexivity.
Qed.

Section Candidates.
Variables (fs : FS) (folder filename base ext : string).

(** The names the loop tries: the file name itself, then the numbered
    ones. *)
Definition candidate (j : nat) : string :=
  match j with
  | O => filename
  | S _ => (base ++ "_" ++ Str.of_Z (Z.of_nat j) ++ ext)%string
  end.

Definition taken (j : nat) : bool := Fs.exists_ fs (Path.join folder (candidate j)).

Lemma dedupe_loop_spec (fuel : nat) :
  forall s,
    (exists k, (s <= k < s + fuel)%nat /\ taken k = false) ->
    exists k,
      (s <= k < s + fuel)%nat /\
      dedupe_loop fuel fs folder base ext (candidate s) (Z.of_nat s + 1) =
        Some (candidate k) /\
      taken k = false /\
      forall j, (s <= j < k)%nat -> taken j = true.
Proof.
  induction fuel as [| fuel IH]; intros s (k & Hk & Hfree).
  - lia.
  - simpl. fold (taken s).
    destruct (taken s) eqn:Es.
    + assert (Hk' : (S s <= k < S s + fuel)%nat).
      { destruct (Nat.eq_dec k s) as [-> | Hne]; [congruence | lia]. }
      destruct (IH (S s) (ex_intro _ k (conj Hk' Hfree)))
        as (k1 & Hk1 & Hloop & Hfree1 & Hbefore).
      exists k1. split; [lia |]. split.
      * replace (Z.of_nat s + 1 + 1) with (Z.of_nat (S s) + 1) by lia.
        replace (Z.of_nat s + 1) with (Z.of_nat (S s)) by lia.
        exact Hloop.
      * split; [exact Hfree1 |].
        intros j Hj. destruct (Nat.eq_dec j s) as [-> | Hne]; [exact Es |].
        apply Hbefore. lia.
    + exists s. split; [lia |]. split; [reflexivity |]. split; [exact Es |].
      intros j Hj. lia.
Qed.

Lemma join_candidate_inj (i j : nat) :
  (0 < i)%nat -> (0 < j)%nat ->
  Path.join folder (candidate i) = Path.join folder (candidate j) -> i = j.
Proof.
  intros Hi Hj H.
  destruct i as [| i]; [lia |]. destruct j as [| j]; [lia |].
  assert (Hc : candidate (S i) = candidate (S j)).
  { unfold Path.join in H. unfold candidate in *.
    change (base ++ "_" ++ Str.of_Z (Z.of_nat (S i)) ++ ext)%string
      with (base ++ String "_" (Str.of_Z (Z.of_nat (S i)) ++ ext))%string in H.
    change (base ++ "_" ++ Str.of_Z (Z.of_nat (S j)) ++ ext)%string
      with (base ++ String "_" (Str.of_Z (Z.of_nat (S j)) ++ ext))%string in H.
    rewrite (startswith_head base _ EmptyString "_") in H.
    rewrite (startswith_head base (Str.of_Z (Z.of_nat (S j)) ++ ext) EmptyString "_") in H.
    destruct (Str.startswith (base ++ "_") "/"); [exact H |].
    destruct (String.eqb folder "" || Str.endswith folder "/")%bool.
    - exact (append_cancel_l _ _ _ H).
    - apply append_cancel_l in H. exact (append_cancel_l "/" _ _ H). }
  unfold candidate in Hc.
  apply append_cancel_l in Hc. inversion Hc as [Hc'].
  apply append_cancel_r in Hc'.
  apply of_Z_inj in Hc'; lia.
Qed.

Lemma exists_In (p : string) : Fs.exists_ fs p = true -> In p (map fst fs).
Proof.
  unfold Fs.exists_. induction fs as [| [p' n] rest IH]; simpl.
  - discriminate.
  - destruct (String.eqb p p') eqn:E.
    + apply String.eqb_eq in E. auto.
    + intros H. right. apply IH. exact H.
Qed.

Lemma forallb_false_ex {A : Type} (f : A -> bool) (l : list A) :
  forallb f l = false -> exists x, In x l /\ f x = false.
Proof.
  induction l as [| x l IH]; simpl; [discriminate |].
  destruct (f x) eqn:E; simpl.
  - intros H. destruct (IH H) as (y & Hy & Hf). exists y. auto.
  - intros _. exists x. auto.
Qed.

(** Among the first [length fs + 1] numbered names one is free. *)
Lemma some_candidate_free :
  exists k, (1 <= k < 2 + List.length fs)%nat /\ taken k = false.
Proof.
  destruct (forallb taken (seq 1 (S (List.length fs)))) eqn:E.
  - exfalso.
    rewrite forallb_forall in E.
    assert (Hnd : NoDup (map (fun j => Path.join folder (candidate j))
                           (seq 1 (S (List.length fs))))).
    { apply NoDup_map_NoDup_ForallPairs; [| apply seq_NoDup].
      intros i j Hi Hj Hij. apply in_seq in Hi. apply in_seq in Hj.
      apply join_candidate_inj; [lia | lia | exact Hij]. }
    assert (Hincl : incl (map (fun j => Path.join folder (candidate j))
                            (seq 1 (S (List.length fs)))) (map fst fs)).
    { intros p Hp. apply in_map_iff in Hp. destruct Hp as (j & <- & Hj).
      apply exists_In. exact (E j Hj). }
    pose proof (NoDup_incl_length Hnd Hincl) as Hlen.
    rewrite !length_map, length_seq in Hlen. lia.
  - destruct (forallb_false_ex _ _ E) as (k & Hk & Hf).
    apply in_seq in Hk. exists k. split; [lia | exact Hf].
Qed.

End Candidates.

(** The name under which [src_path] is imported when it is free. *)
Definition import_name (src_path : string) : string :=
  if Str.endswith (Str.lower (Path.basename src_path)) ".json"
  then Path.basename src_path
  else (Path.basename src_path ++ ".json")%string.

(** [filename] with [_i] before its extension. *)
Definition numbered (filename : string) (i : Z) : string :=
  (fst (Path.splitext filename) ++ "_" ++ Str.of_Z i ++
   snd (Path.splitext filename))%string.

Lemma dedupe_filename_spec (fs : FS) (folder filename : string) :
  exists name,
    dedupe_filename fs folder filename = Some name /\
    Fs.exists_ fs (Path.join folder name) = false /\
    ((Fs.exists_ fs (Path.join folder filename) = false /\ name = filename) \/
     (Fs.exists_ fs (Path.join folder filename) = true /\
      exists i, 1 <= i /\ name = numbered filename i /\
                forall j, 1 <= j < i ->
                          Fs.exists_ fs (Path.join folder (numbered filename j)) = true)).
Proof.
  unfold dedupe_filename, numbered.
  destruct (Path.splitext filename) as [base ext]. simpl.
  destruct (some_candidate_free fs folder filename base ext) as (k0 & Hk0 & Hfree0).
  destruct (dedupe_loop_spec fs folder filename base ext (S (S (List.length fs))) 0)
    as (k & Hk & Hloop & Hfree & Hbefore).
  { exists k0. split; [lia | exact Hfree0]. }
  exists (candidate filename base ext k).
  split; [exact Hloop |]. split; [exact Hfree |].
  destruct k as [| k].
  - left. split; [exact Hfree | reflexivity].
  - right. split.
    + apply (Hbefore 0%nat). lia.
    + exists (Z.of_nat (S k)). split; [lia |]. split; [reflexivity |].
      intros j Hj.
      specialize (Hbefore (Z.to_nat j)).
      unfold taken, candidate in Hbefore.
      destruct (Z.to_nat j) as [| j'] eqn:Ej; [lia |].
      rewrite <- Ej, Z2Nat.id in Hbefore by lia.
      apply Hbefore. lia.
Qed.

(** [copy2] to a path that does not exist. *)
Lemma copy2_fresh (fs : FS) (src dst : string) :
  Fs.exists_ fs dst = false ->
  Fs.copy2 fs src dst =
  match Fs.lookup src fs with
  | Some (File true c) =>
      _ <- Fs.create fs dst ;; ret (fs ++ [(dst, File true c)])
  | Some (File false _) | Some Dir => raise OSError
  | None => raise FileNotFoundError
  end.
Proof.
  intros Hdst. unfold Fs.copy2, Fs.isdir.
  assert (Hnone : Fs.lookup dst fs = None).
  { unfold Fs.exists_ in Hdst. destruct (Fs.lookup dst fs); [discriminate | reflexivity]. }
  rewrite Hnone.
  assert (Hsame : (String.eqb src dst && Fs.exists_ fs src)%bool = false).
  { destruct (String.eqb src dst) eqn:E; [| reflexivity].
    apply String.eqb_eq in E. subst dst. rewrite Hdst. reflexivity. }
  rewrite Hsame, Hnone. reflexivity.
Qed.

Lemma lookup_copy2 (fs fs' : FS) (src dst : string) (c : content) :
  Fs.lookup src fs = Some (File true c) ->
  Fs.exists_ fs dst = false ->
  Fs.copy2 fs src dst = inr fs' ->
  Fs.lookup dst fs' = Some (File true c).
Proof.
  intros Hsrc Hdst. rewrite (copy2_fresh fs src dst Hdst), Hsrc.
  unfold bind. destruct (Fs.create fs dst) as [e | u]; [discriminate |].
  intros H. inversion H; subst fs'. clear H.
  unfold Fs.exists_ in Hdst.
  induction fs as [| [p n] rest IH]; simpl in *.
  - rewrite String.eqb_refl. reflexivity.
  - destruct (String.eqb dst p) eqn:E.
    + discriminate.
    + destruct (String.eqb src p) eqn:E2.
      * clear IH.
        induction rest as [| [p' n'] rest IH]; simpl in *.
        -- rewrite String.eqb_refl. reflexivity.
        -- destruct (String.eqb dst p'); [discriminate | apply IH; exact Hdst].
      * apply IH; assumption.
Qed.

Definition crowded_fs : FS :=
  [("/data", Dir);
   ("/data/prices.json", File true (Json (JDict [(KStr "Dagger", JInt 2)])));
   ("/downloads/prices.json", File true (Json (JDict [(KStr "Rope", JInt 1)])));
   ("/downloads/notes", File true NotJson)].

End Importing.

(** ** Merging all sources *)

Module Merge.

(** The merge in the words of the specification: a left fold of the loader
    over the sources in sorted order, a source that fails to load being
    skipped. *)
Definition merge_sorted_sources (fs : FS) (folder : string) : Dict.t float :=
  fold_left
    (fun merged path =>
       match load_prices_json fs path with
       | inr data => Dict.update merged data
       | inl _ => merged
       end)
    (list_json_files fs folder) [].

(** The catalog the application holds after the folder is scanned with
    "All files" selected. *)
Definition all_files_catalog (fs : FS) (a : App) : Dict.t float :=
  items (_load_items_for_selection fs (_refresh_file_list fs (Some "All files") a)).

Definition stem (path : string) : string :=
  fst (Path.splitext (Path.basename path)).

Definition start_app (folder : string) : App :=
  mkApp folder [] ["All files"] "All files" "All files" [] [] "" "" "" "gp" [] 0 [] [].

Lemma merge_all_fold (fs : FS) (index : Dict.t string) :
  forall merged,
    merge_all fs index merged =
    fold_left
      (fun merged path =>
         match load_prices_json fs path with
         | inr data => Dict.update merged data
         | inl _ => merged
         end)
      (map snd index) merged.
Proof.
  induction index as [| [name path] rest IH]; intros merged; simpl.
  - reflexivity.
  - destruct (load_prices_json fs path); apply IH.
Qed.

Lemma set_fresh {V : Type} (k : string) (v : V) (d : Dict.t V) :
  ~ In k (Dict.keys d) -> Dict.set k v d = d ++ [(k, v)].
Proof.
  induction d as [| [k' v'] d IH]; simpl; intros H.
  - reflexivity.
  - destruct (String.eqb k k') eqn:E.
    + apply String.eqb_eq in E. subst k'. exfalso. apply H. left. reflexivity.
    + rewrite IH; [reflexivity |]. intros Hin. apply H. right. exact Hin.
Qed.

Lemma index_paths_distinct (paths : list string) :
  forall acc : Dict.t string,
    NoDup (Dict.keys acc ++ map stem paths) ->
    fold_left
      (fun ix p => Dict.set (fst (Path.splitext (Path.basename p))) p ix)
      paths acc =
    acc ++ map (fun p => (stem p, p)) paths.
Proof.
  induction paths as [| p rest IH]; intros acc Hnd; simpl.
  - rewrite app_nil_r. reflexivity.
  - assert (Hfresh : ~ In (stem p) (Dict.keys acc)).
    { intros Hin. simpl in Hnd.
      apply NoDup_remove_2 in Hnd. apply Hnd.
      apply in_or_app. left. exact Hin. }
    fold (stem p). rewrite (set_fresh _ _ _ Hfresh).
    rewrite IH.
    + rewrite <- app_assoc. reflexivity.
    + unfold Dict.keys in *. rewrite map_app. simpl.
      rewrite <- app_assoc. simpl. exact Hnd.
Qed.

(** When no two listed files share a stem, the catalog for "All files" is
    the fold of the loader over the sorted sources. *)
Lemma all_files_is_fold_when_stems_distinct (fs : FS) (a : App) :
  NoDup (map stem (list_json_files fs (json_dir a))) ->
  all_files_catalog fs a = merge_sorted_sources fs (json_dir a).
Proof.
  intros Hnd.
  unfold all_files_catalog, merge_sorted_sources, _load_items_for_selection,
    _refresh_file_list.
  simpl. rewrite merge_all_fold.
  unfold index_paths. rewrite index_paths_distinct by exact Hnd.
  simpl. rewrite map_map. simpl. rewrite map_id. reflexivity.
Qed.

(** Three sources that all define "Sword"; [a.JSON] and [a.json] share the
    stem [a]. *)
Definition twin_fs : FS :=
  [("/data", Dir);
   ("/data/a.json", File true (Json (JDict [(KStr "Sword", JInt 3)])));
   ("/data/a.b.json", File true (Json (JDict [(KStr "Sword", JInt 2)])));
   ("/data/a.JSON",
    File true (Json (JDict [(KStr "Sword", JInt 1); (KStr "Shield", JInt 9)])))].

(** C6 on the folder [a.JSON], [a.b.json], [a.json] (in sorted order). The
    fold over the sorted sources gives "Sword" the value 3 of [a.json], the
    last source, and keeps the "Shield" of [a.JSON]; the application indexes
    the sources by stem, so [a.json] takes the place of [a.JSON] in the
    index, [a.JSON] is never loaded, and [a.b.json] is merged last. *)
Theorem stem_collision_breaks_the_merge :
  list_json_files twin_fs "/data" = ["/data/a.JSON"; "/data/a.b.json"; "/data/a.json"] /\
  merge_sorted_sources twin_fs "/data" = [("Sword", 3%float); ("Shield", 9%float)] /\
  file_index (_refresh_file_list twin_fs (Some "All files") (start_app "/data")) =
    [("a", "/data/a.json"); ("a.b", "/data/a.b.json")] /\
  all_files_catalog twin_fs (start_app "/data") = [("Sword", 2%float)].
Proof.
  repeat split; vm_compute; reflexivity.
Qed.

End Merge.

(** ** Sorting *)

Module SortFacts.

Section Generic.
Context {A K : Type}.
Variable lt : K -> K -> bool.
Variable key : A -> K.

(** The keys on which [lt] behaves as a strict weak order. *)
Variable good : K -> Prop.
Hypothesis lt_asym :
  forall a b, good a -> good b -> lt a b = true -> lt b a = false.
Hypothesis lt_negtrans :
  forall a b c, good a -> good b -> good c ->
                lt b a = false -> lt c b = false -> lt c a = false.

(** [x] may stand before [y]: [y] is not below [x]. *)
Definition may_precede (x y : A) : Prop := lt (key y) (key x) = false.

(** The rows whose key is neither below nor above [k]. *)
Definition same_key (k : K) (x : A) : bool :=
  (negb (lt k (key x)) && negb (lt (key x) k))%bool.

Lemma insert_perm (x : A) (l : list A) :
  Permutation (insert lt key x l) (x :: l).
Proof.
  induction l as [| y rest IH]; simpl.
  - apply Permutation_refl.
  - destruct (lt (key y) (key x)).
    + apply Permutation_trans with (y :: x :: rest).
      * apply perm_skip. exact IH.
      * apply perm_swap.
    + apply Permutation_refl.
Qed.

Lemma sort_asc_perm (l : list A) : Permutation (sort_asc lt key l) l.
Proof.
  induction l as [| x rest IH]; simpl.
  - apply perm_nil.
  - apply Permutation_trans with (x :: sort_asc lt key rest).
    + apply insert_perm.
    + apply perm_skip. exact IH.
Qed.

Lemma sort_by_perm (reverse : bool) (l : list A) :
  Permutation (sort_by lt key reverse l) l.
Proof.
  unfold sort_by. destruct reverse.
  - apply Permutation_trans with (sort_asc lt key (rev l)).
    + apply Permutation_sym, Permutation_rev.
    + apply Permutation_trans with (rev l).
      * apply sort_asc_perm.
      * apply Permutation_sym, Permutation_rev.
  - apply sort_asc_perm.
Qed.

Lemma insert_sorted (x : A) (l : list A) :
  good (key x) -> Forall (fun y => good (key y)) l ->
  StronglySorted may_precede l ->
  StronglySorted may_precede (insert lt key x l).
Proof.
  intros Hx Hl Hs.
  induction Hs as [| y rest Hs IH Hy]; simpl.
  - constructor; [constructor | constructor].
  - inversion Hl as [| ? ? Hgy Hgrest]; subst.
    destruct (lt (key y) (key x)) eqn:E.
    + constructor; [apply IH; exact Hgrest |].
      apply Forall_forall. intros z Hz.
      apply (Permutation_in _ (insert_perm x rest)) in Hz.
      destruct Hz as [<- | Hz].
      * unfold may_precede. apply lt_asym; assumption.
      * rewrite Forall_forall in Hy. apply Hy. exact Hz.
    + constructor; [constructor; assumption |].
      constructor; [exact E |].
      apply Forall_forall. intros z Hz.
      rewrite Forall_forall in Hy, Hgrest.
      unfold may_precede.
      apply (lt_negtrans (key x) (key y) (key z)); auto.
      apply Hy. exact Hz.
Qed.

Lemma sort_asc_sorted (l : list A) :
  Forall (fun y => good (key y)) l ->
  StronglySorted may_precede (sort_asc lt key l).
Proof.
  induction l as [| x rest IH]; intros Hl; simpl.
  - constructor.
  - inversion Hl; subst. apply insert_sorted; auto.
    apply Forall_forall. intros z Hz.
    apply (Permutation_in _ (sort_asc_perm rest)) in Hz.
    rewrite Forall_forall in H2. auto.
Qed.

Lemma filter_insert_out (p : A -> bool) (x : A) (l : list A) :
  p x = false -> filter p (insert lt key x l) = filter p l.
Proof.
  intros Hp. induction l as [| y rest IH]; simpl.
  - rewrite Hp. reflexivity.
  - destruct (lt (key y) (key x)); simpl.
    + rewrite IH. reflexivity.
    + rewrite Hp. reflexivity.
Qed.

Lemma filter_insert_in (k : K) (x : A) (l : list A) :
  good k -> good (key x) -> Forall (fun y => good (key y)) l ->
  same_key k x = true ->
  filter (same_key k) (insert lt key x l) = x :: filter (same_key k) l.
Proof.
  intros Hk Hx Hl Hp. induction l as [| y rest IH]; simpl.
  - rewrite Hp. reflexivity.
  - inversion Hl as [| ? ? Hgy Hgrest]; subst.
    destruct (lt (key y) (key x)) eqn:E; simpl.
    + destruct (same_key k y) eqn:Ey.
      * exfalso. unfold same_key in Hp, Ey.
        apply andb_true_iff in Hp. destruct Hp as [Hp1 Hp2].
        apply andb_true_iff in Ey. destruct Ey as [Ey1 Ey2].
        apply negb_true_iff in Hp1, Hp2, Ey1, Ey2.
        rewrite (lt_negtrans (key x) k (key y)) in E; auto. discriminate.
      * apply IH. exact Hgrest.
    + rewrite Hp. reflexivity.
Qed.

(** The sort is stable: the rows of one key keep their order. *)
Lemma sort_asc_stable (k : K) (l : list A) :
  good k -> Forall (fun y => good (key y)) l ->
  filter (same_key k) (sort_asc lt key l) = filter (same_key k) l.
Proof.
  intros Hk. induction l as [| x rest IH]; intros Hl; simpl.
  - reflexivity.
  - inversion Hl as [| ? ? Hgx Hgrest]; subst.
    assert (Hs : Forall (fun y => good (key y)) (sort_asc lt key rest)).
    { apply Forall_forall. intros z Hz.
      apply (Permutation_in _ (sort_asc_perm rest)) in Hz.
      rewrite Forall_forall in Hgrest. auto. }
    destruct (same_key k x) eqn:E.
    + rewrite filter_insert_in by assumption. rewrite IH by assumption. reflexivity.
    + rewrite filter_insert_out by assumption. apply IH. assumption.
Qed.

Lemma filter_rev (p : A -> bool) (l : list A) :
  filter p (rev l) = rev (filter p l).
Proof.
  induction l as [| x rest IH]; simpl.
  - reflexivity.
  - rewrite filter_app, IH. simpl. destruct (p x); simpl.
    + reflexivity.
    + rewrite app_nil_r. reflexivity.
Qed.

Lemma sort_by_stable (reverse : bool) (k : K) (l : list A) :
  good k -> Forall (fun y => good (key y)) l ->
  filter (same_key k) (sort_by lt key reverse l) = filter (same_key k) l.
Proof.
  intros Hk Hl. unfold sort_by. destruct reverse.
  - rewrite filter_rev, sort_asc_stable, filter_rev, rev_involutive; auto.
    apply Forall_forall. intros z Hz. apply in_rev in Hz.
    rewrite Forall_forall in Hl. auto.
  - apply sort_asc_stable; assumption.
Qed.

Lemma sorted_rev (R : A -> A -> Prop) (l : list A) :
  StronglySorted R l -> StronglySorted (fun x y => R y x) (rev l).
Proof.
  induction 1 as [| x rest Hs IH Hx]; simpl.
  - constructor.
  - assert (Happ : forall l1,
               StronglySorted (fun a b => R b a) l1 ->
               Forall (fun y => R x y) (rev l1) ->
               StronglySorted (fun a b => R b a) (l1 ++ [x])).
    { induction l1 as [| z l1 IH1]; intros Hs1 Hf; simpl.
      - constructor; constructor.
      - inversion Hs1; subst.
        simpl in Hf. apply Forall_app in Hf. destruct Hf as [Hf1 Hf2].
        constructor; [apply IH1; assumption |].
        apply Forall_app. split; [assumption |].
        constructor; [| constructor]. inversion Hf2; assumption. }
    apply Happ; [exact IH |].
    rewrite rev_involutive. exact Hx.
Qed.

(** Ascending: no row is below an earlier one. Descending: no row is
    above an earlier one. *)
Lemma sort_by_sorted (reverse : bool) (l : list A) :
  Forall (fun y => good (key y)) l ->
  StronglySorted
    (fun x y => if reverse then lt (key x) (key y) = false
                else lt (key y) (key x) = false)
    (sort_by lt key reverse l).
Proof.
  intros Hl. unfold sort_by. destruct reverse.
  - apply (sorted_rev may_precede). apply sort_asc_sorted.
    apply Forall_forall. intros z Hz. apply in_rev in Hz.
    rewrite Forall_forall in Hl. auto.
  - apply sort_asc_sorted. exact Hl.
Qed.

End Generic.

End SortFacts.

(** ** Sorting the table *)

Module TableSort.

Abbreviation row := (nat * list string)%type.

Lemma find_app_later (x : nat) (D R : list row) :
  ~ In x (map fst D) ->
  find (fun c => Nat.eqb (fst c) x) (D ++ R) = find (fun c => Nat.eqb (fst c) x) R.
Proof.
  induction D as [| d D IH]; simpl; intros H.
  - reflexivity.
  - destruct (Nat.eqb (fst d) x) eqn:E.
    + apply Nat.eqb_eq in E. exfalso. apply H. left. exact E.
    + apply IH. intros Hin. apply H. right. exact Hin.
Qed.

Lemma filter_others_id (x : nat) (D : list row) :
  ~ In x (map fst D) ->
  filter (fun c => negb (Nat.eqb (fst c) x)) D = D.
Proof.
  induction D as [| d D IH]; simpl; intros H.
  - reflexivity.
  - destruct (Nat.eqb (fst d) x) eqn:E; simpl.
    + apply Nat.eqb_eq in E. exfalso. apply H. left. exact E.
    + rewrite IH; [reflexivity |]. intros Hin. apply H. right. exact Hin.
Qed.

Lemma firstn_skipn_exact {A : Type} (D X : list A) :
  firstn (List.length D) (D ++ X) = D /\ skipn (List.length D) (D ++ X) = X.
Proof.
  induction D as [| d D [IH1 IH2]]; simpl.
  - split; reflexivity.
  - rewrite IH1, IH2. split; reflexivity.
Qed.

Lemma find_child (x : nat) (R : list row) :
  In x (map fst R) ->
  exists c, find (fun c => Nat.eqb (fst c) x) R = Some c /\ fst c = x /\ In c R.
Proof.
  induction R as [| r R IH]; simpl; intros H.
  - contradiction.
  - destruct (Nat.eqb (fst r) x) eqn:E.
    + apply Nat.eqb_eq in E. exists r. auto.
    + destruct H as [H | H]; [apply Nat.eqb_neq in E; contradiction |].
      destruct (IH H) as (c & Hc & Hx & Hin). exists c. auto.
Qed.

Lemma perm_extract (x : nat) (R : list row) (c : row) :
  NoDup (map fst R) ->
  find (fun c => Nat.eqb (fst c) x) R = Some c ->
  Permutation R (c :: filter (fun c => negb (Nat.eqb (fst c) x)) R).
Proof.
  induction R as [| r R IH]; simpl; intros Hnd H.
  - discriminate.
  - inversion Hnd as [| ? ? Hnotin Hnd']; subst.
    destruct (Nat.eqb (fst r) x) eqn:E; simpl.
    + inversion H; subst c. apply Nat.eqb_eq in E.
      rewrite filter_others_id; [apply Permutation_refl |].
      rewrite <- E. exact Hnotin.
    + apply Permutation_trans
        with (r :: c :: filter (fun c => negb (Nat.eqb (fst c) x)) R).
      * apply perm_skip. apply IH; assumption.
      * apply perm_swap.
Qed.

Lemma tree_move_front (x : nat) (D R : list row) (c : row) :
  NoDup (map fst (D ++ R)) ->
  find (fun c => Nat.eqb (fst c) x) R = Some c ->
  tree_move x (List.length D) (D ++ R) =
  D ++ c :: filter (fun c => negb (Nat.eqb (fst c) x)) R.
Proof.
  intros Hnd Hc.
  assert (Hx : ~ In x (map fst D)).
  { intros Hin. rewrite map_app in Hnd.
    assert (HinR : In x (map fst R)).
    { apply find_some in Hc. destruct Hc as [Hin' E].
      apply Nat.eqb_eq in E. rewrite <- E. apply in_map. exact Hin'. }
    clear Hc. induction D as [| d D IH]; simpl in *; [contradiction |].
    inversion Hnd as [| ? ? Hn Hnd']; subst.
    destruct Hin as [Hd | Hin].
    - apply Hn. rewrite Hd. apply in_or_app. right. exact HinR.
    - apply IH; assumption. }
  unfold tree_move. rewrite (find_app_later x D R Hx), Hc.
  cbv beta iota zeta.
  rewrite filter_app, (filter_others_id x D Hx).
  destruct (firstn_skipn_exact D (filter (fun c => negb (Nat.eqb (fst c) x)) R))
    as [-> ->].
  reflexivity.
Qed.

(** Moving the rows to the positions 0, 1, ... in the order of [rows]
    leaves the children of the table in that order. *)
Lemma move_all_spec (rows : list (string * nat)) :
  forall D R : list row,
    NoDup (map fst (D ++ R)) ->
    NoDup (map snd rows) ->
    (forall x, In x (map snd rows) <-> In x (map fst R)) ->
    exists S,
      move_all rows (List.length D) (D ++ R) = D ++ S /\
      map fst S = map snd rows /\
      Permutation S R.
Proof.
  induction rows as [| [cell x] rest IH]; intros D R Hnd Hrows Hsame; simpl.
  - exists []. destruct R as [| r R].
    + repeat split; auto.
    + exfalso. apply (proj2 (Hsame (fst r))). left. reflexivity.
  - destruct (find_child x R) as (c & Hc & Hfst & HinR).
    { apply Hsame. left. reflexivity. }
    rewrite (tree_move_front x D R c Hnd Hc).
    set (R' := filter (fun c => negb (Nat.eqb (fst c) x)) R).
    assert (HndR : NoDup (map fst R)).
    { rewrite map_app in Hnd. apply NoDup_app_remove_l in Hnd. exact Hnd. }
    assert (Hperm : Permutation R (c :: R')) by (apply perm_extract; assumption).
    inversion Hrows as [| ? ? Hxrest Hrest]; subst.
    destruct (IH (D ++ [c]) R') as (S' & Hmove & Hmap & HpermS).
    + rewrite <- app_assoc. simpl.
      apply (Permutation_NoDup (l := map fst (D ++ R))); [| exact Hnd].
      apply Permutation_map, Permutation_app_head. exact Hperm.
    + exact Hrest.
    + intros y. split.
      * intros Hy.
        assert (HyR : In y (map fst R)) by (apply Hsame; right; exact Hy).
        apply in_map_iff in HyR. destruct HyR as (r & Hr & Hin).
        apply in_map_iff. exists r. split; [exact Hr |].
        apply filter_In. split; [exact Hin |].
        apply negb_true_iff, Nat.eqb_neq. intros E.
        apply Hxrest. simpl in E. congruence.
      * intros Hy. apply in_map_iff in Hy. destruct Hy as (r & Hr & Hin).
        apply filter_In in Hin. destruct Hin as [Hin Hne].
        apply negb_true_iff, Nat.eqb_neq in Hne.
        assert (Hy : In y (map snd ((cell, fst c) :: rest))).
        { apply Hsame. rewrite <- Hr. apply in_map. exact Hin. }
        destruct Hy as [Hy | Hy]; [simpl in Hy; congruence | exact Hy].
    + exists (c :: S').
      rewrite length_app in Hmove. simpl in Hmove.
      rewrite Nat.add_1_r in Hmove. rewrite <- !app_assoc in Hmove.
      simpl in Hmove. fold R'. rewrite Hmove.
      repeat split.
      * simpl. rewrite Hmap. reflexivity.
      * apply Permutation_trans with (c :: R').
        -- apply perm_skip. exact HpermS.
        -- apply Permutation_sym. exact Hperm.
Qed.

Lemma collect_rows_iids (col_key : string) (children : list row) :
  forall rows,
    collect_rows col_key children = inr rows ->
    map snd rows = map fst children.
Proof.
  induction children as [| [iid vals] rest IH]; intros rows H.
  - inversion H. reflexivity.
  - cbn [collect_rows] in H.
    destruct (subscript (combine columns vals) col_key) as [e | cell];
      [discriminate |].
    destruct (collect_rows col_key rest) as [e | rows']; [discriminate |].
    inversion H. simpl. rewrite (IH rows' eq_refl). reflexivity.
Qed.

(** The key of a row in a numeric column. *)
Definition num_key (r : string * nat) : float := to_num (fst r).

Definition keys_not_nan (rows : list (string * nat)) : Prop :=
  Forall (fun r => FloatOrder.not_nan (num_key r)) rows.

(** The cell of a child of the table in column [col_key]. *)
Definition cell (col_key : string) (c : row) : string :=
  match Dict.get col_key (combine columns (snd c)) with
  | Some s => s
  | None => ""
  end.

(** No row with a cell that parses stands after a row with a cell that
    does not. *)
Definition unparsable_last (col_key : string) (children : list row) : Prop :=
  forall l1 c1 l2 c2 l3,
    children = l1 ++ c1 :: l2 ++ c2 :: l3 ->
    Flt.parse (cell col_key c1) = None ->
    Flt.parse (cell col_key c2) = None.

Definition table_app (children : list row) : App :=
  mkApp "/data" [] ["All files"] "All files" "All files" [] []
    "" "" "" "gp" children (List.length children) [] [].

Definition odd_table : App :=
  table_app
    [(0%nat, ["Rope"; "?"; "?"; "?"; "?"; "?"]);
     (1%nat, ["Dagger"; "0.20"; "2"; "4"; "20"; "200"]);
     (2%nat, ["Longsword"; "1.50"; "15"; "30"; "150"; "1500"])].

(** C7, as stated, fails: sorted by [gp] in descending order, the row whose
    cell is not a number comes first, before the rows with 15 and 2. *)
Lemma unparsable_first_when_descending :
  ~ unparsable_last "gp" (tree (fst (_sort_by "gp" true odd_table))).
Proof.
  intros H.
  specialize (H []
                (0%nat, ["Rope"; "?"; "?"; "?"; "?"; "?"])
                []
                (2%nat, ["Longsword"; "1.50"; "15"; "30"; "150"; "1500"])
                [(1%nat, ["Dagger"; "0.20"; "2"; "4"; "20"; "200"])]).
  assert (E : Flt.parse
                (cell "gp" (2%nat, ["Longsword"; "1.50"; "15"; "30"; "150"; "1500"])) =
              None).
  { apply H; vm_compute; reflexivity. }
  vm_compute in E. discriminate.
Qed.

Lemma sorted_split {A : Type} (R : A -> A -> Prop) (l1 l2 : list A) (x : A) :
  StronglySorted R (l1 ++ x :: l2) ->
  (forall y, In y l1 -> R y x) /\ (forall y, In y l2 -> R x y).
Proof.
  induction l1 as [| z l1 IH]; simpl; intros H.
  - inversion H as [| ? ? _ Hx]; subst. split; [intros y [] |].
    rewrite Forall_forall in Hx. exact Hx.
  - inversion H as [| ? ? Hs Hz]; subst. destruct (IH Hs) as [IH1 IH2].
    split; [| exact IH2].
    intros y [<- | Hy]; [| apply IH1; exact Hy].
    rewrite Forall_forall in Hz. apply Hz. apply in_or_app. right. left. reflexivity.
Qed.

Lemma sort_rows_numeric (col_key : string) (descending : bool)
  (rows : list (string * nat)) :
  In col_key numeric_cols ->
  sort_rows col_key descending rows = sort_by PrimFloat.ltb num_key descending rows.
Proof.
  intros Hc. unfold sort_rows.
  assert (E : existsb (String.eqb col_key) numeric_cols = true).
  { apply existsb_exists. exists col_key. split; [exact Hc | apply String.eqb_refl]. }
  rewrite E. reflexivity.
Qed.

(** C7, amended. For a table with distinct row identifiers and a
    denomination column none of whose cells reads as NaN, the sort leaves
    the same rows in the table, in the order of the cells sorted by their
    numeric value: ascending, no row is below an earlier one; descending,
    no row is above an earlier one. The sort is stable: the rows of one key
    keep their relative order (sorting B 5, A 5, C 3 ascending gives C, B,
    A). A cell that is not a number has the key infinity, above which there
    is no key: ascending, only rows of key infinity follow such a row;
    descending, only rows of key infinity precede it, so it stands at the
    start rather than at the end. The next click on the column sorts in the
    other direction. *)
Theorem numeric_sort (a : App) (col_key : string) (descending : bool)
  (rows : list (string * nat)) :
  In col_key numeric_cols ->
  NoDup (map fst (tree a)) ->
  collect_rows col_key (tree a) = inr rows ->
  keys_not_nan rows ->
  snd (_sort_by col_key descending a) = inr tt /\
  map fst (tree (fst (_sort_by col_key descending a))) =
    map snd (sort_rows col_key descending rows) /\
  Permutation (tree (fst (_sort_by col_key descending a))) (tree a) /\
  Permutation (sort_rows col_key descending rows) rows /\
  StronglySorted
    (fun r1 r2 => if descending then (num_key r1 <? num_key r2)%float = false
                  else (num_key r2 <? num_key r1)%float = false)
    (sort_rows col_key descending rows) /\
  (forall k, FloatOrder.not_nan k ->
             filter (SortFacts.same_key PrimFloat.ltb num_key k)
               (sort_rows col_key descending rows) =
             filter (SortFacts.same_key PrimFloat.ltb num_key k) rows) /\
  (forall r, Flt.parse (fst r) = None -> num_key r = infinity) /\
  (forall l1 r l2,
      sort_rows col_key descending rows = l1 ++ r :: l2 ->
      Flt.parse (fst r) = None ->
      forall r', In r' (if descending then l1 else l2) ->
                 (num_key r' <? infinity)%float = false) /\
  Dict.get col_key (heading (fst (_sort_by col_key descending a))) =
    Some (negb descending).
Proof.
  intros Hcol Hnd Hrows Hkeys.
  pose proof (sort_rows_numeric col_key descending rows Hcol) as Hsr.
  assert (Hperm : Permutation (sort_rows col_key descending rows) rows).
  { rewrite Hsr. apply SortFacts.sort_by_perm. }
  assert (Hsorted :
            StronglySorted
              (fun r1 r2 => if descending then (num_key r1 <? num_key r2)%float = false
                            else (num_key r2 <? num_key r1)%float = false)
              (sort_rows col_key descending rows)).
  { rewrite Hsr.
    apply (SortFacts.sort_by_sorted PrimFloat.ltb num_key FloatOrder.not_nan
             FloatOrder.ltb_asym FloatOrder.ltb_negtrans descending rows Hkeys). }
  assert (Hinf : forall r, Flt.parse (fst r) = None -> num_key r = infinity).
  { intros r Hr. unfold num_key, to_num, Flt.of_str. rewrite Hr. reflexivity. }
  pose proof (collect_rows_iids col_key (tree a) rows Hrows) as Hiids.
  destruct (move_all_spec (sort_rows col_key descending rows) [] (tree a))
    as (S & Hmove & Hmap & HpermS).
  { exact Hnd. }
  { apply (Permutation_NoDup (l := map snd rows)).
    - apply Permutation_map, Permutation_sym. exact Hperm.
    - rewrite Hiids. exact Hnd. }
  { intros x. rewrite <- Hiids. split; intros Hx.
    - apply (Permutation_in _ (Permutation_map snd Hperm)). exact Hx.
    - apply (Permutation_in _ (Permutation_map snd (Permutation_sym Hperm))). exact Hx. }
  simpl in Hmove.
  unfold _sort_by. rewrite Hrows. simpl. rewrite Hmove.
  split; [reflexivity |]. split; [exact Hmap |]. split; [exact HpermS |].
  split; [exact Hperm |]. split; [exact Hsorted |].
  split.
  { intros k Hk. rewrite Hsr.
    apply (SortFacts.sort_by_stable PrimFloat.ltb num_key FloatOrder.not_nan
             FloatOrder.ltb_negtrans descending k rows Hk Hkeys). }
  split; [exact Hinf |].
  split.
  { intros l1 r l2 Hsplit Hr r' Hin.
    rewrite Hsplit in Hsorted.
    destruct (sorted_split _ l1 l2 r Hsorted) as [Hbefore Hafter].
    rewrite <- (Hinf r Hr).
    destruct descending.
    - apply (Hbefore r' Hin).
    - apply (Hafter r' Hin). }
  apply DictFacts.get_set_same.
Qed.

Definition tie_table : App :=
  table_app
    [(0%nat, ["B"; "0.50"; "5"; "10"; "50"; "500"]);
     (1%nat, ["A"; "0.50"; "5"; "10"; "50"; "500"]);
     (2%nat, ["C"; "0.30"; "3"; "6"; "30"; "300"])].

Lemma numeric_sort_witness :
  map fst (tree (fst (_sort_by "gp" false tie_table))) = [2%nat; 0%nat; 1%nat] /\
  map (fun c => hd "" (snd c)) (tree (fst (_sort_by "gp" false tie_table))) =
    ["C"; "B"; "A"].
Proof.
  assert (Hcol : In "gp" numeric_cols) by (simpl; auto).
  assert (Hnd : NoDup (map fst (tree tie_table))).
  { simpl. repeat constructor; simpl; intuition discriminate. }
  assert (Hrows : collect_rows "gp" (tree tie_table) =
                  inr [("5", 0%nat); ("5", 1%nat); ("3", 2%nat)])
    by (vm_compute; reflexivity).
  assert (Hkeys : keys_not_nan [("5", 0%nat); ("5", 1%nat); ("3", 2%nat)]).
  { repeat constructor; vm_compute; reflexivity. }
  destruct (numeric_sort tie_table "gp" false _ Hcol Hnd Hrows Hkeys)
    as (_ & Horder & _).
  split.
  - rewrite Horder. vm_compute. reflexivity.
  - vm_compute. reflexivity.
Defined.

End TableSort.

(** ** The display formatter *)

Module Pretty.

Fixpoint all_digits (s : string) : bool :=
  match s with
  | EmptyString => true
  | String c t => (Flt.is_digit c && all_digits t)%bool
  end.

(** The text of an integer: digits, after a minus sign or not. *)
Definition integer_text (s : string) : Prop :=
  exists body,
    (s = body \/ s = String "-" body) /\ body <> "" /\ all_digits body = true.

(** A text with exactly two decimal places. *)
Definition two_decimals (s : string) : Prop :=
  exists ip d1 d2,
    s = (ip ++ "." ++ String d1 (String d2 ""))%string /\
    integer_text ip /\ Flt.is_digit d1 = true /\ Flt.is_digit d2 = true.

Lemma uint_all_digits (d : Decimal.uint) :
  all_digits (NilEmpty.string_of_uint d) = true.
Proof. induction d; simpl; auto. Qed.

Lemma uint_text_nonempty (d : Decimal.uint) :
  NilZero.string_of_uint d <> "".
Proof. destruct d; simpl; discriminate. Qed.

Lemma uint_text_digits (d : Decimal.uint) :
  all_digits (NilZero.string_of_uint d) = true.
Proof. destruct d; try reflexivity; apply (uint_all_digits (_ d)). Qed.

Lemma of_Z_integer_text (z : Z) : integer_text (Str.of_Z z).
Proof.
  unfold integer_text, Str.of_Z.
  destruct z as [| p | p]; simpl.
  - exists "0". repeat split; auto. discriminate.
  - exists (NilZero.string_of_uint (Pos.to_uint p)).
    split; [left; reflexivity |].
    split; [apply uint_text_nonempty | apply uint_text_digits].
  - exists (NilZero.string_of_uint (Pos.to_uint p)).
    split; [right; reflexivity |].
    split; [apply uint_text_nonempty | apply uint_text_digits].
Qed.

Lemma of_Z_nonneg_digits (z : Z) :
  0 <= z -> Str.of_Z z <> "" /\ all_digits (Str.of_Z z) = true.
Proof.
  unfold Str.of_Z. destruct z as [| p | p]; simpl; intros H; try lia.
  - split; [discriminate | reflexivity].
  - split; [apply uint_text_nonempty | apply uint_text_digits].
Qed.

Lemma digit_char (k : nat) :
  (k <= 9)%nat -> Flt.is_digit (ascii_of_nat (48 + k)) = true.
Proof.
  intros H. unfold Flt.is_digit.
  rewrite nat_ascii_embedding by lia.
  apply andb_true_iff. split; apply Nat.leb_le; lia.
Qed.

Lemma hundredths_two_decimals (neg : bool) (c : Z) :
  0 <= c -> two_decimals (Flt.hundredths neg c).
Proof.
  intros Hc. unfold Flt.hundredths, Flt.two_digits.
  pose proof (Z.mod_pos_bound c 100 ltac:(lia)) as Hm.
  assert (Hq : 0 <= c / 100) by (apply Z.div_pos; lia).
  destruct (of_Z_nonneg_digits (c / 100) Hq) as [Hne Hd].
  exists ((if neg then "-" else "") ++ Str.of_Z (c / 100))%string,
    (ascii_of_nat (48 + Z.to_nat (c mod 100 / 10))),
    (ascii_of_nat (48 + Z.to_nat ((c mod 100) mod 10))).
  split; [destruct neg; reflexivity |].
  split.
  - exists (Str.of_Z (c / 100)).
    split; [destruct neg; [right | left]; reflexivity | auto].
  - split; apply digit_char.
    + assert (c mod 100 / 10 < 10) by (apply Z.div_lt_upper_bound; lia).
      assert (0 <= c mod 100 / 10) by (apply Z.div_pos; lia). lia.
    + pose proof (Z.mod_pos_bound (c mod 100) 10 ltac:(lia)). lia.
Qed.

Lemma round_half_even_nonneg (n d : Z) :
  0 <= n -> 0 < d -> 0 <= Flt.round_half_even n d.
Proof.
  intros Hn Hd. unfold Flt.round_half_even.
  assert (Hq : 0 <= n / d) by (apply Z.div_pos; lia).
  destruct (2 * (n mod d) ?= d); [destruct (Z.even (n / d)) | |]; lia.
Qed.

Lemma num_den_pos (m : positive) (e : Z) :
  0 < fst (Flt.num_den m e) /\ 0 < snd (Flt.num_den m e).
Proof.
  unfold Flt.num_den. destruct (0 <=? e) eqn:E; cbn [fst snd].
  - apply Z.leb_le in E. split; [| lia].
    apply Z.mul_pos_pos; [lia | apply Z.pow_pos_nonneg; lia].
  - apply Z.leb_gt in E. split; [lia | apply Z.pow_pos_nonneg; lia].
Qed.

(** [f"{n:.2f}"] of a finite float has exactly two decimal places. *)
Lemma format_2f_two_decimals (n : float) :
  Flt.isfinite n = true -> two_decimals (Flt.format_2f n).
Proof.
  unfold Flt.isfinite, Flt.format_2f.
  destruct (Prim2SF n) as [s | s | | s m e]; try discriminate; intros _.
  - apply hundredths_two_decimals. lia.
  - destruct (num_den_pos m e) as [Hn Hd].
    destruct (Flt.num_den m e) as [num den]. cbn [fst snd] in *.
    apply hundredths_two_decimals.
    apply round_half_even_nonneg; lia.
Qed.

Lemma round_half_even_one (n : Z) : Flt.round_half_even n 1 = n.
Proof.
  unfold Flt.round_half_even. rewrite Z.mod_1_r, Z.div_1_r. reflexivity.
Qed.

(** [round(n)] of a finite float is an [int] that [float] converts back. *)
Lemma round_then_float (n : float) :
  Flt.isfinite n = true ->
  exists z zf, Flt.round n = inr z /\ Flt.of_int z = inr zf.
Proof.
  unfold Flt.isfinite, Flt.round.
  pose proof (Prim2SF_valid n) as Hv.
  destruct (Prim2SF n) as [s | s | | s m e]; try discriminate; intros _.
  - exists 0. eexists. split; reflexivity.
  - simpl in Hv. unfold Flt.num_den.
    destruct (0 <=? e) eqn:E.
    + apply Z.leb_le in E. rewrite round_half_even_one.
      destruct (FloatExact.of_int_scaled s m e Hv E) as [zf Hzf].
      eexists. exists zf. split; [reflexivity | exact Hzf].
    + apply Z.leb_gt in E.
      destruct (FloatExact.bounded_inv m e Hv) as [Hc _].
      assert (Hd : Zpos (digits2_pos m) <= 53).
      { revert Hc. unfold fexp, emin, prec, emax. lia. }
      assert (Hpow : 1 < 2 ^ (- e)).
      { apply Z.pow_gt_1; lia. }
      pose proof (FloatExact.round_half_even_bounds (Zpos m) (2 ^ (- e))
                    ltac:(lia) Hpow) as Hb.
      destruct (FloatExact.of_int_small s _ m Hb Hd) as [zf Hzf].
      eexists. exists zf. split; [reflexivity | exact Hzf].
Qed.

End Pretty.

(** ** Rounding

    The error of the IEEE 754 operations of [SpecFloat], over the reals:
    [binary_round_aux] returns a float within half a unit in the last place
    of the value it is given, and division, multiplication and subtraction
    round their exact result with it. *)

Module Rounding.

(** *** The place of a value between two integers *)

(** [N / D] lies at place [l] of the interval from [m] to [m + 1]. *)
Definition located (m : Z) (l : location) (N D : Z) : Prop :=
  match l with
  | loc_Exact => N = m * D
  | loc_Inexact c =>
      m * D < N < (m + 1) * D /\
      match c with
      | Lt => 2 * N < (2 * m + 1) * D
      | Eq => 2 * N = (2 * m + 1) * D
      | Gt => (2 * m + 1) * D < 2 * N
      end
  end.

Ltac located_cases H :=
  match type of H with
  | _ /\ _ => destruct H as [[? ?] ?]
  | _ => idtac
  end.

Lemma shr_1_located (m : Z) (r s : bool) (N D : Z) :
  0 <= m -> 0 < D ->
  located m (loc_of_shr_record (Build_shr_record m r s)) N D ->
  located (shr_m (shr_1 (Build_shr_record m r s)))
    (loc_of_shr_record (shr_1 (Build_shr_record m r s))) N (2 * D) /\
  shr_m (shr_1 (Build_shr_record m r s)) = m / 2.
Proof.
  intros Hm HD H.
  destruct m as [| p | p]; [| | lia].
  - split; [| reflexivity].
    destruct r, s; cbn [located shr_1 shr_m orb loc_of_shr_record] in *;
      located_cases H; repeat split; lia.
  - destruct p as [p | p |].
    + split; [| cbn [shr_1 shr_m]; apply Z.div_unique with 1; lia].
      cbn [shr_1 shr_m]. rewrite Pos2Z.inj_xI in H.
      destruct r, s; cbn [located shr_1 shr_m orb loc_of_shr_record] in *;
        located_cases H; repeat split; nia.
    + split; [| cbn [shr_1 shr_m]; apply Z.div_unique with 0; lia].
      cbn [shr_1 shr_m]. rewrite Pos2Z.inj_xO in H.
      destruct r, s; cbn [located shr_1 shr_m orb loc_of_shr_record] in *;
        located_cases H; repeat split; nia.
    + split; [| reflexivity].
      destruct r, s; cbn [located shr_1 shr_m orb loc_of_shr_record] in *;
        located_cases H; repeat split; nia.
Qed.


Lemma shr_iter_located (k : positive) (N D : Z) :
  forall rec : shr_record,
    0 <= shr_m rec -> 0 < D ->
    located (shr_m rec) (loc_of_shr_record rec) N D ->
    located (shr_m (SpecFloat.iter_pos shr_1 k rec))
      (loc_of_shr_record (SpecFloat.iter_pos shr_1 k rec)) N (2 ^ Zpos k * D) /\
    shr_m (SpecFloat.iter_pos shr_1 k rec) = shr_m rec / 2 ^ Zpos k.
Proof.
  intros rec Hm HD H. rewrite FloatExact.iter_pos_iter.
  induction k as [| k IH] using Pos.peano_ind.
  - destruct rec as [m r s].
    destruct (shr_1_located m r s N D Hm HD H) as [H1 H2].
    replace (2 ^ 1 * D) with (2 * D) by lia. rewrite Z.pow_1_r.
    split; [exact H1 | exact H2].
  - rewrite Pos.iter_succ. destruct IH as [IH1 IH2].
    destruct (Pos.iter shr_1 rec k) as [m r s].
    assert (Hm' : 0 <= m).
    { change m with (shr_m (Build_shr_record m r s)). rewrite IH2.
      apply Z.div_pos; lia. }
    assert (HD' : 0 < 2 ^ Zpos k * D) by (apply Z.mul_pos_pos; lia).
    destruct (shr_1_located m r s N (2 ^ Zpos k * D) Hm' HD' IH1) as [H1 H2].
    rewrite Pos2Z.inj_succ, Z.pow_succ_r by lia.
    split.
    + replace (2 * 2 ^ Zpos k * D) with (2 * (2 ^ Zpos k * D)) by lia. exact H1.
    + rewrite H2. change m with (shr_m (Build_shr_record m r s)). rewrite IH2.
      rewrite Z.div_div by lia. f_equal. lia.
Qed.

Lemma loc_of_record_of_loc (m : Z) (l : location) :
  loc_of_shr_record (shr_record_of_loc m l) = l /\
  shr_m (shr_record_of_loc m l) = m.
Proof. destruct l as [| []]; split; reflexivity. Qed.

Lemma round_nearest_even_located (m : Z) (l : location) (N D : Z) :
  0 < D -> located m l N D ->
  - D <= 2 * (round_nearest_even m l * D - N) <= D /\
  m <= round_nearest_even m l <= m + 1.
Proof.
  intros HD H. destruct l as [| c]; cbn [located round_nearest_even] in *.
  - subst N. split; lia.
  - destruct H as [[H1 H2] H3]. destruct c.
    + destruct (Z.even m); split; nia.
    + split; nia.
    + split; nia.
Qed.

(** The number of binary digits of a non-negative integer. *)
Lemma digits_bounds (m : Z) :
  0 < m -> 2 ^ (Zdigits2 m - 1) <= m < 2 ^ Zdigits2 m /\ 1 <= Zdigits2 m.
Proof.
  intros Hm. destruct m as [| p | p]; try lia. simpl Zdigits2.
  assert (Hs : digits2_pos p = Pos.size p).
  { induction p as [p IH | p IH |]; simpl; [rewrite IH | rewrite IH |]; reflexivity. }
  rewrite Hs.
  pose proof (Pos.size_le p) as Hle. pose proof (Pos.size_gt p) as Hgt.
  apply Pos2Z.pos_le_pos in Hle. apply Pos2Z.pos_lt_pos in Hgt.
  rewrite Pos2Z.inj_pow in Hle, Hgt. change (Zpos p~0) with (2 * Zpos p) in Hle.
  assert (E : 2 ^ Zpos (Pos.size p) = 2 * 2 ^ (Zpos (Pos.size p) - 1)).
  { rewrite <- Z.pow_succ_r by lia. f_equal. lia. }
  split; [| lia]. split; [| exact Hgt]. lia.
Qed.

Lemma digits_zero : Zdigits2 0 = 0.
Proof. reflexivity. Qed.

Lemma digits_nonneg (m : Z) : 0 <= Zdigits2 m.
Proof. destruct m; simpl; lia. Qed.

Lemma digits_le (m j : Z) : 0 <= m < 2 ^ j -> 0 <= j -> Zdigits2 m <= j.
Proof.
  intros [H0 Hm] Hj.
  destruct (Z.eq_dec m 0) as [-> | Hne]; [rewrite digits_zero; exact Hj |].
  destruct (digits_bounds m ltac:(lia)) as [[Hlo _] Hd].
  destruct (Z_le_gt_dec (Zdigits2 m) j) as [H | H]; [exact H | exfalso].
  assert (2 ^ j <= 2 ^ (Zdigits2 m - 1)) by (apply Z.pow_le_mono_r; lia).
  lia.
Qed.

Lemma fexp64 (e : Z) : fexp prec emax e = Z.max (e - 53) (-1074).
Proof. reflexivity. Qed.

(** The first shift of [binary_round_aux]: the mantissa is cut to the
    exponent [e1] and the place of the value is kept. *)
Lemma shr_fexp_sem (mx ex : Z) (l : location) (N D e1 : Z) :
  0 <= mx -> 0 < D -> located mx l N D ->
  e1 = Z.max ex (fexp prec emax (Zdigits2 mx + ex)) ->
  exists rec1,
    shr_fexp prec emax mx ex l = (rec1, e1) /\
    0 <= shr_m rec1 /\
    located (shr_m rec1) (loc_of_shr_record rec1) N (2 ^ (e1 - ex) * D) /\
    fexp prec emax (Zdigits2 (shr_m rec1) + e1) <= e1.
Proof.
  intros Hm HD Hloc He1.
  destruct (loc_of_record_of_loc mx l) as [Hl Hmx].
  unfold shr_fexp, shr.
  destruct (fexp prec emax (Zdigits2 mx + ex) - ex) as [| k | k] eqn:En.
  - exists (shr_record_of_loc mx l).
    assert (E : e1 = ex) by lia. rewrite E, Z.sub_diag, Hl, Hmx.
    replace (2 ^ 0 * D) with D by lia.
    repeat split; auto. lia.
  - exists (SpecFloat.iter_pos shr_1 k (shr_record_of_loc mx l)).
    assert (E : e1 = ex + Zpos k) by lia.
    destruct (shr_iter_located k N D (shr_record_of_loc mx l)) as [H1 H2].
    { rewrite Hmx. exact Hm. }
    { exact HD. }
    { rewrite Hl, Hmx. exact Hloc. }
    rewrite Hmx in H2.
    split; [rewrite E; reflexivity |].
    split; [rewrite H2; apply Z.div_pos; lia |].
    split; [replace (e1 - ex) with (Zpos k) by lia; exact H1 |].
    rewrite H2.
    assert (Hd : Zdigits2 (mx / 2 ^ Zpos k) <= Z.max (Zdigits2 mx - Zpos k) 0).
    { destruct (Z.eq_dec mx 0) as [-> | Hne].
      - rewrite Z.div_0_l by lia. rewrite digits_zero. lia.
      - destruct (digits_bounds mx ltac:(lia)) as [[_ Hhi] Hd1].
        destruct (Z_le_gt_dec (Zdigits2 mx) (Zpos k)) as [Hle | Hgt].
        + rewrite Z.div_small.
          * rewrite digits_zero. lia.
          * split; [lia |].
            apply Z.lt_le_trans with (2 ^ Zdigits2 mx); [exact Hhi |].
            apply Z.pow_le_mono_r; lia.
        + apply Z.le_trans with (Zdigits2 mx - Zpos k); [| lia].
          apply digits_le; [| lia].
          split; [apply Z.div_pos; lia |].
          apply Z.div_lt_upper_bound; [lia |].
          rewrite <- Z.pow_add_r by lia.
          replace (Zpos k + (Zdigits2 mx - Zpos k)) with (Zdigits2 mx) by lia.
          exact Hhi. }
    rewrite fexp64 in *. lia.
  - exists (shr_record_of_loc mx l).
    assert (E : e1 = ex) by lia. rewrite E, Z.sub_diag, Hl, Hmx.
    replace (2 ^ 0 * D) with D by lia.
    repeat split; auto. lia.
Qed.

(** What [binary_round_aux] returns when the result does not overflow: a
    mantissa [z] at exponent [e1] nearest to the value [N / D * 2 ^ ex]. *)
Lemma round_aux_sem (s : bool) (mx ex : Z) (l : location) (N D e1 : Z) :
  0 <= mx -> 0 < D -> located mx l N D ->
  e1 = Z.max ex (fexp prec emax (Zdigits2 mx + ex)) ->
  e1 + 1 <= 971 ->
  exists z,
    0 <= z /\
    - (2 ^ (e1 - ex) * D) <= 2 * (z * (2 ^ (e1 - ex) * D) - N) <= 2 ^ (e1 - ex) * D /\
    ((binary_round_aux prec emax s mx ex l = S754_zero s /\ z = 0) \/
     (exists m, binary_round_aux prec emax s mx ex l = S754_finite s m e1 /\
                Zpos m = z) \/
     (exists m, binary_round_aux prec emax s mx ex l = S754_finite s m (e1 + 1) /\
                2 * Zpos m = z)).
Proof.
  intros Hm HD Hloc He1 Hmax.
  destruct (shr_fexp_sem mx ex l N D e1 Hm HD Hloc He1)
    as (rec1 & Hshr & Hm1 & Hloc1 & Hf1).
  assert (HD1 : 0 < 2 ^ (e1 - ex) * D).
  { apply Z.mul_pos_pos; [apply Z.pow_pos_nonneg; lia | exact HD]. }
  destruct (round_nearest_even_located _ _ N _ HD1 Hloc1) as [Herr Hz].
  set (m1 := shr_m rec1) in *.
  set (z := round_nearest_even m1 (loc_of_shr_record rec1)) in *.
  exists z. split; [lia |]. split; [exact Herr |].
  assert (Hemin : -1074 <= e1) by (rewrite fexp64 in *; lia).
  (* the digits of [z] *)
  assert (Hdz : Zdigits2 z <= Zdigits2 m1 \/
                (z = 2 ^ Zdigits2 m1 /\ Zdigits2 z <= Zdigits2 m1 + 1)).
  { destruct (Z.eq_dec m1 0) as [E0 | Hne].
    - rewrite E0 in *. rewrite digits_zero.
      assert (Hz01 : z = 0 \/ z = 1) by lia.
      destruct Hz01 as [-> | ->]; [left; simpl; lia | right; split; reflexivity || (simpl; lia)].
    - destruct (digits_bounds m1 ltac:(lia)) as [[_ Hhi] Hd1].
      destruct (Z.eq_dec z (2 ^ Zdigits2 m1)) as [E | Hne2].
      + right. split; [exact E |].
        apply digits_le; [| lia].
        rewrite E. rewrite Z.pow_add_r, Z.pow_1_r by lia.
        assert (0 < 2 ^ Zdigits2 m1) by (apply Z.pow_pos_nonneg; lia). lia.
      + left. apply digits_le; [lia | lia]. }
  unfold binary_round_aux. rewrite Hshr.
  fold m1. fold z.
  assert (Hsecond :
            shr_fexp prec emax z e1 loc_Exact = (Build_shr_record z false false, e1) \/
            (exists q, z = Zpos q~0 /\
                       shr_fexp prec emax z e1 loc_Exact =
                       (Build_shr_record (Zpos q) false false, e1 + 1))).
  { unfold shr_fexp, shr. cbn [shr_record_of_loc].
    destruct (fexp prec emax (Zdigits2 z + e1) - e1) as [| k | k] eqn:En2.
    - left. reflexivity.
    - right.
      assert (Hk : Zpos k = 1 /\ z = 2 ^ Zdigits2 m1 /\ 1 <= Zdigits2 m1).
      { rewrite fexp64 in *.
        destruct Hdz as [Hdz | [Ez Hdz]]; [lia |].
        split; [lia |]. split; [exact Ez |].
        destruct (Z.eq_dec (Zdigits2 m1) 0) as [E0 | Hne].
        - rewrite E0 in *. subst z. simpl in En2. lia.
        - pose proof (digits_nonneg m1). lia. }
      destruct Hk as (Hk1 & Ez & Hd1).
      assert (Hzeven : z = 2 * 2 ^ (Zdigits2 m1 - 1)).
      { rewrite Ez. rewrite <- Z.pow_succ_r by lia. f_equal. lia. }
      assert (Hpos : 0 < 2 ^ (Zdigits2 m1 - 1)) by (apply Z.pow_pos_nonneg; lia).
      destruct z as [| p | p]; try lia.
      destruct p as [p | p |]; try lia.
      exists p. split; [reflexivity |].
      assert (Ek : k = 1%positive) by lia. subst k. reflexivity.
    - left. reflexivity. }
  destruct Hsecond as [-> | (q & Eq & ->)]; cbn [shr_m].
  - destruct z as [| p | p]; try lia.
    + left. split; reflexivity.
    + right. left. exists p.
      assert (E : (e1 <=? emax - prec) = true) by (apply Z.leb_le; unfold emax, prec; lia).
      rewrite E. split; reflexivity.
  - right. right. exists q.
    assert (E : (e1 + 1 <=? emax - prec) = true) by (apply Z.leb_le; unfold emax, prec; lia).
    rewrite E. split; [reflexivity | lia].
Qed.

(** *** Values as real numbers *)

Definition bpow (e : Z) : R := powerRZ 2 e.

Lemma bpow_pos (e : Z) : (0 < bpow e)%R.
Proof. apply powerRZ_lt. lra. Qed.

Lemma bpow_add (a b : Z) : bpow (a + b) = (bpow a * bpow b)%R.
Proof. apply powerRZ_add. lra. Qed.

Lemma bpow_IZR (k : Z) : 0 <= k -> IZR (2 ^ k) = bpow k.
Proof.
  intros Hk. destruct k as [| p | p]; try lia.
  - reflexivity.
  - unfold bpow. rewrite <- Zpower_pos_powerRZ. reflexivity.
Qed.

Lemma bpow_le (a b : Z) : a <= b -> (bpow a <= bpow b)%R.
Proof.
  intros H. replace b with (a + (b - a)) by lia. rewrite bpow_add.
  rewrite <- (bpow_IZR (b - a)) by lia.
  assert (H1 : (1 <= IZR (2 ^ (b - a)))%R).
  { apply IZR_le. assert (0 < 2 ^ (b - a)) by (apply Z.pow_pos_nonneg; lia). lia. }
  pose proof (bpow_pos a). nra.
Qed.

Lemma bpow_lt (a b : Z) : a < b -> (bpow a < bpow b)%R.
Proof.
  intros H. replace b with (a + (b - a)) by lia. rewrite bpow_add.
  rewrite <- (bpow_IZR (b - a)) by lia.
  assert (H1 : (2 <= IZR (2 ^ (b - a)))%R).
  { apply IZR_le. replace (b - a) with (Z.succ (b - a - 1)) by lia.
    rewrite Z.pow_succ_r by lia.
    assert (0 < 2 ^ (b - a - 1)) by (apply Z.pow_pos_nonneg; lia). lia. }
  pose proof (bpow_pos a). nra.
Qed.

Lemma bpow_lt_inv (a b : Z) : (bpow a < bpow b)%R -> a < b.
Proof.
  intros H. destruct (Z_lt_le_dec a b) as [Hlt | Hle]; [exact Hlt |].
  apply bpow_le in Hle. lra.
Qed.

Lemma bpow_1 : bpow 1 = 2%R.
Proof. unfold bpow. simpl. lra. Qed.

Lemma bpow_half (e : Z) : bpow (e - 1) = (bpow e / 2)%R.
Proof.
  replace e with ((e - 1) + 1) at 2 by lia. rewrite bpow_add, bpow_1. field.
Qed.

(** The magnitude of a float. *)
Definition mag (x : spec_float) : R :=
  match x with
  | S754_finite _ m e => (IZR (Zpos m) * bpow e)%R
  | _ => 0%R
  end.

(** The error of [binary_round_aux]: half a unit of the exponent [e1]. *)
Lemma round_aux_error (s : bool) (mx ex : Z) (l : location) (N D e1 : Z) :
  0 <= mx -> 0 < D -> located mx l N D ->
  e1 = Z.max ex (fexp prec emax (Zdigits2 mx + ex)) ->
  e1 + 1 <= 971 ->
  (binary_round_aux prec emax s mx ex l = S754_zero s \/
   exists m e, binary_round_aux prec emax s mx ex l = S754_finite s m e /\
               e <= e1 + 1) /\
  (Rabs (mag (binary_round_aux prec emax s mx ex l) - IZR N / IZR D * bpow ex)
   <= bpow (e1 - 1))%R.
Proof.
  intros Hm HD Hloc He1 Hmax.
  destruct (round_aux_sem s mx ex l N D e1 Hm HD Hloc He1 Hmax)
    as (z & Hz & Herr & Hres).
  assert (Hge : ex <= e1) by lia.
  assert (Hval : mag (binary_round_aux prec emax s mx ex l) = (IZR z * bpow e1)%R).
  { destruct Hres as [[-> ->] | [(m & -> & <-) | (m & -> & <-)]]; cbn [mag].
    - lra.
    - reflexivity.
    - rewrite bpow_add, bpow_1, mult_IZR. lra. }
  split.
  - destruct Hres as [[-> _] | [(m & -> & _) | (m & -> & _)]].
    + left. reflexivity.
    + right. exists m, e1. split; [reflexivity | lia].
    + right. exists m, (e1 + 1). split; [reflexivity | lia].
  - rewrite Hval.
    set (P := 2 ^ (e1 - ex)) in *.
    assert (HP : IZR P = bpow (e1 - ex)) by (apply bpow_IZR; lia).
    assert (HPpos : (0 < IZR P)%R) by (rewrite HP; apply bpow_pos).
    assert (HDpos : (0 < IZR D)%R) by (apply IZR_lt; lia).
    assert (He : bpow e1 = (bpow ex * IZR P)%R).
    { rewrite HP, <- bpow_add. f_equal. lia. }
    destruct Herr as [Hlo Hhi].
    apply IZR_le in Hlo, Hhi.
    rewrite opp_IZR in Hlo.
    rewrite !mult_IZR, minus_IZR, !mult_IZR in Hlo, Hhi.
    rewrite bpow_half, He.
    pose proof (bpow_pos ex) as Hex.
    apply Rabs_le.
    assert (Hdiff : (IZR z * (bpow ex * IZR P) - IZR N / IZR D * bpow ex =
                     (IZR z * (IZR P * IZR D) - IZR N) * (bpow ex / IZR D))%R).
    { field. lra. }
    rewrite Hdiff.
    assert (Hq : (0 < bpow ex / IZR D)%R) by (apply Rdiv_lt_0_compat; lra).
    assert (Hrhs : (bpow ex * IZR P / 2 = (IZR P * IZR D / 2) * (bpow ex / IZR D))%R).
    { field. lra. }
    rewrite Hrhs.
    split; nra.
Qed.

(** The exponent at which [binary_round_aux] rounds a value below
    [2 ^ K]. *)
Lemma round_exponent_bound (mx ex : Z) (l : location) (N D K : Z) :
  0 <= mx -> 0 < D -> located mx l N D ->
  (IZR N / IZR D * bpow ex < bpow K)%R ->
  ex <= Z.max (K - 53) (-1074) ->
  Z.max ex (fexp prec emax (Zdigits2 mx + ex)) <= Z.max (K - 53) (-1074).
Proof.
  intros Hm HD Hloc Hv Hex. rewrite fexp64.
  destruct (Z.eq_dec mx 0) as [-> | Hne].
  - rewrite digits_zero. lia.
  - destruct (digits_bounds mx ltac:(lia)) as [[Hlo _] Hd].
    assert (HmN : mx * D <= N).
    { destruct l as [| c]; simpl in Hloc; lia. }
    assert (HDpos : (0 < IZR D)%R) by (apply IZR_lt; lia).
    pose proof (bpow_pos ex) as Hexpos.
    assert (H1 : (IZR mx <= IZR N / IZR D)%R).
    { apply IZR_le in HmN. rewrite mult_IZR in HmN.
      apply Rmult_le_reg_r with (IZR D); [exact HDpos |].
      replace (IZR N / IZR D * IZR D)%R with (IZR N) by (field; lra). exact HmN. }
    assert (H2 : (bpow (Zdigits2 mx - 1) <= IZR mx)%R).
    { rewrite <- bpow_IZR by lia. apply IZR_le. exact Hlo. }
    assert (H3 : (bpow (Zdigits2 mx - 1 + ex) < bpow K)%R).
    { rewrite bpow_add.
      apply Rle_lt_trans with (IZR N / IZR D * bpow ex)%R; [| exact Hv].
      apply Rmult_le_compat_r; lra. }
    apply bpow_lt_inv in H3. lia.
Qed.

Lemma new_location_located (q r m2 : Z) :
  0 <= r < m2 -> located q (new_location m2 r) (m2 * q + r) m2.
Proof.
  intros Hr. unfold new_location, new_location_even, new_location_odd.
  destruct (Z.even m2) eqn:Ev.
  - destruct (Z.eqb_spec r 0) as [-> | Hne]; cbn [located]; [lia |].
    split; [nia |].
    destruct (Z.compare_spec (2 * r) m2); nia.
  - destruct (Z.eqb_spec r 0) as [-> | Hne]; cbn [located]; [lia |].
    split; [nia |].
    assert (Hodd : Z.odd m2 = true) by (rewrite <- Z.negb_even, Ev; reflexivity).
    apply Z.odd_spec in Hodd. destruct Hodd as [j Hj].
    destruct (Z.compare_spec (2 * r + 1) m2); nia.
Qed.

(** The quotient that [SFdiv] rounds. *)
Lemma div_core_located (m1 m2 : positive) (e1 e2 : Z) :
  exists q e' loc,
    SFdiv_core_binary prec emax (Zpos m1) e1 (Zpos m2) e2 = (q, e', loc) /\
    e' = Z.min (fexp prec emax (Zdigits2 (Zpos m1) + e1 - (Zdigits2 (Zpos m2) + e2)))
           (e1 - e2) /\
    0 <= q /\
    located q loc (Zpos m1 * 2 ^ (e1 - e2 - e')) (Zpos m2).
Proof.
  unfold SFdiv_core_binary.
  set (e' := Z.min (fexp prec emax (Zdigits2 (Zpos m1) + e1 - (Zdigits2 (Zpos m2) + e2)))
               (e1 - e2)).
  set (s := e1 - e2 - e').
  assert (Hs : 0 <= s) by (unfold s, e'; lia).
  set (m' := match s with
             | 0 => Zpos m1
             | Zpos _ => Z.shiftl (Zpos m1) s
             | Zneg _ => 0
             end).
  assert (Hm' : m' = Zpos m1 * 2 ^ s).
  { unfold m'. destruct s as [| k | k]; try lia.
    rewrite Z.shiftl_mul_pow2 by lia. reflexivity. }
  pose proof (Z_div_mod m' (Zpos m2) ltac:(lia)) as Hdiv.
  destruct (Z.div_eucl m' (Zpos m2)) as [q r]. destruct Hdiv as [Heq Hr].
  exists q, e', (new_location (Zpos m2) r).
  split; [reflexivity |]. split; [reflexivity |].
  assert (Hm'pos : 0 <= m').
  { rewrite Hm'. apply Z.mul_nonneg_nonneg; [lia | apply Z.pow_nonneg; lia]. }
  split; [nia |].
  subst s. rewrite <- Hm', Heq. apply new_location_located. exact Hr.
Qed.

(** *** Division, multiplication *)

Definition f53 (K : Z) : Z := Z.max (K - 53) (-1074).

Lemma Rabs_le_inv (a b : R) : (Rabs a <= b)%R -> (- b <= a <= b)%R.
Proof. unfold Rabs. destruct (Rcase_abs a); lra. Qed.

Lemma bpow_opp (e : Z) : bpow (- e) = (/ bpow e)%R.
Proof.
  pose proof (bpow_pos e) as He.
  apply Rmult_eq_reg_l with (bpow e); [| lra].
  rewrite <- bpow_add, Z.add_opp_diag_r, Rinv_r by lra. reflexivity.
Qed.

Lemma div_error (sp : bool) (mp m2 : positive) (ep e2 K : Z) :
  (IZR (Zpos mp) * bpow ep < IZR (Zpos m2) * bpow e2 * bpow K)%R ->
  Zdigits2 (Zpos mp) + ep - (Zdigits2 (Zpos m2) + e2) <= K ->
  K <= 1000 ->
  let x := SFdiv prec emax (S754_finite sp mp ep) (S754_finite false m2 e2) in
  (x = S754_zero sp \/ exists m e, x = S754_finite sp m e /\ e <= f53 K + 1) /\
  (Rabs (mag x - IZR (Zpos mp) * bpow ep / (IZR (Zpos m2) * bpow e2))
   <= bpow (f53 K - 1))%R.
Proof.
  intros Hlt Hd HK x. subst x. unfold SFdiv.
  destruct (div_core_located mp m2 ep e2) as (q & e' & loc & Hcore & He' & Hq & Hloc).
  rewrite Hcore, xorb_false_r.
  assert (Hs : 0 <= ep - e2 - e') by lia.
  pose proof (bpow_pos ep) as Hep. pose proof (bpow_pos e2) as He2.
  pose proof (bpow_pos e') as Hbe'. pose proof (bpow_pos K) as HbK.
  assert (Hm2 : (0 < IZR (Zpos m2))%R) by (apply IZR_lt; lia).
  assert (Hval : (IZR (Zpos mp * 2 ^ (ep - e2 - e')) / IZR (Zpos m2) * bpow e' =
                  IZR (Zpos mp) * bpow ep / (IZR (Zpos m2) * bpow e2))%R).
  { rewrite mult_IZR, bpow_IZR by lia.
    replace (ep - e2 - e') with (ep + (- e2 + - e')) by lia.
    rewrite !bpow_add, !bpow_opp. field. lra. }
  assert (Hf : e' <= f53 K).
  { rewrite fexp64 in He'. unfold f53. lia. }
  assert (Hb : (IZR (Zpos mp * 2 ^ (ep - e2 - e')) / IZR (Zpos m2) * bpow e' < bpow K)%R).
  { rewrite Hval. apply Rmult_lt_reg_r with (IZR (Zpos m2) * bpow e2)%R; [nra |].
    replace (IZR (Zpos mp) * bpow ep / (IZR (Zpos m2) * bpow e2) *
             (IZR (Zpos m2) * bpow e2))%R with (IZR (Zpos mp) * bpow ep)%R
      by (field; lra).
    lra. }
  pose proof (round_exponent_bound q e' loc _ _ K Hq (Pos2Z.is_pos m2) Hloc Hb Hf)
    as He1.
  fold (f53 K) in He1.
  assert (Hmax : Z.max e' (fexp prec emax (Zdigits2 q + e')) + 1 <= 971)
    by (unfold f53 in He1; lia).
  destruct (round_aux_error sp q e' loc _ _ _ Hq (Pos2Z.is_pos m2) Hloc eq_refl Hmax)
    as [Hshape Herr].
  split.
  - destruct Hshape as [-> | (m & e & -> & He)]; [left; reflexivity |].
    right. exists m, e. split; [reflexivity | lia].
  - rewrite Hval in Herr. eapply Rle_trans; [exact Herr |].
    apply bpow_le. lia.
Qed.

Lemma mul_error (s : bool) (mx m2 : positive) (ex e2 K : Z) :
  (IZR (Zpos mx) * bpow ex * (IZR (Zpos m2) * bpow e2) < bpow K)%R ->
  ex + e2 <= f53 K ->
  K <= 1000 ->
  let y := SFmul prec emax (S754_finite s mx ex) (S754_finite false m2 e2) in
  (y = S754_zero s \/ exists m e, y = S754_finite s m e /\ e <= f53 K + 1) /\
  (Rabs (mag y - IZR (Zpos mx) * bpow ex * (IZR (Zpos m2) * bpow e2))
   <= bpow (f53 K - 1))%R.
Proof.
  intros Hlt He HK y. subst y. unfold SFmul. rewrite xorb_false_r.
  assert (Hloc : located (Zpos (mx * m2)) loc_Exact (Zpos (mx * m2)) 1).
  { cbn [located]. lia. }
  assert (Hval : (IZR (Zpos (mx * m2)) / IZR 1 * bpow (ex + e2) =
                  IZR (Zpos mx) * bpow ex * (IZR (Zpos m2) * bpow e2))%R).
  { rewrite Pos2Z.inj_mul, mult_IZR, bpow_add. field. }
  assert (Hb : (IZR (Zpos (mx * m2)) / IZR 1 * bpow (ex + e2) < bpow K)%R)
    by (rewrite Hval; exact Hlt).
  pose proof (round_exponent_bound _ _ _ _ _ K (Pos2Z.is_nonneg (mx * m2)) Z.lt_0_1
                Hloc Hb He) as He1.
  fold (f53 K) in He1.
  assert (Hmax : Z.max (ex + e2) (fexp prec emax (Zdigits2 (Zpos (mx * m2)) + (ex + e2)))
                 + 1 <= 971)
    by (unfold f53 in He1; lia).
  destruct (round_aux_error s _ _ _ _ _ _ (Pos2Z.is_nonneg (mx * m2)) Z.lt_0_1
              Hloc eq_refl Hmax) as [Hshape Herr].
  split.
  - destruct Hshape as [-> | (m & e & -> & He')]; [left; reflexivity |].
    right. exists m, e. split; [reflexivity | lia].
  - rewrite Hval in Herr. eapply Rle_trans; [exact Herr |].
    apply bpow_le. lia.
Qed.

(** Dividing by a rate and multiplying by it again: two roundings. *)
Lemma div_mul_error (sp : bool) (mp m2 : positive) (ep e2 K : Z) :
  (IZR (Zpos mp) * bpow ep <= 4194304)%R ->
  (4194304 < IZR (Zpos m2) * bpow e2 * bpow K)%R ->
  (IZR (Zpos m2) * bpow e2 * bpow (f53 K - 1) < 4194304)%R ->
  Zdigits2 (Zpos mp) + ep - (Zdigits2 (Zpos m2) + e2) <= K ->
  f53 K + 1 + e2 <= -30 ->
  K <= 1000 ->
  let rate := S754_finite false m2 e2 in
  let y := SFmul prec emax (SFdiv prec emax (S754_finite sp mp ep) rate) rate in
  (y = S754_zero sp \/ exists m e, y = S754_finite sp m e) /\
  (Rabs (mag y - IZR (Zpos mp) * bpow ep)
   <= IZR (Zpos m2) * bpow e2 * bpow (f53 K - 1) + bpow (-31))%R.
Proof.
  intros HP HK1 Hsmall Hd He2 HK rate y. subst y rate.
  assert (HRt : (0 < IZR (Zpos m2) * bpow e2)%R).
  { apply Rmult_lt_0_compat; [apply IZR_lt; lia | apply bpow_pos]. }
  assert (HP0 : (0 < IZR (Zpos mp) * bpow ep)%R).
  { apply Rmult_lt_0_compat; [apply IZR_lt; lia | apply bpow_pos]. }
  pose proof (div_error sp mp m2 ep e2 K) as Hdiv.
  pose proof (fun mx ex => mul_error sp mx m2 ex e2 23) as Hmul.
  cbv zeta in Hdiv, Hmul.
  remember (IZR (Zpos mp) * bpow ep)%R as P eqn:EP.
  remember (IZR (Zpos m2) * bpow e2)%R as Rt eqn:ERt.
  clear EP ERt.
  pose proof (bpow_pos (f53 K - 1)) as Hu.
  pose proof (bpow_pos (-31)) as Hv.
  assert (Hlt : (P < Rt * bpow K)%R) by lra.
  destruct (Hdiv Hlt Hd HK) as [Hshape Herr]. clear Hdiv.
  assert (HPR : (P / Rt * Rt = P)%R) by (field; lra).
  apply Rabs_le_inv in Herr.
  destruct Hshape as [Hx | (mx & ex & Hx & Hex)]; rewrite Hx in *.
  - cbn [SFmul xorb]. rewrite xorb_false_r. split; [left; reflexivity |].
    cbn [mag] in *.
    assert (Hq : (P / Rt <= bpow (f53 K - 1))%R) by lra.
    assert (HPle : (P <= Rt * bpow (f53 K - 1))%R).
    { rewrite <- HPR at 1. rewrite Rmult_comm. apply Rmult_le_compat_l; lra. }
    apply Rabs_le. lra.
  - cbn [mag] in Herr.
    specialize (Hmul mx ex).
    remember (IZR (Zpos mx) * bpow ex)%R as X eqn:EX. clear EX.
    assert (HXP : (- (Rt * bpow (f53 K - 1)) <= X * Rt - P <=
                   Rt * bpow (f53 K - 1))%R).
    { replace (X * Rt - P)%R with ((X - P / Rt) * Rt)%R by (field; lra).
      split.
      - replace (- (Rt * bpow (f53 K - 1)))%R with ((- bpow (f53 K - 1)) * Rt)%R by ring.
        apply Rmult_le_compat_r; lra.
      - rewrite (Rmult_comm Rt). apply Rmult_le_compat_r; lra. }
    assert (H23 : bpow 23 = 8388608%R).
    { rewrite <- bpow_IZR by lia. reflexivity. }
    assert (Hlt2 : (X * Rt < bpow 23)%R) by lra.
    assert (Hex2 : ex + e2 <= f53 23) by (unfold f53 in *; lia).
    destruct (Hmul Hlt2 Hex2 ltac:(lia)) as [Hshape2 Herr2].
    split.
    + destruct Hshape2 as [-> | (m & e & -> & _)]; [left; reflexivity |].
      right. exists m, e. reflexivity.
    + change (f53 23 - 1) with (-31) in Herr2.
      apply Rabs_le_inv in Herr2. apply Rabs_le. lra.
Qed.

(** *** Subtraction and order *)

Lemma shl_align_value (mx : positive) (ex ex' : Z) :
  snd (shl_align mx ex ex') = Z.min ex ex' /\
  (IZR (Zpos (fst (shl_align mx ex ex'))) * bpow (snd (shl_align mx ex ex')) =
   IZR (Zpos mx) * bpow ex)%R.
Proof.
  unfold shl_align. destruct (ex' - ex) as [| d | d] eqn:E; cbn [fst snd].
  - split; [lia | reflexivity].
  - split; [lia | reflexivity].
  - split; [lia |].
    change (Pos.iter xO mx d) with (shift_pos d mx).
    rewrite shift_pos_correct.
    change (Z.pow_pos 2 d) with (2 ^ Zpos d).
    rewrite mult_IZR, bpow_IZR by lia.
    replace ex with (Zpos d + ex') by lia. rewrite bpow_add. ring.
Qed.

Lemma digits_exponent_bound (mx : positive) (ex K : Z) :
  (IZR (Zpos mx) * bpow ex < bpow K)%R -> Zdigits2 (Zpos mx) + ex <= K.
Proof.
  intros Hlt.
  destruct (digits_bounds (Zpos mx) ltac:(lia)) as [[Hlo _] Hd].
  pose proof (bpow_pos ex) as Hex.
  assert (H2 : (bpow (Zdigits2 (Zpos mx) - 1) <= IZR (Zpos mx))%R).
  { rewrite <- bpow_IZR by lia. apply IZR_le. exact Hlo. }
  assert (H3 : (bpow (Zdigits2 (Zpos mx) - 1 + ex) < bpow K)%R).
  { rewrite bpow_add. eapply Rle_lt_trans; [| exact Hlt].
    apply Rmult_le_compat_r; lra. }
  apply bpow_lt_inv in H3. lia.
Qed.

Lemma binary_round_error (s : bool) (mx : positive) (ex K : Z) :
  (IZR (Zpos mx) * bpow ex < bpow K)%R ->
  K <= 1000 ->
  let z := binary_round prec emax s mx ex in
  (z = S754_zero s \/ exists m e, z = S754_finite s m e) /\
  (Rabs (mag z - IZR (Zpos mx) * bpow ex) <= bpow (f53 K - 1))%R.
Proof.
  intros Hlt HK z. subst z. unfold binary_round.
  pose proof (shl_align_value mx ex (fexp prec emax (Zpos (digits2_pos mx) + ex)))
    as [Hez Hval].
  pose proof (digits_exponent_bound mx ex K Hlt) as Hd. simpl Zdigits2 in Hd.
  destruct (shl_align mx ex (fexp prec emax (Zpos (digits2_pos mx) + ex)))
    as [mz ez]. cbn [fst snd] in Hez, Hval.
  assert (Hf : ez <= f53 K) by (rewrite fexp64 in Hez; unfold f53; lia).
  assert (Hloc : located (Zpos mz) loc_Exact (Zpos mz) 1) by (cbn [located]; lia).
  assert (Hv : (IZR (Zpos mz) / IZR 1 * bpow ez = IZR (Zpos mx) * bpow ex)%R).
  { rewrite <- Hval. field. }
  assert (Hb : (IZR (Zpos mz) / IZR 1 * bpow ez < bpow K)%R) by (rewrite Hv; exact Hlt).
  pose proof (round_exponent_bound _ _ _ _ _ K (Pos2Z.is_nonneg mz) Z.lt_0_1 Hloc Hb Hf)
    as He1.
  fold (f53 K) in He1.
  assert (Hmax : Z.max ez (fexp prec emax (Zdigits2 (Zpos mz) + ez)) + 1 <= 971)
    by (unfold f53 in He1; lia).
  destruct (round_aux_error s _ _ _ _ _ _ (Pos2Z.is_nonneg mz) Z.lt_0_1 Hloc eq_refl Hmax)
    as [Hshape Herr].
  split.
  - destruct Hshape as [-> | (m & e & -> & _)]; [left; reflexivity |].
    right. exists m, e. reflexivity.
  - rewrite Hv in Herr. eapply Rle_trans; [exact Herr |]. apply bpow_le. lia.
Qed.

(** The difference of two positive floats. *)
Lemma sub_error (my mp : positive) (ey ep K : Z) :
  (Rabs (IZR (Zpos my) * bpow ey - IZR (Zpos mp) * bpow ep) < bpow K)%R ->
  K <= 1000 ->
  let z := SFsub prec emax (S754_finite false my ey) (S754_finite false mp ep) in
  ((exists s, z = S754_zero s) \/ exists s m e, z = S754_finite s m e) /\
  (mag z <= Rabs (IZR (Zpos my) * bpow ey - IZR (Zpos mp) * bpow ep)
            + bpow (f53 K - 1))%R.
Proof.
  intros Hlt HK z. subst z. unfold SFsub. cbn [cond_Zopp].
  destruct (shl_align_value my ey (Z.min ey ep)) as [He1 Hv1].
  destruct (shl_align_value mp ep (Z.min ey ep)) as [He2 Hv2].
  replace (Z.min ey (Z.min ey ep)) with (Z.min ey ep) in He1 by lia.
  replace (Z.min ep (Z.min ey ep)) with (Z.min ey ep) in He2 by lia.
  rewrite He1 in Hv1. rewrite He2 in Hv2.
  set (a := fst (shl_align my ey (Z.min ey ep))) in *.
  set (b := fst (shl_align mp ep (Z.min ey ep))) in *.
  rewrite <- Hv1, <- Hv2 in *.
  clear Hv1 Hv2 He1 He2.
  pose proof (bpow_pos (f53 K - 1)) as Hu.
  assert (Hdiff : (IZR (Zpos a) * bpow (Z.min ey ep) - IZR (Zpos b) * bpow (Z.min ey ep) =
                   IZR (Zpos a - Zpos b) * bpow (Z.min ey ep))%R).
  { rewrite minus_IZR. ring. }
  rewrite Hdiff in *. clear Hdiff.
  pose proof (bpow_pos (Z.min ey ep)) as Hez.
  destruct (Zpos a - Zpos b) as [| d | d]; cbn [binary_normalize].
  - split; [left; eexists; reflexivity |]. cbn [mag].
    pose proof (Rabs_pos (0 * bpow (Z.min ey ep))). lra.
  - assert (Hpos : (0 < IZR (Zpos d) * bpow (Z.min ey ep))%R).
    { apply Rmult_lt_0_compat; [apply IZR_lt; lia | exact Hez]. }
    rewrite Rabs_pos_eq in * by lra.
    destruct (binary_round_error false d (Z.min ey ep) K Hlt HK) as [Hshape Herr].
    apply Rabs_le_inv in Herr.
    split; [| lra].
    destruct Hshape as [-> | (m & e & ->)]; [left | right]; repeat eexists.
  - assert (Hpos : (0 < IZR (Zpos d) * bpow (Z.min ey ep))%R).
    { apply Rmult_lt_0_compat; [apply IZR_lt; lia | exact Hez]. }
    assert (Hneg : (IZR (Zneg d) * bpow (Z.min ey ep) =
                    - (IZR (Zpos d) * bpow (Z.min ey ep)))%R).
    { change (Zneg d) with (- Zpos d). rewrite opp_IZR. ring. }
    rewrite Hneg, Rabs_Ropp, Rabs_pos_eq in * by lra.
    destruct (binary_round_error true d (Z.min ey ep) K Hlt HK) as [Hshape Herr].
    apply Rabs_le_inv in Herr.
    split; [| lra].
    destruct Hshape as [-> | (m & e & ->)]; [left | right]; repeat eexists.
Qed.

(** The order of two positive floats is the order of their values. *)
Lemma leb_of_mag (m mc : positive) (e ec : Z) :
  SpecFloat.bounded prec emax m e = true ->
  SpecFloat.bounded prec emax mc ec = true ->
  (IZR (Zpos m) * bpow e <= IZR (Zpos mc) * bpow ec)%R ->
  SFleb (S754_finite false m e) (S754_finite false mc ec) = true.
Proof.
  intros Hb Hbc Hle.
  destruct (FloatExact.bounded_inv m e Hb) as [Hc _].
  destruct (FloatExact.bounded_inv mc ec Hbc) as [Hcc _].
  rewrite fexp64 in Hc, Hcc.
  unfold SFleb, SFcompare.
  destruct (Z.compare_spec e ec) as [-> | Hlt | Hgt].
  - destruct (Pos.compare_cont Eq m mc) eqn:E; try reflexivity.
    exfalso. change (Pos.compare_cont Eq m mc) with (Pos.compare m mc) in E.
    apply Pos.compare_gt_iff in E.
    pose proof (bpow_pos ec) as Hec.
    apply Rmult_le_reg_r in Hle; [| exact Hec].
    apply le_IZR in Hle. lia.
  - reflexivity.
  - exfalso.
    destruct (digits_bounds (Zpos m) ltac:(lia)) as [[Hlo _] _].
    destruct (digits_bounds (Zpos mc) ltac:(lia)) as [[_ Hhi] _].
    simpl Zdigits2 in Hlo, Hhi.
    assert (Hd : Zpos (digits2_pos m) = 53) by lia.
    assert (Hdc : Zpos (digits2_pos mc) <= 53) by lia.
    rewrite Hd in Hlo.
    assert (Hhi' : Zpos mc < 2 ^ 53).
    { eapply Z.lt_le_trans; [exact Hhi |]. apply Z.pow_le_mono_r; lia. }
    apply IZR_le in Hlo. apply IZR_lt in Hhi'.
    rewrite bpow_IZR in Hlo, Hhi' by lia.
    pose proof (bpow_pos e) as He. pose proof (bpow_pos ec) as Hec.
    assert (H1 : (bpow (53 + ec) <= bpow (53 - 1 + e))%R) by (apply bpow_le; lia).
    rewrite !bpow_add in H1.
    assert (H2 : (bpow (53 - 1) * bpow e <= IZR (Zpos m) * bpow e)%R)
      by (apply Rmult_le_compat_r; lra).
    assert (H3 : (IZR (Zpos mc) * bpow ec < bpow 53 * bpow ec)%R)
      by (apply Rmult_lt_compat_r; lra).
    lra.
Qed.

(** *** Floats between 0 and 4194304, and floats that are close *)

Lemma bpow_neg (k : Z) : 0 <= k -> bpow (- k) = (/ IZR (2 ^ k))%R.
Proof. intros Hk. rewrite bpow_opp, bpow_IZR by exact Hk. reflexivity. Qed.

Lemma bpow_nonneg (k : Z) : 0 <= k -> bpow k = IZR (2 ^ k).
Proof. intros Hk. symmetry. apply bpow_IZR. exact Hk. Qed.

(** Powers of two with a literal exponent, as rationals. *)
Ltac bpow_eval :=
  repeat match goal with
  | |- context [bpow (Zneg ?k)] =>
      let v := eval vm_compute in (2 ^ Zpos k) in
      replace (bpow (Zneg k)) with (/ IZR v)%R
        by (symmetry; exact (bpow_neg (Zpos k) (Pos2Z.is_nonneg k)))
  | |- context [bpow (Zpos ?k)] =>
      let v := eval vm_compute in (2 ^ Zpos k) in
      replace (bpow (Zpos k)) with (IZR v)
        by (symmetry; exact (bpow_nonneg (Zpos k) (Pos2Z.is_nonneg k)))
  end.

(** The value of the float 1e-9. *)
Definition tolerance : R := (IZR 4835703278458517 * bpow (-82))%R.

Lemma tolerance_small : (tolerance < bpow (-29))%R.
Proof. unfold tolerance. bpow_eval. lra. Qed.

Lemma mantissa_bound (m : positive) (e : Z) :
  SpecFloat.bounded prec emax m e = true ->
  Zpos (digits2_pos m) <= 53 /\ Zpos m < 2 ^ 53.
Proof.
  intros Hv.
  destruct (FloatExact.bounded_inv m e Hv) as [Hc _]. rewrite fexp64 in Hc.
  destruct (digits_bounds (Zpos m) ltac:(lia)) as [[_ Hhi] _].
  simpl Zdigits2 in Hhi.
  assert (Hd : Zpos (digits2_pos m) <= 53) by lia.
  split; [exact Hd |].
  eapply Z.lt_le_trans; [exact Hhi |]. apply Z.pow_le_mono_r; lia.
Qed.

Lemma value_bound_top (m : positive) :
  (m <= 4503599627370496)%positive ->
  (IZR (Zpos m) * bpow (-30) <= 4194304)%R.
Proof.
  intros Hle. apply Pos2Z.pos_le_pos in Hle. apply IZR_le in Hle.
  replace 4194304%R with (4503599627370496 * bpow (-30))%R by (bpow_eval; lra).
  apply Rmult_le_compat_r; [pose proof (bpow_pos (-30)); lra | exact Hle].
Qed.

Lemma value_bound_below (m : positive) (e : Z) :
  Zpos m < 2 ^ 53 -> e < -30 ->
  (IZR (Zpos m) * bpow e <= 4194304)%R.
Proof.
  intros Hm He.
  apply IZR_lt in Hm. rewrite bpow_IZR in Hm by lia.
  assert (Hb : (bpow e <= bpow (-31))%R) by (apply bpow_le; lia).
  replace 4194304%R with (bpow 53 * bpow (-31))%R by (bpow_eval; lra).
  pose proof (bpow_pos 53) as H53. pose proof (bpow_pos e) as Hpe.
  pose proof (bpow_pos (-31)) as H31.
  assert (Hm0 : (0 < IZR (Zpos m))%R) by (apply IZR_lt; lia).
  apply Rle_trans with (IZR (Zpos m) * bpow (-31))%R.
  - apply Rmult_le_compat_l; lra.
  - apply Rmult_le_compat_r; lra.
Qed.

Lemma leb_finite_inv (m c : positive) (e ec : Z) :
  SFleb (S754_finite false m e) (S754_finite false c ec) = true ->
  e < ec \/ (e = ec /\ (m <= c)%positive).
Proof.
  intros H1.
  unfold SFleb, SFcompare in H1.
  destruct (Z.compare_spec e ec) as [He | Hlt | Hgt]; [| | discriminate H1].
  - right. split; [exact He |].
    intros E. change (Pos.compare_cont Eq m c = Gt) in E.
    rewrite E in H1. discriminate H1.
  - left. exact Hlt.
Qed.

(** The floats between 0 and 4194304. *)
Lemma range_shape_spec (x : spec_float) :
  valid_binary x = true ->
  SFleb (S754_zero false) x = true ->
  SFleb x (S754_finite false 4503599627370496 (-30)) = true ->
  (exists s, x = S754_zero s) \/
  exists m e, x = S754_finite false m e /\
              SpecFloat.bounded prec emax m e = true /\
              (IZR (Zpos m) * bpow e <= 4194304)%R /\
              Zdigits2 (Zpos m) + e <= 23.
Proof.
  intros Hv H0 H1.
  destruct x as [s | s | | s m e].
  - left. exists s. reflexivity.
  - destruct s; [discriminate H0 | discriminate H1].
  - discriminate H0.
  - right. destruct s; [discriminate H0 |]. exists m, e.
    change (SpecFloat.bounded prec emax m e = true) in Hv.
    split; [reflexivity |]. split; [exact Hv |].
    destruct (mantissa_bound m e Hv) as [Hd Hm].
    simpl Zdigits2.
    destruct (leb_finite_inv _ _ _ _ H1) as [Hlt | [He Hle]]; clear H0 H1.
    + split; [apply value_bound_below; assumption | clear - Hd Hlt; lia].
    + subst e. split; [apply value_bound_top; exact Hle | clear - Hd; lia].
Qed.

Lemma range_shape (p : float) :
  (0 <=? p)%float = true -> (p <=? 4194304)%float = true ->
  (exists s, Prim2SF p = S754_zero s) \/
  exists m e, Prim2SF p = S754_finite false m e /\
              SpecFloat.bounded prec emax m e = true /\
              (IZR (Zpos m) * bpow e <= 4194304)%R /\
              Zdigits2 (Zpos m) + e <= 23.
Proof.
  intros H0 H1. rewrite FloatAxioms.leb_spec in H0, H1.
  apply range_shape_spec; [apply Prim2SF_valid | exact H0 | exact H1].
Qed.

Lemma close_zero (y p : float) (s s' : bool) :
  Prim2SF p = S754_zero s -> Prim2SF y = S754_zero s' ->
  (abs (y - p) <=? 1e-9)%float = true.
Proof.
  intros Hp Hy.
  rewrite FloatAxioms.leb_spec, abs_spec, sub_spec, Hp, Hy.
  destruct s, s'; reflexivity.
Qed.

(** Two positive floats whose values are close are close as floats. *)
Lemma close_of_mag (y p : float) (m : positive) (e : Z) :
  Prim2SF p = S754_finite false m e ->
  (Prim2SF y = S754_zero false \/ exists my ey, Prim2SF y = S754_finite false my ey) ->
  (Rabs (mag (Prim2SF y) - IZR (Zpos m) * bpow e) + bpow (-83) <= tolerance)%R ->
  (abs (y - p) <=? 1e-9)%float = true.
Proof.
  intros Hp Hy Hclose.
  pose proof (Prim2SF_valid p) as Hvp. rewrite Hp in Hvp. cbn [valid_binary] in Hvp.
  pose proof (Prim2SF_valid (y - p)) as Hvz.
  rewrite FloatAxioms.leb_spec, abs_spec.
  rewrite sub_spec in *. rewrite Hp in *.
  change (Prim2SF 1e-9) with (S754_finite false 4835703278458517 (-82)).
  pose proof (bpow_pos (-83)) as H83.
  pose proof tolerance_small as Htol.
  destruct Hy as [Hy | (my & ey & Hy)]; rewrite Hy in *.
  - cbn [SF64sub SFsub negb SFabs]. cbn [mag] in Hclose.
    apply leb_of_mag; [exact Hvp | reflexivity |].
    assert (Habs : (Rabs (0 - IZR (Zpos m) * bpow e) <= tolerance)%R) by lra.
    apply Rabs_le_inv in Habs. fold tolerance. lra.
  - unfold SF64sub in *.
    cbn [mag] in Hclose.
    assert (Hlt : (Rabs (IZR (Zpos my) * bpow ey - IZR (Zpos m) * bpow e) < bpow (-29))%R)
      by lra.
    destruct (sub_error my m ey e (-29) Hlt ltac:(lia)) as [Hshape Hmag].
    change (f53 (-29) - 1) with (-83) in Hmag.
    destruct Hshape as [[s Hz] | (s & mz & ez & Hz)]; rewrite Hz in *.
    + reflexivity.
    + cbn [SFabs]. cbn [valid_binary] in Hvz. cbn [mag] in Hmag.
      apply leb_of_mag; [exact Hvz | reflexivity |].
      fold tolerance. lra.
Qed.

End Rounding.

(** ** The conversion round trip *)

Module Conversion.

(** [to_gp(from_gp(p)[unit], unit)] *)
Definition round_trip (p : float) (unit : string) : result float :=
  conv <- from_gp p ;;
  x <- subscript conv unit ;;
  to_gp x unit.

(** The round trip returns within 1e-9 of [p]. *)
Definition round_trip_within (p : float) (unit : string) : Prop :=
  exists y, round_trip p unit = inr y /\ (abs (y - p) <=? 1e-9)%float = true.

(** C2, as stated, fails: the price 12345678.9 is at least 0, and through
    [pp] it comes back as 12345678.900000002, further than 1e-9 away. *)
Lemma round_trip_drifts :
  (0 <=? 12345678.9)%float = true /\
  In "pp" UNITS /\
  ~ round_trip_within 12345678.9%float "pp".
Proof.
  split; [vm_compute; reflexivity |].
  split; [simpl; auto |].
  intros (y & Hy & Hclose).
  vm_compute in Hy. injection Hy as <-.
  vm_compute in Hclose. discriminate.
Qed.

Lemma ideal_rate_nonzero (u : Ideal.Denomination) : ~ (Ideal.rate u == 0)%Q.
Proof. destruct u; discriminate. Qed.

(** In exact arithmetic, with the rates 10, 1, 0.5, 0.1 and 0.01, the round
    trip is the identity for every price and denomination. On floats the
    table holds the floats nearest to these rates, and the round trip
    through [gp] returns [p] itself, for every float [p]. *)
Lemma round_trip_exact :
  (forall (q : Q) (u : Ideal.Denomination),
      (Ideal.to_base (Ideal.from_base q u) u == q)%Q) /\
  (forall p : float, round_trip p "gp" = inr p) /\
  UNIT_TO_GP =
    [("pp", SF2Prim (Flt.of_decimal false 10 0));
     ("gp", SF2Prim (Flt.of_decimal false 1 0));
     ("ep", SF2Prim (Flt.of_decimal false 5 (-1)));
     ("sp", SF2Prim (Flt.of_decimal false 1 (-1)));
     ("cp", SF2Prim (Flt.of_decimal false 1 (-2)))].
Proof.
  split; [| split].
  - intros q u. unfold Ideal.to_base, Ideal.from_base.
    rewrite Qmult_comm. apply Qmult_div_r. apply ideal_rate_nonzero.
  - intros p. unfold round_trip, from_gp, to_gp. simpl.
    rewrite FloatExact.mul_one. reflexivity.
  - vm_compute. reflexivity.
Qed.

Import Rounding.

(** Dividing a price of at most 4194304 by a rate and multiplying by it
    again: the result is within 1e-9 of the price, when the two roundings
    are small enough for the rate. *)
Lemma within_rate (p r : float) (m2 : positive) (e2 K : Z) :
  Prim2SF r = S754_finite false m2 e2 ->
  (4194304 < IZR (Zpos m2) * bpow e2 * bpow K)%R ->
  (IZR (Zpos m2) * bpow e2 * bpow (f53 K - 1) + bpow (-31) + bpow (-83)
   <= tolerance)%R ->
  23 - (Zdigits2 (Zpos m2) + e2) <= K ->
  f53 K + 1 + e2 <= -30 ->
  K <= 1000 ->
  (0 <=? p)%float = true -> (p <=? 4194304)%float = true ->
  (abs (p / r * r - p) <=? 1e-9)%float = true.
Proof.
  intros Hr H1 H2 H3 H4 HK Hp0 Hp1.
  assert (Hy : Prim2SF (p / r * r) =
               SFmul prec emax
                 (SFdiv prec emax (Prim2SF p) (S754_finite false m2 e2))
                 (S754_finite false m2 e2)).
  { rewrite mul_spec, div_spec, Hr. reflexivity. }
  destruct (range_shape p Hp0 Hp1) as [[s Hz] | (m & e & Hpe & Hb & Hval & Hd)].
  - rewrite Hz in Hy.
    exact (close_zero _ _ s (xorb (xorb s false) false) Hz Hy).
  - rewrite Hpe in Hy.
    pose proof tolerance_small as Htol.
    assert (H29 : (bpow (-29) < 4194304)%R) by (bpow_eval; lra).
    pose proof (bpow_pos (-31)) as H31. pose proof (bpow_pos (-83)) as H83.
    assert (Hsmall : (IZR (Zpos m2) * bpow e2 * bpow (f53 K - 1) < 4194304)%R) by lra.
    assert (Hd' : Zdigits2 (Zpos m) + e - (Zdigits2 (Zpos m2) + e2) <= K) by lia.
    pose proof (div_mul_error false m m2 e e2 K Hval H1 Hsmall Hd' H4 HK) as Hdm.
    cbv zeta in Hdm. rewrite <- Hy in Hdm. destruct Hdm as [Hshape Herr].
    apply (close_of_mag _ _ m e Hpe).
    + destruct Hshape as [Hs | (my & ey & Hs)]; [left; exact Hs |].
      right. exists my, ey. exact Hs.
    + lra.
Qed.

Lemma within_self (p : float) :
  (0 <=? p)%float = true -> (p <=? 4194304)%float = true ->
  (abs (p - p) <=? 1e-9)%float = true.
Proof.
  intros Hp0 Hp1.
  destruct (range_shape p Hp0 Hp1) as [[s Hz] | (m & e & Hpe & _)].
  - exact (close_zero p p s s Hz Hz).
  - apply (close_of_mag p p m e Hpe).
    + right. exists m, e. exact Hpe.
    + rewrite Hpe. cbn [mag]. rewrite Rminus_diag, Rabs_R0.
      unfold tolerance. bpow_eval. lra.
Qed.

(** C2, amended. For every denomination and every price [p] with
    [0 <= p <= 4194304] (2^22), the round trip [to_gp(from_gp(p)[unit], unit)]
    returns a float [y] with [abs(y - p) <= 1e-9], all in binary64
    arithmetic: the division and the multiplication each round to half a
    unit in the last place, and up to 2^22 the two roundings stay below
    1e-9. *)
Theorem round_trip_close (p : float) (unit : string) :
  In unit UNITS ->
  (0 <=? p)%float = true -> (p <=? 4194304)%float = true ->
  round_trip_within p unit.
Proof.
  intros Hin Hp0 Hp1. unfold round_trip_within.
  simpl in Hin. destruct Hin as [<- | [<- | [<- | [<- | [<- | []]]]]].
  - exists (p / 10 * 10)%float. split; [reflexivity |].
    apply (within_rate p 10 5629499534213120 (-49) 19); try assumption.
    + reflexivity.
    + bpow_eval. lra.
    + change (f53 19 - 1) with (-35). unfold tolerance. bpow_eval. lra.
    + vm_compute. discriminate.
    + vm_compute. discriminate.
    + lia.
  - exists p. split.
    + unfold round_trip, from_gp, to_gp. simpl.
      rewrite FloatExact.mul_one. reflexivity.
    + apply within_self; assumption.
  - exists (p / 0.5 * 0.5)%float. split; [reflexivity |].
    apply (within_rate p 0.5 4503599627370496 (-53) 24); try assumption.
    + reflexivity.
    + bpow_eval. lra.
    + change (f53 24 - 1) with (-30). unfold tolerance. bpow_eval. lra.
    + vm_compute. discriminate.
    + vm_compute. discriminate.
    + lia.
  - exists (p / 0.1 * 0.1)%float. split; [reflexivity |].
    apply (within_rate p 0.1 7205759403792794 (-56) 26); try assumption.
    + reflexivity.
    + bpow_eval. lra.
    + change (f53 26 - 1) with (-28). unfold tolerance. bpow_eval. lra.
    + vm_compute. discriminate.
    + vm_compute. discriminate.
    + lia.
  - exists (p / 0.01 * 0.01)%float. split; [reflexivity |].
    apply (within_rate p 0.01 5764607523034235 (-59) 29); try assumption.
    + reflexivity.
    + bpow_eval. lra.
    + change (f53 29 - 1) with (-25). unfold tolerance. bpow_eval. lra.
    + vm_compute. discriminate.
    + vm_compute. discriminate.
    + lia.
Qed.

Lemma round_trip_close_witness :
  In "sp" UNITS /\ round_trip_within 1234.5%float "sp".
Proof.
  assert (Hin : In "sp" UNITS) by (simpl; auto).
  split; [exact Hin |].
  apply (round_trip_close 1234.5%float "sp" Hin); vm_compute; reflexivity.
Defined.

End Conversion.

(** ** Dictionaries keep their keys distinct and in insertion order *)

Module DictOrder.

Section Facts.
Context {V : Type}.

(** A key joins the keys at the end, unless it is there. *)
Definition add_key (ks : list string) (k : string) : list string :=
  if existsb (String.eqb k) ks then ks else ks ++ [k].

(** The elements of a list in the order of their first occurrence. *)
Fixpoint first_occurrences (l : list string) : list string :=
  match l with
  | [] => []
  | x :: rest => x :: filter (fun y => negb (String.eqb y x)) (first_occurrences rest)
  end.

Lemma existsb_eqb_In (k : string) (ks : list string) :
  existsb (String.eqb k) ks = true <-> In k ks.
Proof.
  rewrite existsb_exists. split.
  - intros (x & Hx & E). apply String.eqb_eq in E. subst x. exact Hx.
  - intros H. exists k. split; [exact H | apply String.eqb_refl].
Qed.

Lemma keys_set (k : string) (v : V) (d : Dict.t V) :
  Dict.keys (Dict.set k v d) = add_key (Dict.keys d) k.
Proof.
  unfold add_key, Dict.keys. induction d as [| [k' v'] rest IH]; simpl.
  - reflexivity.
  - destruct (String.eqb k k') eqn:E; simpl.
    + reflexivity.
    + rewrite IH.
      destruct (existsb (String.eqb k) (map fst rest)); reflexivity.
Qed.

Lemma add_key_NoDup (ks : list string) (k : string) :
  NoDup ks -> NoDup (add_key ks k).
Proof.
  intros H. unfold add_key.
  destruct (existsb (String.eqb k) ks) eqn:E; [exact H |].
  apply NoDup_app; [exact H | constructor; [intros [] | constructor] |].
  intros x Hx [<- | []].
  apply existsb_eqb_In in Hx. rewrite Hx in E. discriminate.
Qed.

Lemma get_None_keys (k : string) (d : Dict.t V) :
  Dict.get k d = None <-> ~ In k (Dict.keys d).
Proof.
  induction d as [| [k' v'] rest IH]; simpl.
  - split; [intros _ [] | reflexivity].
  - destruct (String.eqb k k') eqn:E.
    + apply String.eqb_eq in E. subst k'. split; [discriminate |].
      intros H. exfalso. apply H. left. reflexivity.
    + apply String.eqb_neq in E. rewrite IH. split.
      * intros H [H1 | H1]; [apply E; symmetry; exact H1 | exact (H H1)].
      * intros H H1. apply H. right. exact H1.
Qed.

Lemma get_Some_In (k : string) (v : V) (d : Dict.t V) :
  Dict.get k d = Some v -> In (k, v) d.
Proof.
  induction d as [| [k' v'] rest IH]; simpl; [discriminate |].
  destruct (String.eqb k k') eqn:E.
  - apply String.eqb_eq in E. subst k'. intros H. inversion H. left. reflexivity.
  - intros H. right. exact (IH H).
Qed.

Lemma get_app (k : string) (d1 d2 : Dict.t V) :
  Dict.get k (d1 ++ d2) =
  match Dict.get k d1 with
  | Some v => Some v
  | None => Dict.get k d2
  end.
Proof.
  induction d1 as [| [k' v'] rest IH]; simpl; [reflexivity |].
  destruct (String.eqb k k'); [reflexivity | exact IH].
Qed.

(** With distinct keys, the last binding of a key is its only one. *)
Lemma get_rev (k : string) (d : Dict.t V) :
  NoDup (Dict.keys d) -> Dict.get k (rev d) = Dict.get k d.
Proof.
  induction d as [| [k' v'] rest IH]; simpl; intros Hnd; [reflexivity |].
  inversion Hnd as [| ? ? Hnotin Hrest]; subst.
  rewrite get_app, (IH Hrest). simpl.
  destruct (String.eqb k k') eqn:E.
  - apply String.eqb_eq in E. subst k'.
    apply get_None_keys in Hnotin. rewrite Hnotin. reflexivity.
  - destruct (Dict.get k rest); reflexivity.
Qed.

End Facts.

Lemma first_occurrences_In (l : list string) (x : string) :
  In x (first_occurrences l) <-> In x l.
Proof.
  induction l as [| y rest IH]; simpl; [reflexivity |].
  rewrite filter_In, IH. split.
  - intros [H | [H _]]; auto.
  - intros [H | H]; [left; exact H |].
    destruct (String.eqb x y) eqn:E.
    + apply String.eqb_eq in E. left. symmetry. exact E.
    + right. split; [exact H | reflexivity].
Qed.

Lemma first_occurrences_NoDup (l : list string) : NoDup (first_occurrences l).
Proof.
  induction l as [| y rest IH]; simpl; constructor.
  - rewrite filter_In. intros [_ H]. rewrite String.eqb_refl in H. discriminate.
  - apply NoDup_filter. exact IH.
Qed.

Lemma filter_filter {A : Type} (p q : A -> bool) (l : list A) :
  filter p (filter q l) = filter (fun x => (q x && p x)%bool) l.
Proof.
  induction l as [| x rest IH]; simpl; [reflexivity |].
  destruct (q x); simpl; [destruct (p x) |]; rewrite IH; reflexivity.
Qed.

Lemma existsb_app_one (y x : string) (ks : list string) :
  existsb (String.eqb y) (ks ++ [x]) =
  (existsb (String.eqb y) ks || String.eqb y x)%bool.
Proof. rewrite existsb_app. simpl. rewrite orb_false_r. reflexivity. Qed.

(** Adding keys one by one keeps the first occurrence of each. *)
Lemma fold_add_key (l : list string) :
  forall ks,
    fold_left add_key l ks =
    ks ++ filter (fun y => negb (existsb (String.eqb y) ks)) (first_occurrences l).
Proof.
  induction l as [| x rest IH]; intros ks; simpl.
  - rewrite app_nil_r. reflexivity.
  - rewrite IH. unfold add_key.
    destruct (existsb (String.eqb x) ks) eqn:E; simpl.
    + f_equal. rewrite filter_filter. apply filter_ext. intros y.
      destruct (String.eqb y x) eqn:Eyx; simpl; [| reflexivity].
      apply String.eqb_eq in Eyx. subst y. rewrite E. reflexivity.
    + rewrite <- app_assoc. simpl. f_equal. f_equal.
      rewrite filter_filter. apply filter_ext. intros y.
      rewrite existsb_app_one.
      destruct (String.eqb y x), (existsb (String.eqb y) ks); reflexivity.
Qed.

Lemma fold_add_key_nil (l : list string) :
  fold_left add_key l [] = first_occurrences l.
Proof.
  rewrite fold_add_key. simpl.
  generalize (first_occurrences l). intros r.
  induction r as [| x r IH]; simpl; [| rewrite IH]; reflexivity.
Qed.

End DictOrder.

(** ** Stripped text *)

Module Strip.

Lemma lstrip_head (s : string) :
  Str.lstrip s = "" \/
  exists c t, Str.lstrip s = String c t /\ Str.is_space c = false.
Proof.
  induction s as [| c t IH]; simpl; [left; reflexivity |].
  destruct (Str.is_space c) eqn:E; [exact IH |].
  right. exists c, t. split; [reflexivity | exact E].
Qed.

Lemma rstrip_head (c : ascii) (t : string) :
  Str.is_space c = false -> exists t', Str.rstrip (String c t) = String c t'.
Proof.
  intros Hc. simpl. destruct (Str.rstrip t) as [| a r].
  - rewrite Hc. exists "". reflexivity.
  - exists (String a r). reflexivity.
Qed.

Lemma rstrip_idem (s : string) : Str.rstrip (Str.rstrip s) = Str.rstrip s.
Proof.
  induction s as [| c t IH]; simpl; [reflexivity |].
  destruct (Str.rstrip t) as [| a r] eqn:E.
  - destruct (Str.is_space c) eqn:Ec; simpl; [reflexivity |].
    rewrite Ec. reflexivity.
  - change (Str.rstrip (String c (String a r)))
      with (match Str.rstrip (String a r) with
            | "" => if Str.is_space c then "" else String c ""
            | t' => String c t'
            end).
    rewrite IH. reflexivity.
Qed.

(** Stripping twice is stripping once. *)
Lemma strip_idem (s : string) : Str.strip (Str.strip s) = Str.strip s.
Proof.
  unfold Str.strip.
  destruct (lstrip_head s) as [-> | (c & t & -> & Hc)]; [reflexivity |].
  destruct (rstrip_head c t Hc) as [t' E].
  rewrite E. simpl Str.lstrip. rewrite Hc. rewrite <- E. apply rstrip_idem.
Qed.

End Strip.

(** ** The catalog of a file *)

Module Catalog.

Import DictOrder.

(** The names of the accepted entries of an object, in its order. *)
Fixpoint accepted_names (kvs : list (key * json)) : list string :=
  match kvs with
  | [] => []
  | (KNone, _) :: rest => accepted_names rest
  | (KStr k, v) :: rest =>
      match float_of v with
      | inr _ => Str.strip k :: accepted_names rest
      | inl _ => accepted_names rest
      end
  end.

Lemma load_entries_keys (kvs : list (key * json)) :
  forall acc cleaned,
    load_entries kvs acc = inr cleaned ->
    Dict.keys cleaned = fold_left add_key (accepted_names kvs) (Dict.keys acc).
Proof.
  induction kvs as [| [[| k] v] rest IH]; intros acc cleaned H; simpl in *.
  - inversion H. reflexivity.
  - exact (IH _ _ H).
  - destruct (float_of v) as [e | price] eqn:Ev.
    + destruct (is_a e TypeError || is_a e ValueError)%bool; [| discriminate].
      exact (IH _ _ H).
    + simpl. rewrite (IH _ _ H), keys_set. reflexivity.
Qed.

Lemma accepted_names_stripped (kvs : list (key * json)) (name : string) :
  In name (accepted_names kvs) -> Str.strip name = name.
Proof.
  induction kvs as [| [[| k] v] rest IH]; simpl; intros H.
  - destruct H.
  - exact (IH H).
  - destruct (float_of v); [exact (IH H) |].
    destruct H as [<- | H]; [apply Strip.strip_idem | exact (IH H)].
Qed.

Lemma load_prices_json_object (fs : FS) (path : string) (kvs : list (key * json)) :
  Fs.lookup path fs = Some (File true (Json (JDict kvs))) ->
  load_prices_json fs path =
  (_ <- decode recursion_limit (JDict kvs) ;; load_entries kvs []).
Proof.
  intros H. unfold load_prices_json, Fs.read_json. rewrite H.
  unfold bind. destruct (decode recursion_limit (JDict kvs)); reflexivity.
Qed.

(** X1. The catalog of a file lists each accepted name once, at the place
    where the name first occurs among the accepted entries of the file, and
    no name starts or ends with white space: a later entry of the same name
    changes the price, not the place. *)
Theorem catalog_order (fs : FS) (path : string) (kvs : list (key * json))
  (cleaned : Dict.t float) :
  Fs.lookup path fs = Some (File true (Json (JDict kvs))) ->
  load_prices_json fs path = inr cleaned ->
  Dict.keys cleaned = first_occurrences (accepted_names kvs) /\
  NoDup (Dict.keys cleaned) /\
  (forall name, In name (Dict.keys cleaned) -> Str.strip name = name).
Proof.
  intros Hfile Hload. rewrite (load_prices_json_object fs path kvs Hfile) in Hload.
  unfold bind in Hload.
  destruct (decode recursion_limit (JDict kvs)) as [e | u]; [discriminate Hload |].
  pose proof (load_entries_keys kvs [] cleaned Hload) as Hkeys.
  simpl in Hkeys. rewrite fold_add_key_nil in Hkeys.
  split; [exact Hkeys |]. rewrite Hkeys.
  split; [apply first_occurrences_NoDup |].
  intros name Hin.
  exact (accepted_names_stripped kvs name (proj1 (first_occurrences_In _ _) Hin)).
Qed.

Definition shelf : list (key * json) :=
  [(KStr "Rope", JInt 1); (KStr " Dagger", JInt 2); (KStr "Torch", JNull);
   (KStr "Rope ", JFloat 1.5%float); (KStr "Dagger", JStr "x")].

Definition shelf_fs : FS := [("/data/shelf.json", File true (Json (JDict shelf)))].

Lemma catalog_order_witness :
  load_prices_json shelf_fs "/data/shelf.json" =
    inr [("Rope", 1.5%float); ("Dagger", 2%float)] /\
  Dict.keys [("Rope", 1.5%float); ("Dagger", 2%float)] =
    first_occurrences (accepted_names shelf).
Proof.
  assert (Hload : load_prices_json shelf_fs "/data/shelf.json" =
                  inr [("Rope", 1.5%float); ("Dagger", 2%float)])
    by (vm_compute; reflexivity).
  split; [exact Hload |].
  exact (proj1 (catalog_order shelf_fs "/data/shelf.json" shelf _ eq_refl Hload)).
Defined.

End Catalog.

Module Overflow.

Import Rounding.
Import Decoding.










End Overflow.

(** ** Merging all files *)

Module MergeAll.

Import DictOrder.

Lemma load_prices_json_NoDup (fs : FS) (path : string) (data : Dict.t float) :
  load_prices_json fs path = inr data -> NoDup (Dict.keys data).
Proof.
  unfold load_prices_json. destruct (Fs.read_json fs path) as [e | v]; simpl;
    [discriminate |].
  destruct v; try (intros H; inversion H; constructor).
  intros H. rewrite (Catalog.load_entries_keys _ _ _ H). simpl.
  rewrite fold_add_key_nil. apply first_occurrences_NoDup.
Qed.

(** The price of [name] in the last file of the index that loads and holds
    it. *)
Fixpoint last_source (fs : FS) (name : string) (index : Dict.t string)
  : option float :=
  match index with
  | [] => None
  | (_, path) :: rest =>
      match last_source fs name rest with
      | Some x => Some x
      | None =>
          match load_prices_json fs path with
          | inr data => Dict.get name data
          | inl _ => None
          end
      end
  end.

Lemma merge_all_get (fs : FS) (name : string) (index : Dict.t string) :
  forall merged,
    Dict.get name (merge_all fs index merged) =
    match last_source fs name index with
    | Some x => Some x
    | None => Dict.get name merged
    end.
Proof.
  induction index as [| [k path] rest IH]; intros merged; simpl; [reflexivity |].
  destruct (load_prices_json fs path) as [e | data] eqn:El.
  - rewrite IH. destruct (last_source fs name rest); reflexivity.
  - rewrite IH. destruct (last_source fs name rest); [reflexivity |].
    rewrite DictFacts.get_update, (get_rev name data (load_prices_json_NoDup _ _ _ El)).
    reflexivity.
Qed.

Lemma last_source_split (fs : FS) (name : string) (index : Dict.t string) :
  forall x,
    last_source fs name index = Some x <->
    exists l1 k path data l2,
      index = l1 ++ (k, path) :: l2 /\
      load_prices_json fs path = inr data /\
      Dict.get name data = Some x /\
      forall k' path' data',
        In (k', path') l2 -> load_prices_json fs path' = inr data' ->
        Dict.get name data' = None.
Proof.
  induction index as [| [k path] rest IH]; intros x; simpl.
  - split; [discriminate |].
    intros (l1 & k & path & data & l2 & H & _). destruct l1; discriminate.
  - split.
    + destruct (last_source fs name rest) as [y |] eqn:El.
      * intros H. inversion H; subst y.
        destruct (proj1 (IH x) eq_refl) as (l1 & k1 & p1 & d1 & l2 & -> & Hl & Hg & Hrest).
        exists ((k, path) :: l1), k1, p1, d1, l2. auto.
      * destruct (load_prices_json fs path) as [e | data] eqn:Eload; [discriminate |].
        intros Hg. exists [], k, path, data, rest.
        split; [reflexivity |]. split; [exact Eload |]. split; [exact Hg |].
        intros k' path' data' Hin Hload'.
        destruct (Dict.get name data') as [y |] eqn:Ey; [exfalso | reflexivity].
        destruct (in_split _ _ Hin) as (m1 & m2 & ->).
        assert (Hnone : forall y, last_source fs name (m1 ++ (k', path') :: m2) <> Some y).
        { intros y' Hy'. rewrite Hy' in El. discriminate. }
        clear El IH. induction m1 as [| [k0 p0] m1 IHm]; simpl in Hnone.
        -- destruct (last_source fs name m2) as [z |]; [exact (Hnone z eq_refl) |].
           rewrite Hload', Ey in Hnone. exact (Hnone y eq_refl).
        -- apply IHm.
           ++ apply in_or_app. right. left. reflexivity.
           ++ intros y' Hy'. rewrite Hy' in Hnone. exact (Hnone y' eq_refl).
    + intros (l1 & k1 & p1 & d1 & l2 & Heq & Hl & Hg & Hrest).
      destruct l1 as [| [k0 p0] l1]; simpl in Heq; inversion Heq; subst.
      * assert (Hnone : last_source fs name l2 = None).
        { clear Heq IH. induction l2 as [| [k' p'] l2 IHl]; simpl; [reflexivity |].
          rewrite IHl.
          - destruct (load_prices_json fs p') as [e | d'] eqn:E'; [reflexivity |].
            apply (Hrest k' p' d'); [left; reflexivity | exact E'].
          - intros k'' p'' d'' Hin. apply (Hrest k''). right. exact Hin. }
        rewrite Hnone, Hl. exact Hg.
      * assert (Hx : last_source fs name (l1 ++ (k1, p1) :: l2) = Some x).
        { apply IH. exists l1, k1, p1, d1, l2. auto. }
        rewrite Hx. reflexivity.
Qed.

(** X3. With "All files" selected, the catalog gives a name the price of the
    last file of the index that loads and holds the name; a file that does
    not load, or does not hold the name, does not count. *)
Theorem merge_last_source_wins (fs : FS) (a : App) (name : string) (x : float) :
  file_var a = "All files" ->
  (Dict.get name (items (_load_items_for_selection fs a)) = Some x <->
   exists l1 k path data l2,
     file_index a = l1 ++ (k, path) :: l2 /\
     load_prices_json fs path = inr data /\
     Dict.get name data = Some x /\
     forall k' path' data',
       In (k', path') l2 -> load_prices_json fs path' = inr data' ->
       Dict.get name data' = None).
Proof.
  intros Hsel. unfold _load_items_for_selection. rewrite Hsel. simpl.
  rewrite merge_all_get. simpl.
  rewrite <- last_source_split.
  destruct (last_source fs name (file_index a)); split; congruence.
Qed.

Definition two_files_fs : FS :=
  [("/data", Dir);
   ("/data/a.json", File true (Json (JDict [(KStr "Sword", JInt 3); (KStr "Rope", JInt 1)])));
   ("/data/b.json", File true (Json (JDict [(KStr "Sword", JInt 5)])));
   ("/data/c.json", File true NotJson)].

Definition two_files_app : App :=
  mkApp "/data"
    [("a", "/data/a.json"); ("b", "/data/b.json"); ("c", "/data/c.json")]
    ["All files"; "a"; "b"; "c"] "All files" "All files" [] []
    "" "" "" "gp" [] 0 [] [].

Lemma merge_last_source_wins_witness :
  Dict.get "Sword" (items (_load_items_for_selection two_files_fs two_files_app)) =
    Some 5%float.
Proof.
  apply (merge_last_source_wins two_files_fs two_files_app "Sword" 5%float eq_refl).
  exists [("a", "/data/a.json")], "b", "/data/b.json", [("Sword", 5%float)],
    [("c", "/data/c.json")].
  split; [reflexivity |]. split; [vm_compute; reflexivity |].
  split; [reflexivity |].
  intros k' path' data' [Heq | []] Hload. inversion Heq; subst.
  vm_compute in Hload. discriminate.
Defined.

End MergeAll.

(** ** The order of strings *)

Module StrOrder.

Lemma str_ltb_irrefl (a : string) : Str.ltb a a = false.
Proof.
  induction a as [| c t IH]; simpl; [reflexivity |].
  rewrite Nat.ltb_irrefl. exact IH.
Qed.

Lemma str_ltb_asym (a b : string) : Str.ltb a b = true -> Str.ltb b a = false.
Proof.
  revert b. induction a as [| x a IH]; intros [| y b]; simpl; try discriminate;
    try reflexivity.
  destruct (Nat.ltb_spec (nat_of_ascii x) (nat_of_ascii y)) as [H | H].
  - intros _. destruct (Nat.ltb_spec (nat_of_ascii y) (nat_of_ascii x)); [lia | reflexivity].
  - destruct (Nat.ltb_spec (nat_of_ascii y) (nat_of_ascii x)) as [H' | H'];
      [discriminate |].
    apply IH.
Qed.

Lemma str_ltb_negtrans (a b c : string) :
  Str.ltb b a = false -> Str.ltb c b = false -> Str.ltb c a = false.
Proof.
  revert b c. induction a as [| x a IH]; intros b c.
  - intros _ _. destruct c; reflexivity.
  - destruct b as [| y b]; [simpl; discriminate |].
    destruct c as [| z c]; [simpl; intros _; discriminate |]. simpl.
    destruct (Nat.ltb_spec (nat_of_ascii y) (nat_of_ascii x)) as [Hyx | Hyx];
      [discriminate |].
    destruct (Nat.ltb_spec (nat_of_ascii z) (nat_of_ascii y)) as [Hzy | Hzy];
      [intros _; discriminate |].
    destruct (Nat.ltb_spec (nat_of_ascii z) (nat_of_ascii x)) as [Hzx | Hzx]; [lia |].
    destruct (Nat.ltb_spec (nat_of_ascii x) (nat_of_ascii y)) as [Hxy | Hxy].
    + intros _ _.
      destruct (Nat.ltb_spec (nat_of_ascii x) (nat_of_ascii z)); [reflexivity | lia].
    + destruct (Nat.ltb_spec (nat_of_ascii y) (nat_of_ascii z)) as [Hyz | Hyz].
      * intros _ _.
        destruct (Nat.ltb_spec (nat_of_ascii x) (nat_of_ascii z)); [reflexivity | lia].
      * destruct (Nat.ltb_spec (nat_of_ascii x) (nat_of_ascii z)); [lia |].
        apply IH.
Qed.

(** Two strings neither of which is below the other are equal. *)
Lemma str_ltb_total (a b : string) :
  Str.ltb a b = false -> Str.ltb b a = false -> a = b.
Proof.
  revert b. induction a as [| x a IH]; intros [| y b]; simpl; try discriminate;
    try reflexivity.
  destruct (Nat.ltb_spec (nat_of_ascii x) (nat_of_ascii y)) as [H | H];
    [discriminate |].
  destruct (Nat.ltb_spec (nat_of_ascii y) (nat_of_ascii x)) as [H' | H'];
    [discriminate |].
  intros H1 H2. f_equal.
  - assert (E : nat_of_ascii x = nat_of_ascii y) by lia.
    rewrite <- (ascii_nat_embedding x), <- (ascii_nat_embedding y), E. reflexivity.
  - exact (IH b H1 H2).
Qed.

End StrOrder.

(** ** The index of the folder and the dropdown *)

Module Index.

Import DictOrder.

Lemma find_app {A : Type} (f : A -> bool) (l1 l2 : list A) :
  find f (l1 ++ l2) =
  match find f l1 with
  | Some x => Some x
  | None => find f l2
  end.
Proof.
  induction l1 as [| x l1 IH]; simpl; [reflexivity |].
  destruct (f x); [reflexivity | exact IH].
Qed.

(** The last element of a list that satisfies [f]. *)
Lemma find_rev_split {A : Type} (f : A -> bool) (l : list A) (x : A) :
  find f (rev l) = Some x <->
  exists l1 l2, l = l1 ++ x :: l2 /\ f x = true /\ forall y, In y l2 -> f y = false.
Proof.
  induction l as [| a l IH]; simpl.
  - split; [discriminate |]. intros (l1 & l2 & H & _). destruct l1; discriminate.
  - rewrite find_app. split.
    + destruct (find f (rev l)) as [y |] eqn:E.
      * intros H. inversion H; subst y.
        destruct (proj1 IH eq_refl) as (l1 & l2 & -> & Hx & Hrest).
        exists (a :: l1), l2. auto.
      * simpl. destruct (f a) eqn:Ea; [| discriminate].
        intros H. inversion H; subst a. exists [], l.
        split; [reflexivity |]. split; [exact Ea |].
        intros y Hy. destruct (f y) eqn:Ey; [exfalso | reflexivity].
        pose proof (find_none _ _ E y (proj1 (in_rev _ _) Hy)) as Hn.
        rewrite Hn in Ey. discriminate.
    + intros (l1 & l2 & Heq & Hx & Hrest).
      destruct l1 as [| b l1]; simpl in Heq; inversion Heq; subst.
      * assert (Hn : find f (rev l2) = None).
        { destruct (find f (rev l2)) as [y |] eqn:E; [exfalso | reflexivity].
          pose proof (find_some _ _ E) as [Hin Hy].
          apply in_rev in Hin. rewrite (Hrest y Hin) in Hy. discriminate. }
        rewrite Hn. simpl. rewrite Hx. reflexivity.
      * assert (Hs : find f (rev (l1 ++ x :: l2)) = Some x).
        { apply IH. exists l1, l2. auto. }
        rewrite Hs. reflexivity.
Qed.

Lemma index_fold_get (k : string) (paths : list string) :
  forall acc : Dict.t string,
    Dict.get k (fold_left (fun ix p => Dict.set (Merge.stem p) p ix) paths acc) =
    match find (fun p => String.eqb k (Merge.stem p)) (rev paths) with
    | Some p => Some p
    | None => Dict.get k acc
    end.
Proof.
  induction paths as [| p rest IH]; intros acc; simpl; [reflexivity |].
  rewrite IH, find_app. simpl.
  destruct (find (fun p0 => String.eqb k (Merge.stem p0)) (rev rest)); [reflexivity |].
  rewrite DictFacts.get_set. destruct (String.eqb k (Merge.stem p)); reflexivity.
Qed.

Lemma index_paths_get (k p : string) (paths : list string) :
  Dict.get k (index_paths paths) = Some p <->
  exists l1 l2,
    paths = l1 ++ p :: l2 /\ Merge.stem p = k /\
    forall q, In q l2 -> Merge.stem q <> k.
Proof.
  unfold index_paths.
  change (fun ix p0 => Dict.set (fst (Path.splitext (Path.basename p0))) p0 ix)
    with (fun (ix : Dict.t string) p0 => Dict.set (Merge.stem p0) p0 ix).
  rewrite index_fold_get. simpl.
  destruct (find (fun p0 => String.eqb k (Merge.stem p0)) (rev paths)) as [y |] eqn:E.
  - split.
    + intros H. inversion H; subst y.
      apply find_rev_split in E. destruct E as (l1 & l2 & -> & Hp & Hrest).
      exists l1, l2. split; [reflexivity |].
      apply String.eqb_eq in Hp. split; [symmetry; exact Hp |].
      intros q Hq Hk. apply Hrest in Hq. rewrite <- Hk, String.eqb_refl in Hq.
      discriminate.
    + intros (l1 & l2 & Heq & Hp & Hrest).
      assert (E' : find (fun p0 => String.eqb k (Merge.stem p0)) (rev paths) = Some p).
      { apply find_rev_split. exists l1, l2. split; [exact Heq |].
        split; [rewrite Hp; apply String.eqb_refl |].
        intros q Hq. apply String.eqb_neq. intros Hk. exact (Hrest q Hq (eq_sym Hk)). }
      rewrite E' in E. symmetry. exact E.
  - split; [discriminate |].
    intros (l1 & l2 & Heq & Hp & Hrest). exfalso.
    assert (E' : find (fun p0 => String.eqb k (Merge.stem p0)) (rev paths) = Some p).
    { apply find_rev_split. exists l1, l2. split; [exact Heq |].
      split; [rewrite Hp; apply String.eqb_refl |].
      intros q Hq. apply String.eqb_neq. intros Hk. exact (Hrest q Hq (eq_sym Hk)). }
    rewrite E' in E. discriminate.
Qed.

Lemma index_paths_keys (paths : list string) (p : string) :
  In p paths -> In (Merge.stem p) (Dict.keys (index_paths paths)).
Proof.
  intros Hin.
  destruct (Dict.get (Merge.stem p) (index_paths paths)) as [q |] eqn:E.
  - apply get_Some_In in E. unfold Dict.keys.
    apply (in_map fst) in E. exact E.
  - exfalso. unfold index_paths in E.
    change (fun ix p0 => Dict.set (fst (Path.splitext (Path.basename p0))) p0 ix)
      with (fun (ix : Dict.t string) p0 => Dict.set (Merge.stem p0) p0 ix) in E.
    rewrite index_fold_get in E.
    destruct (find (fun p0 => String.eqb (Merge.stem p) (Merge.stem p0)) (rev paths))
      eqn:Ef; [discriminate |].
    pose proof (find_none _ _ Ef p (proj1 (in_rev _ _) Hin)) as Hp.
    simpl in Hp. rewrite String.eqb_refl in Hp. discriminate.
Qed.

(** X4. After the folder is rescanned, the index gives a display name the
    last listed file of that name without extension, and every listed file
    has its name without extension in the dropdown. *)
Theorem refresh_indexes_last_stem (fs : FS) (select_display : option string)
  (a : App) :
  (forall k p,
      Dict.get k (file_index (_refresh_file_list fs select_display a)) = Some p <->
      exists l1 l2,
        list_json_files fs (json_dir a) = l1 ++ p :: l2 /\
        Merge.stem p = k /\
        forall q, In q l2 -> Merge.stem q <> k) /\
  (forall p,
      In p (list_json_files fs (json_dir a)) ->
      In (Merge.stem p) (menu_values (_refresh_file_list fs select_display a))).
Proof.
  split.
  - intros k p. unfold _refresh_file_list. simpl. apply index_paths_get.
  - intros p Hin. unfold _refresh_file_list. simpl. right.
    apply (Permutation_in _
             (Permutation_sym (SortFacts.sort_by_perm Str.ltb Str.lower false _))).
    apply index_paths_keys. exact Hin.
Qed.

Lemma existsb_eqb_false (x : string) (l : list string) :
  existsb (String.eqb x) l = false <-> ~ In x l.
Proof.
  split.
  - intros H Hin. apply existsb_eqb_In in Hin. rewrite Hin in H. discriminate.
  - intros H. destruct (existsb (String.eqb x) l) eqn:E; [| reflexivity].
    apply existsb_eqb_In in E. contradiction.
Qed.

(** The entries of the dropdown for a folder. *)
Definition menu (fs : FS) (folder : string) : list string :=
  "All files" ::
  sort_by Str.ltb Str.lower false (Dict.keys (index_paths (list_json_files fs folder))).

(** The selection made among [values]. *)
Definition pick (select_display : option string) (current : string)
  (values : list string) : string :=
  match select_display with
  | Some sd =>
      if (negb (String.eqb sd "") && existsb (String.eqb sd) values)%bool then sd
      else if negb (existsb (String.eqb current) values) then "All files" else current
  | None => if negb (existsb (String.eqb current) values) then "All files" else current
  end.

Lemma refresh_fields (fs : FS) (select_display : option string) (a : App) :
  menu_values (_refresh_file_list fs select_display a) = menu fs (json_dir a) /\
  file_var (_refresh_file_list fs select_display a) =
    pick select_display (file_var a) (menu fs (json_dir a)) /\
  selected_display_name (_refresh_file_list fs select_display a) =
    file_var (_refresh_file_list fs select_display a) /\
  file_index (_refresh_file_list fs select_display a) =
    index_paths (list_json_files fs (json_dir a)) /\
  json_dir (_refresh_file_list fs select_display a) = json_dir a.
Proof. repeat split. Qed.

Lemma pick_In (select_display : option string) (current : string)
  (values : list string) :
  In "All files" values -> In (pick select_display current values) values.
Proof.
  intros Hall. unfold pick.
  assert (Hcur : In (if negb (existsb (String.eqb current) values)
                     then "All files" else current) values).
  { destruct (existsb (String.eqb current) values) eqn:E; simpl;
      [apply existsb_eqb_In; exact E | exact Hall]. }
  destruct select_display as [sd |]; [| exact Hcur].
  destruct (String.eqb sd ""); simpl; [exact Hcur |].
  destruct (existsb (String.eqb sd) values) eqn:E; [| exact Hcur].
  apply existsb_eqb_In. exact E.
Qed.

(** X5. After the folder is rescanned the selection is always an entry of
    the dropdown, whose first entry is "All files" and whose other entries
    are the display names sorted without regard to case: the requested name
    when it is not empty and is an entry, otherwise the former selection
    when it still is an entry, otherwise "All files". *)
Theorem refresh_selects_an_entry (fs : FS) (select_display : option string)
  (a : App) :
  In (file_var (_refresh_file_list fs select_display a))
     (menu_values (_refresh_file_list fs select_display a)) /\
  selected_display_name (_refresh_file_list fs select_display a) =
    file_var (_refresh_file_list fs select_display a) /\
  (exists names,
      menu_values (_refresh_file_list fs select_display a) = "All files" :: names /\
      Permutation names
        (Dict.keys (file_index (_refresh_file_list fs select_display a))) /\
      StronglySorted (fun x y => Str.ltb (Str.lower y) (Str.lower x) = false) names) /\
  (forall s,
      select_display = Some s -> s <> "" ->
      In s (menu_values (_refresh_file_list fs select_display a)) ->
      file_var (_refresh_file_list fs select_display a) = s) /\
  ((select_display = None \/ select_display = Some "" \/
    exists s, select_display = Some s /\
              ~ In s (menu_values (_refresh_file_list fs select_display a))) ->
   (In (file_var a) (menu_values (_refresh_file_list fs select_display a)) ->
    file_var (_refresh_file_list fs select_display a) = file_var a) /\
   (~ In (file_var a) (menu_values (_refresh_file_list fs select_display a)) ->
    file_var (_refresh_file_list fs select_display a) = "All files")).
Proof.
  destruct (refresh_fields fs select_display a) as (Hm & Hv & Hs & Hi & _).
  rewrite Hm, Hv, Hi.
  split; [apply pick_In; left; reflexivity |].
  split; [rewrite Hs, Hv; reflexivity |].
  split; [| split].
  - exists (sort_by Str.ltb Str.lower false
              (Dict.keys (index_paths (list_json_files fs (json_dir a))))).
    split; [reflexivity |]. split; [apply SortFacts.sort_by_perm |].
    apply (SortFacts.sort_by_sorted Str.ltb Str.lower (fun _ => True)
             (fun x y _ _ => StrOrder.str_ltb_asym x y)
             (fun x y z _ _ _ => StrOrder.str_ltb_negtrans x y z) false).
    apply Forall_forall. intros; exact I.
  - intros s -> Hne Hin. unfold pick.
    apply String.eqb_neq in Hne. rewrite Hne.
    apply existsb_eqb_In in Hin. rewrite Hin. reflexivity.
  - intros Hreq.
    assert (Hfall : pick select_display (file_var a) (menu fs (json_dir a)) =
                    if negb (existsb (String.eqb (file_var a)) (menu fs (json_dir a)))
                    then "All files" else file_var a).
    { unfold pick.
      destruct Hreq as [-> | [-> | (s & -> & Hn)]]; [reflexivity | reflexivity |].
      apply existsb_eqb_false in Hn. rewrite Hn, andb_false_r. reflexivity. }
    rewrite Hfall. split.
    + intros Hin. apply existsb_eqb_In in Hin. rewrite Hin. reflexivity.
    + intros Hnin. apply existsb_eqb_false in Hnin. rewrite Hnin. reflexivity.
Qed.

End Index.

(** ** The listing of the folder *)

Module Listing.

Import DictOrder.

(** [name] is the name of an entry that lies directly in [folder]. *)
Definition entry_of (fs : FS) (folder name : string) : Prop :=
  exists q, In q (map fst fs) /\ Fs.child_of folder q = Some name.

Lemma children_In (folder : string) (fs : FS) :
  forall seen name,
    In name (Fs.children folder fs seen) <->
    entry_of fs folder name /\ ~ In name seen.
Proof.
  unfold entry_of.
  induction fs as [| [p n] rest IH]; intros seen name; simpl.
  - split; [intros [] | intros [(q & [] & _) _]].
  - destruct (Fs.child_of folder p) as [nm |] eqn:Ec.
    + destruct (existsb (String.eqb nm) seen) eqn:Es.
      * rewrite IH. apply existsb_eqb_In in Es. split.
        -- intros [(q & Hq & Hc) Hn]. split; [| exact Hn]. exists q. auto.
        -- intros [(q & [<- | Hq] & Hc) Hn].
           ++ rewrite Ec in Hc. inversion Hc; subst nm. contradiction.
           ++ split; [| exact Hn]. exists q. auto.
      * assert (Hns : ~ In nm seen).
        { intros H. apply existsb_eqb_In in H. rewrite H in Es. discriminate. }
        simpl. rewrite IH. split.
        -- intros [<- | [(q & Hq & Hc) Hn]].
           ++ split; [exists p; auto | exact Hns].
           ++ split; [exists q; auto |]. intros H. apply Hn. right. exact H.
        -- intros [(q & [<- | Hq] & Hc) Hn].
           ++ rewrite Ec in Hc. inversion Hc. left. reflexivity.
           ++ destruct (String.eqb nm name) eqn:E.
              ** apply String.eqb_eq in E. left. exact E.
              ** apply String.eqb_neq in E. right. split; [exists q; auto |].
                 intros [H | H]; [exact (E H) | exact (Hn H)].
    + rewrite IH. split.
      * intros [(q & Hq & Hc) Hn]. split; [| exact Hn]. exists q. auto.
      * intros [(q & [<- | Hq] & Hc) Hn].
        -- rewrite Ec in Hc. discriminate.
        -- split; [| exact Hn]. exists q. auto.
Qed.

Lemma children_NoDup (folder : string) (fs : FS) :
  forall seen, NoDup (Fs.children folder fs seen).
Proof.
  induction fs as [| [p n] rest IH]; intros seen; simpl; [constructor |].
  destruct (Fs.child_of folder p) as [nm |]; [| apply IH].
  destruct (existsb (String.eqb nm) seen); [apply IH |].
  constructor; [| apply IH].
  intros H. apply children_In in H. destruct H as [_ H]. apply H. left. reflexivity.
Qed.

(** The name of an entry holds no separator. *)
Lemma child_of_no_sep (folder p name : string) :
  Fs.child_of folder p = Some name -> Path.has_sep name = false /\ name <> "".
Proof.
  revert p. induction folder as [| a f IH]; intros p; simpl.
  - destruct p as [| c t]; [discriminate |].
    destruct c as [[] [] [] [] [] [] [] []]; try discriminate.
    destruct (Path.has_sep t) eqn:Es; simpl; [discriminate |].
    destruct (String.eqb t "") eqn:Ee; [discriminate |].
    intros H. inversion H; subst name. split; [exact Es |].
    apply String.eqb_neq. exact Ee.
  - destruct p as [| b p']; [discriminate |].
    destruct (Ascii.eqb a b); [apply IH | discriminate].
Qed.

Lemma no_sep_no_slash_head (name : string) :
  Path.has_sep name = false -> Str.startswith name "/" = false.
Proof.
  destruct name as [| c t]; [reflexivity |].
  change (Path.has_sep (String c t)) with (Ascii.eqb c "/" || Path.has_sep t)%bool.
  change (Str.startswith (String c t) "/")
    with (Ascii.eqb "/" c && Str.startswith t "")%bool.
  intros H. apply orb_false_iff in H. destruct H as [H _].
  rewrite Ascii.eqb_sym, H. reflexivity.
Qed.

Lemma join_inj (folder n1 n2 : string) :
  Path.has_sep n1 = false -> Path.has_sep n2 = false ->
  Path.join folder n1 = Path.join folder n2 -> n1 = n2.
Proof.
  intros H1 H2. unfold Path.join.
  rewrite (no_sep_no_slash_head n1 H1), (no_sep_no_slash_head n2 H2).
  destruct (String.eqb folder "" || Str.endswith folder "/")%bool.
  - apply Importing.append_cancel_l.
  - intros H. apply Importing.append_cancel_l in H.
    apply (Importing.append_cancel_l "/") in H. exact H.
Qed.

Lemma map_NoDup_inj {A B : Type} (f : A -> B) (l : list A) :
  (forall x y, In x l -> In y l -> f x = f y -> x = y) ->
  NoDup l -> NoDup (map f l).
Proof.
  intros Hinj Hnd. induction Hnd as [| x l Hx Hnd IH]; simpl; constructor.
  - intros Hin. apply in_map_iff in Hin. destruct Hin as (y & Hy & Hin).
    assert (y = x).
    { apply Hinj; [right; exact Hin | left; reflexivity | exact Hy]. }
    subst y. contradiction.
  - apply IH. intros a b Ha Hb. apply Hinj; right; assumption.
Qed.

(** The paths that the listing of a directory holds. *)
Lemma listed_In (fs : FS) (folder p : string) :
  In p (list_json_files fs folder) <->
  Fs.lookup folder fs = Some Dir /\
  exists fn,
    p = Path.join folder fn /\ entry_of fs folder fn /\
    Str.endswith (Str.lower fn) ".json" = true /\
    Fs.isfile fs p = true.
Proof.
  unfold list_json_files, Fs.listdir.
  destruct (Fs.lookup folder fs) as [[r c |] |] eqn:El; simpl.
  - split; [intros [] | intros [H _]; discriminate].
  - set (keep := fun fn => (Str.endswith (Str.lower fn) ".json" &&
                            Fs.isfile fs (Path.join folder fn))%bool).
    set (names := filter keep (Fs.children folder fs [])).
    assert (Hperm :
              In p (sort_asc Str.ltb (fun p => p) (map (Path.join folder) names)) <->
              In p (map (Path.join folder) names)).
    { split; apply Permutation_in;
        [| apply Permutation_sym]; apply SortFacts.sort_asc_perm. }
    rewrite Hperm, in_map_iff. split.
    + intros (fn & <- & Hin). split; [reflexivity |].
      apply filter_In in Hin. destruct Hin as [Hin Hk].
      apply children_In in Hin. destruct Hin as [Hent _].
      unfold keep in Hk. apply andb_true_iff in Hk. destruct Hk as [Hk1 Hk2].
      exists fn. auto.
    + intros (_ & fn & -> & Hent & Hk1 & Hk2). exists fn.
      split; [reflexivity |]. apply filter_In. split.
      * apply children_In. split; [exact Hent | intros []].
      * unfold keep. rewrite Hk1, Hk2. reflexivity.
  - split; [intros [] | intros [H _]; discriminate].
Qed.

(** X6. The listing of a folder never raises: it is empty when the folder is
    missing or is not a directory; otherwise it holds, once each and in
    ascending order of their text, the paths of the regular files that lie
    directly in the folder and whose name, in lower case, ends in ".json". *)
Theorem list_json_files_lists (fs : FS) (folder : string) :
  (Fs.lookup folder fs <> Some Dir -> list_json_files fs folder = []) /\
  (forall p,
      In p (list_json_files fs folder) <->
      Fs.lookup folder fs = Some Dir /\
      exists fn,
        p = Path.join folder fn /\ entry_of fs folder fn /\
        Str.endswith (Str.lower fn) ".json" = true /\
        Fs.isfile fs p = true) /\
  NoDup (list_json_files fs folder) /\
  StronglySorted (fun x y => Str.ltb y x = false) (list_json_files fs folder).
Proof.
  split; [| split; [apply listed_In |]].
  - unfold list_json_files, Fs.listdir.
    destruct (Fs.lookup folder fs) as [[r c |] |]; try reflexivity.
    intros H. exfalso. apply H. reflexivity.
  - unfold list_json_files, Fs.listdir.
    destruct (Fs.lookup folder fs) as [[r c |] |]; simpl;
      try (split; constructor).
    split.
    + apply (Permutation_NoDup
               (l := map (Path.join folder)
                       (filter
                          (fun fn => (Str.endswith (Str.lower fn) ".json" &&
                                      Fs.isfile fs (Path.join folder fn))%bool)
                          (Fs.children folder fs [])))).
      * apply Permutation_sym, SortFacts.sort_asc_perm.
      * apply map_NoDup_inj.
        -- intros x y Hx Hy. apply filter_In in Hx, Hy.
           destruct Hx as [Hx _], Hy as [Hy _].
           apply children_In in Hx, Hy.
           destruct Hx as [(qx & _ & Hcx) _], Hy as [(qy & _ & Hcy) _].
           apply join_inj.
           ++ exact (proj1 (child_of_no_sep _ _ _ Hcx)).
           ++ exact (proj1 (child_of_no_sep _ _ _ Hcy)).
        -- apply NoDup_filter, children_NoDup.
    + apply (SortFacts.sort_asc_sorted Str.ltb (fun p => p) (fun _ => True)
               (fun x y _ _ => StrOrder.str_ltb_asym x y)
               (fun x y z _ _ _ => StrOrder.str_ltb_negtrans x y z)).
      apply Forall_forall. intros; exact I.
Qed.

End Listing.

(** ** The filter at its edges *)

Module FilterEdge.

(** What the table refresh leaves alone: everything but the rows. *)
Definition same_but_rows (a a' : App) : Prop :=
  json_dir a' = json_dir a /\ file_index a' = file_index a /\
  menu_values a' = menu_values a /\ file_var a' = file_var a /\
  selected_display_name a' = selected_display_name a /\
  items a' = items a /\ filtered_items a' = filtered_items a /\
  name_var a' = name_var a /\ min_var a' = min_var a /\
  max_var a' = max_var a /\ unit_var a' = unit_var a /\
  heading a' = heading a /\ dialogs a' = dialogs a.

Lemma same_but_rows_refl (a : App) : same_but_rows a a.
Proof. repeat split. Qed.

Lemma insert_rows_frame (rows : list (string * float)) :
  forall a, same_but_rows a (fst (insert_rows rows a)).
Proof.
  induction rows as [| [name gp_value] rest IH]; intros a; simpl.
  - apply same_but_rows_refl.
  - destruct (row_values name gp_value) as [e | vals]; simpl.
    + apply same_but_rows_refl.
    + exact (IH (with_tree (tree a ++ [(tree_next a, vals)]) (S (tree_next a)) a)).
Qed.

Lemma refresh_table_frame (rows : list (string * float)) (a : App) :
  same_but_rows a (fst (_refresh_table rows a)).
Proof.
  unfold _refresh_table. exact (insert_rows_frame rows (with_tree [] (tree_next a) a)).
Qed.

(** The filter with bounds that parse. *)
Lemma apply_filters_parsed (a : App) (min_gp max_gp : option float) :
  parse_bound (Str.strip (min_var a)) (unit_var a) = inr min_gp ->
  parse_bound (Str.strip (max_var a)) (unit_var a) = inr max_gp ->
  _apply_filters a =
    _refresh_table
      (filter (Filter.keeps (Str.lower (Str.strip (name_var a))) min_gp max_gp) (items a))
      (with_filtered
         (filter (Filter.keeps (Str.lower (Str.strip (name_var a))) min_gp max_gp)
            (items a)) a).
Proof.
  intros Hmin Hmax. unfold _apply_filters. rewrite Hmin, Hmax. simpl.
  rewrite Filter.filter_loop_spec. reflexivity.
Qed.

Lemma apply_filters_filtered (a : App) (min_gp max_gp : option float) :
  parse_bound (Str.strip (min_var a)) (unit_var a) = inr min_gp ->
  parse_bound (Str.strip (max_var a)) (unit_var a) = inr max_gp ->
  filtered_items (fst (_apply_filters a)) =
    filter (Filter.keeps (Str.lower (Str.strip (name_var a))) min_gp max_gp) (items a).
Proof.
  intros Hmin Hmax. rewrite (apply_filters_parsed a min_gp max_gp Hmin Hmax).
  match goal with
  | |- filtered_items (fst (_refresh_table ?r ?s)) = _ =>
      destruct (refresh_table_frame r s) as (_ & _ & _ & _ & _ & _ & H & _)
  end.
  rewrite H. reflexivity.
Qed.

Lemma is_nan_spec (x : float) : is_nan x = true -> Prim2SF x = S754_nan.
Proof.
  intros H. destruct (Prim2SF x) as [s | s | | s m e] eqn:E; try reflexivity;
    exfalso;
    assert (Hn : FloatOrder.not_nan x)
      by (apply FloatOrder.not_nan_spec; rewrite E; discriminate);
    unfold FloatOrder.not_nan in Hn; rewrite Hn in H; discriminate.
Qed.

Lemma ltb_nan_any_l (x y : float) : is_nan x = true -> (x <? y)%float = false.
Proof.
  intros H. rewrite FloatAxioms.ltb_spec, (is_nan_spec x H). reflexivity.
Qed.

Lemma ltb_nan_any_r (x y : float) : is_nan y = true -> (x <? y)%float = false.
Proof.
  intros H. rewrite FloatAxioms.ltb_spec, (is_nan_spec y H).
  destruct (Prim2SF x); reflexivity.
Qed.

Lemma is_nan_bool (x : float) : is_nan x = false -> FloatOrder.not_nan x.
Proof. intros H. exact H. Qed.

(** The name of an item matches the query of the search field. *)
Definition name_matches (a : App) (it : string * float) : bool :=
  (String.eqb (Str.lower (Str.strip (name_var a))) "" ||
   Str.contains (Str.lower (Str.strip (name_var a))) (Str.lower (fst it)))%bool.

Definition odd_prices : App :=
  mkApp "/data" [] ["All files"] "All files" "All files"
    [("Dagger", 2%float); ("Relic", nan); ("Longsword", 15%float)] []
    "" "10" "1" "gp" [] 0 [] [].

(** X8. "Clear Filters" empties the three fields, sets the unit to gp and
    shows every item of the catalog, in the order of the catalog; it shows
    no warning and leaves the catalog and the selection as they are. *)
Theorem clear_filters_shows_all (a : App) :
  filtered_items (fst (_clear_filters a)) = items a /\
  name_var (fst (_clear_filters a)) = "" /\
  min_var (fst (_clear_filters a)) = "" /\
  max_var (fst (_clear_filters a)) = "" /\
  unit_var (fst (_clear_filters a)) = "gp" /\
  items (fst (_clear_filters a)) = items a /\
  file_var (fst (_clear_filters a)) = file_var a /\
  dialogs (fst (_clear_filters a)) = dialogs a.
Proof.
  unfold _clear_filters.
  rewrite (apply_filters_parsed (with_filters "" "" "" "gp" a) None None eq_refl eq_refl).
  match goal with
  | |- context [fst (_refresh_table ?r ?s)] =>
      destruct (refresh_table_frame r s)
        as (_ & _ & _ & Hfv & _ & Hit & Hfi & Hn & Hmn & Hmx & Hu & _ & Hd)
  end.
  rewrite Hfv, Hit, Hfi, Hn, Hmn, Hmx, Hu, Hd. simpl.
  assert (Hall : forall l : list (string * float),
             filter (Filter.keeps "" None None) l = l).
  { intros l. induction l as [| x l IH]; simpl; [| rewrite IH]; reflexivity. }
  rewrite Hall. repeat split.
Qed.

Lemma parse_empty : Flt.parse "" = None.
Proof. reflexivity. Qed.

(** X9. A unit outside the table makes [to_gp] raise [KeyError], and only
    such a unit does. The filter does not catch it: with such a unit and a
    bound to convert, the filter raises [KeyError], shows no warning and
    changes nothing. *)
Theorem unknown_unit_raises (a : App) (x : float) :
  ~ In (unit_var a) UNITS ->
  (Flt.parse (Str.strip (min_var a)) = Some x \/
   (Str.strip (min_var a) = "" /\ Flt.parse (Str.strip (max_var a)) = Some x)) ->
  _apply_filters a = (a, inl KeyError) /\
  (forall amount unit, to_gp amount unit = inl KeyError <-> ~ In unit UNITS).
Proof.
  assert (Hto : forall amount unit, to_gp amount unit = inl KeyError <-> ~ In unit UNITS).
  { intros amount unit. unfold to_gp, subscript.
    change UNITS with (Dict.keys UNIT_TO_GP).
    rewrite <- DictOrder.get_None_keys.
    destruct (Dict.get unit UNIT_TO_GP); unfold bind, ret, raise;
      split; intros H; try discriminate H; reflexivity. }
  intros Hu Hb. split; [| exact Hto].
  assert (Hconv : forall s y, Flt.parse s = Some y ->
                              parse_bound s (unit_var a) = inl KeyError).
  { intros s y Hy. unfold parse_bound, Flt.of_str.
    destruct (String.eqb s "") eqn:E.
    - apply String.eqb_eq in E. subst s. rewrite parse_empty in Hy. discriminate.
    - simpl. rewrite Hy. simpl. rewrite (proj2 (Hto y (unit_var a)) Hu). reflexivity. }
  unfold _apply_filters.
  destruct Hb as [Hmin | [Hmin Hmax]].
  - rewrite (Hconv _ _ Hmin). reflexivity.
  - rewrite Hmin. rewrite (Hconv _ _ Hmax). reflexivity.
Qed.

Definition odd_unit : App :=
  mkApp "/data" [] ["All files"] "All files" "All files"
    [("Dagger", 2%float)] [] "" "" "5" "xp" [] 0 [] [].

Lemma unknown_unit_raises_witness :
  _apply_filters odd_unit = (odd_unit, inl KeyError).
Proof.
  assert (Hu : ~ In (unit_var odd_unit) UNITS).
  { simpl. intros [H | [H | [H | [H | [H | []]]]]]; discriminate. }
  apply (proj1 (unknown_unit_raises odd_unit 5%float Hu
                  (or_intror (conj eq_refl eq_refl)))).
Defined.

End FilterEdge.

(** ** The rows of the table *)

Module Table.

Lemma isfinite_not_nan (n : float) : Flt.isfinite n = true -> is_nan n = false.
Proof.
  unfold Flt.isfinite. intros H.
  destruct (is_nan n) eqn:E; [| reflexivity].
  rewrite (FilterEdge.is_nan_spec n E) in H. discriminate.
Qed.

Lemma pretty_finite (n : float) :
  Flt.isfinite n = true -> exists s, pretty n true = inr s.
Proof.
  intros Hfin. destruct (Pretty.round_then_float n Hfin) as (z & zf & Hz & Hzf).
  unfold pretty. rewrite Hz. simpl. rewrite Hzf. simpl.
  destruct (abs (n - zf) <? 1e-9)%float; eexists; reflexivity.
Qed.

Lemma pretty_not_finite (n : float) :
  Flt.isfinite n = false ->
  pretty n true = inl (if is_nan n then ValueError else OverflowError).
Proof.
  unfold Flt.isfinite, pretty, Flt.round. intros H.
  destruct (Prim2SF n) as [s | s | | s m e] eqn:E; try discriminate.
  - assert (Hn : is_nan n = false).
    { apply FloatOrder.not_nan_spec. rewrite E. discriminate. }
    rewrite Hn. reflexivity.
  - assert (Hn : is_nan n = true).
    { destruct (is_nan n) eqn:En; [reflexivity |].
      apply FloatOrder.not_nan_spec in En. rewrite E in En. contradiction. }
    rewrite Hn. reflexivity.
Qed.

(** X10. [pretty] with the integer shortcut returns a text exactly for the
    finite floats: for NaN it raises [ValueError] and for an infinity
    [OverflowError], from [round]. Without the shortcut it never raises and
    returns the two-decimal format. *)
Theorem pretty_returns_iff_finite (n : float) :
  ((exists s, pretty n true = inr s) <-> Flt.isfinite n = true) /\
  (Flt.isfinite n = false ->
   pretty n true = inl (if is_nan n then ValueError else OverflowError)) /\
  pretty n false = inr (Flt.format_2f n).
Proof.
  split; [| split].
  - split.
    + intros [s Hs]. destruct (Flt.isfinite n) eqn:E; [reflexivity |].
      rewrite (pretty_not_finite n E) in Hs. discriminate.
    + apply pretty_finite.
  - apply pretty_not_finite.
  - reflexivity.
Qed.

(** The five amounts of [from_gp], in the order of the columns. *)
Definition amounts (x : float) : list float :=
  [(x / 10)%float; x; (x / 0.5)%float; (x / 0.1)%float; (x / 0.01)%float].

(** Every amount of the price is finite. *)
Definition displayable (x : float) : bool := forallb Flt.isfinite (amounts x).

Lemma from_gp_amounts (x : float) :
  from_gp x = inr (combine UNITS (amounts x)).
Proof. reflexivity. Qed.

Lemma row_values_cells (name : string) (x : float) :
  row_values name x =
  (c_pp <- pretty (x / 10)%float true ;;
   c_gp <- pretty x true ;;
   c_ep <- pretty (x / 0.5)%float true ;;
   c_sp <- pretty (x / 0.1)%float true ;;
   c_cp <- pretty (x / 0.01)%float true ;;
   ret [name; c_pp; c_gp; c_ep; c_sp; c_cp]).
Proof. reflexivity. Qed.

Lemma row_values_ok (name : string) (x : float) :
  displayable x = true ->
  exists c1 c2 c3 c4 c5, row_values name x = inr [name; c1; c2; c3; c4; c5].
Proof.
  unfold displayable, amounts. simpl. intros H.
  repeat (apply andb_true_iff in H; destruct H as [?H H]).
  rewrite row_values_cells.
  destruct (pretty_finite _ H0) as [c1 ->].
  destruct (pretty_finite _ H1) as [c2 ->].
  destruct (pretty_finite _ H2) as [c3 ->].
  destruct (pretty_finite _ H3) as [c4 ->].
  destruct (pretty_finite _ H4) as [c5 ->].
  exists c1, c2, c3, c4, c5. reflexivity.
Qed.

Lemma row_values_fail (name : string) (x : float) :
  displayable x = false ->
  exists e, row_values name x = inl e /\ (e = ValueError \/ e = OverflowError).
Proof.
  unfold displayable, amounts. simpl. intros H.
  rewrite row_values_cells.
  assert (Hbad : forall n, Flt.isfinite n = false ->
            exists e, pretty n true = inl e /\ (e = ValueError \/ e = OverflowError)).
  { intros n Hn. rewrite (pretty_not_finite n Hn).
    destruct (is_nan n); eexists; split; eauto. }
  destruct (Flt.isfinite (x / 10)) eqn:E1;
    [destruct (pretty_finite _ E1) as [c1 ->]
    | destruct (Hbad _ E1) as (e & -> & He); exists e; split; [reflexivity | exact He]].
  destruct (Flt.isfinite x) eqn:E2;
    [destruct (pretty_finite _ E2) as [c2 ->]
    | destruct (Hbad _ E2) as (e & -> & He); exists e; split; [reflexivity | exact He]].
  destruct (Flt.isfinite (x / 0.5)) eqn:E3;
    [destruct (pretty_finite _ E3) as [c3 ->]
    | destruct (Hbad _ E3) as (e & -> & He); exists e; split; [reflexivity | exact He]].
  destruct (Flt.isfinite (x / 0.1)) eqn:E4;
    [destruct (pretty_finite _ E4) as [c4 ->]
    | destruct (Hbad _ E4) as (e & -> & He); exists e; split; [reflexivity | exact He]].
  destruct (Flt.isfinite (x / 0.01)) eqn:E5;
    [discriminate
    | destruct (Hbad _ E5) as (e & -> & He); exists e; split; [reflexivity | exact He]].
Qed.

(** The name of a row: its first cell. *)
Definition row_name (c : nat * list string) : string := hd "" (snd c).

Lemma insert_rows_ok (rows : list (string * float)) :
  forall a,
    forallb (fun it => displayable (snd it)) rows = true ->
    exists added,
      snd (insert_rows rows a) = inr tt /\
      tree (fst (insert_rows rows a)) = tree a ++ added /\
      tree_next (fst (insert_rows rows a)) = (tree_next a + List.length rows)%nat /\
      map fst added = seq (tree_next a) (List.length rows) /\
      map row_name added = map fst rows /\
      Forall (fun c => List.length (snd c) = 6%nat) added.
Proof.
  induction rows as [| [name x] rest IH]; intros a Hall; simpl in *.
  - exists []. rewrite app_nil_r, Nat.add_0_r.
    repeat split; constructor.
  - apply andb_true_iff in Hall. destruct Hall as [Hx Hrest].
    destruct (row_values_ok name x Hx) as (c1 & c2 & c3 & c4 & c5 & ->).
    destruct (IH (with_tree (tree a ++ [(tree_next a, [name; c1; c2; c3; c4; c5])])
                    (S (tree_next a)) a) Hrest)
      as (added & Hres & Htree & Hnext & Hids & Hnames & Hlen).
    exists ((tree_next a, [name; c1; c2; c3; c4; c5]) :: added).
    split; [exact Hres |].
    split; [rewrite Htree; simpl; rewrite <- app_assoc; reflexivity |].
    split; [rewrite Hnext; simpl; lia |].
    split; [simpl; rewrite Hids; reflexivity |].
    split; [simpl; rewrite Hnames; reflexivity |].
    constructor; [reflexivity | exact Hlen].
Qed.

Lemma insert_rows_fail (l1 l2 : list (string * float)) (it : string * float) :
  forall a,
    forallb (fun it => displayable (snd it)) l1 = true ->
    displayable (snd it) = false ->
    exists e added,
      snd (insert_rows (l1 ++ it :: l2) a) = inl e /\
      (e = ValueError \/ e = OverflowError) /\
      tree (fst (insert_rows (l1 ++ it :: l2) a)) = tree a ++ added /\
      map row_name added = map fst l1.
Proof.
  induction l1 as [| [name x] rest IH]; intros a Hall Hbad; simpl in *.
  - destruct it as [name x]. simpl in Hbad.
    destruct (row_values_fail name x Hbad) as (e & -> & He).
    exists e, []. rewrite app_nil_r. auto.
  - apply andb_true_iff in Hall. destruct Hall as [Hx Hrest].
    destruct (row_values_ok name x Hx) as (c1 & c2 & c3 & c4 & c5 & ->).
    destruct (IH (with_tree (tree a ++ [(tree_next a, [name; c1; c2; c3; c4; c5])])
                    (S (tree_next a)) a) Hrest Hbad)
      as (e & added & Hres & He & Htree & Hnames).
    exists e, ((tree_next a, [name; c1; c2; c3; c4; c5]) :: added).
    split; [exact Hres |]. split; [exact He |].
    split.
    + rewrite Htree. simpl. rewrite <- app_assoc. reflexivity.
    + simpl. rewrite Hnames. reflexivity.
Qed.

Lemma seq_NoDup_ids (rows : list (nat * list string)) (start len : nat) :
  map fst rows = seq start len -> NoDup (map fst rows).
Proof. intros ->. apply seq_NoDup. Qed.

(** X11. When every amount of every item is finite, refreshing the table
    returns and leaves exactly one row per item, in the order of the items:
    the rows that were there are gone, each new row has the name of its item
    in front of five texts, and the row identifiers are new and distinct. *)
Theorem refresh_table_shows_rows (rows : list (string * float)) (a : App) :
  forallb (fun it => displayable (snd it)) rows = true ->
  snd (_refresh_table rows a) = inr tt /\
  map row_name (tree (fst (_refresh_table rows a))) = map fst rows /\
  map fst (tree (fst (_refresh_table rows a))) = seq (tree_next a) (List.length rows) /\
  NoDup (map fst (tree (fst (_refresh_table rows a)))) /\
  Forall (fun c => List.length (snd c) = 6%nat) (tree (fst (_refresh_table rows a))).
Proof.
  intros Hall. unfold _refresh_table.
  destruct (insert_rows_ok rows (with_tree [] (tree_next a) a) Hall)
    as (added & Hres & Htree & _ & Hids & Hnames & Hlen).
  simpl in Htree, Hids. rewrite Htree.
  split; [exact Hres |]. split; [exact Hnames |]. split; [exact Hids |].
  split; [exact (seq_NoDup_ids _ _ _ Hids) | exact Hlen].
Qed.

Lemma refresh_table_shows_rows_witness :
  map row_name
    (tree (fst (_refresh_table [("Dagger", 2%float); ("Rope", 0.5%float)]
                  (TableSort.table_app [(0%nat, ["Old"; "1"; "1"; "1"; "1"; "1"])])))) =
  ["Dagger"; "Rope"].
Proof.
  apply (refresh_table_shows_rows [("Dagger", 2%float); ("Rope", 0.5%float)]).
  vm_compute. reflexivity.
Defined.

(** X12. One item with an amount that is not finite stops the filter: the
    refresh of the table raises [ValueError] or [OverflowError] at that
    item, after the list of results was replaced, so the table holds the
    rows of the items before it only; no warning is shown. *)
Theorem filter_stops_at_bad_price (a : App) (min_gp max_gp : option float)
  (l1 l2 : list (string * float)) (it : string * float) :
  parse_bound (Str.strip (min_var a)) (unit_var a) = inr min_gp ->
  parse_bound (Str.strip (max_var a)) (unit_var a) = inr max_gp ->
  filter (Filter.keeps (Str.lower (Str.strip (name_var a))) min_gp max_gp) (items a) =
    l1 ++ it :: l2 ->
  forallb (fun it => displayable (snd it)) l1 = true ->
  displayable (snd it) = false ->
  exists e,
    snd (_apply_filters a) = inl e /\
    (e = ValueError \/ e = OverflowError) /\
    filtered_items (fst (_apply_filters a)) = l1 ++ it :: l2 /\
    map row_name (tree (fst (_apply_filters a))) = map fst l1 /\
    dialogs (fst (_apply_filters a)) = dialogs a.
Proof.
  intros Hmin Hmax Hres Hgood Hbad.
  rewrite (FilterEdge.apply_filters_parsed a min_gp max_gp Hmin Hmax), Hres.
  unfold _refresh_table.
  match goal with
  | |- context [insert_rows _ ?s] =>
      destruct (insert_rows_fail l1 l2 it s Hgood Hbad) as (e & added & He & Hk & Htree & Hn);
      destruct (FilterEdge.insert_rows_frame (l1 ++ it :: l2) s)
        as (_ & _ & _ & _ & _ & _ & Hfi & _ & _ & _ & _ & _ & Hd)
  end.
  exists e. split; [exact He |]. split; [exact Hk |].
  split; [rewrite Hfi; reflexivity |].
  split; [rewrite Htree; exact Hn | rewrite Hd; reflexivity].
Qed.

Definition relic_app : App :=
  mkApp "/data" [] ["All files"] "All files" "All files"
    [("Dagger", 2%float); ("Relic", infinity); ("Rope", 1%float)] []
    "" "" "" "gp" [] 0 [] [].

Lemma filter_stops_at_bad_price_witness :
  exists e,
    snd (_apply_filters relic_app) = inl e /\
    (e = ValueError \/ e = OverflowError) /\
    filtered_items (fst (_apply_filters relic_app)) =
      [("Dagger", 2%float)] ++ ("Relic", infinity) :: [("Rope", 1%float)] /\
    map row_name (tree (fst (_apply_filters relic_app))) = map fst [("Dagger", 2%float)] /\
    dialogs (fst (_apply_filters relic_app)) = dialogs relic_app.
Proof.
  apply (filter_stops_at_bad_price relic_app None None); reflexivity.
Defined.

Import Rounding.

Lemma div_rate_finite (x r : float) (m2 : positive) (e2 : Z) :
  Prim2SF r = S754_finite false m2 e2 ->
  2 ^ 52 <= Zpos m2 -> -59 <= e2 -> -6 <= Zdigits2 (Zpos m2) + e2 ->
  (abs x <=? 0x1p990)%float = true ->
  Flt.isfinite (x / r) = true.
Proof.
  intros Hr Hm2 He2 Hd2 Hx. unfold Flt.isfinite.
  rewrite div_spec, Hr. unfold SF64div.
  rewrite FloatAxioms.leb_spec, abs_spec in Hx.
  change (Prim2SF 0x1p990) with (S754_finite false 4503599627370496 938) in Hx.
  pose proof (Prim2SF_valid x) as Hv.
  destruct (Prim2SF x) as [s | s | | s m e].
  - reflexivity.
  - discriminate Hx.
  - discriminate Hx.
  - change (SpecFloat.bounded prec emax m e = true) in Hv.
    cbn [SFabs] in Hx.
    destruct (mantissa_bound m e Hv) as [Hd Hm].
    assert (He : e <= 938).
    { destruct (leb_finite_inv _ _ _ _ Hx) as [H | [H _]]; lia. }
    clear Hx.
    assert (Hlt : (IZR (Zpos m) * bpow e < IZR (Zpos m2) * bpow e2 * bpow 998)%R).
    { apply IZR_lt in Hm. rewrite bpow_IZR in Hm by lia.
      apply IZR_le in Hm2. rewrite bpow_IZR in Hm2 by lia.
      pose proof (bpow_pos e) as Hpe. pose proof (bpow_pos e2) as Hpe2.
      pose proof (bpow_pos 998) as Hp998.
      assert (H1 : (IZR (Zpos m) * bpow e < bpow 53 * bpow e)%R)
        by (apply Rmult_lt_compat_r; lra).
      assert (H2 : (bpow (53 + e) <= bpow (52 + (e2 + 998)))%R)
        by (apply bpow_le; lia).
      rewrite !bpow_add in H2.
      assert (H3 : (bpow 52 * bpow e2 <= IZR (Zpos m2) * bpow e2)%R)
        by (apply Rmult_le_compat_r; lra).
      assert (H4 : (bpow 52 * bpow e2 * bpow 998 <= IZR (Zpos m2) * bpow e2 * bpow 998)%R)
        by (apply Rmult_le_compat_r; lra).
      lra. }
    assert (Hdig : Zdigits2 (Zpos m) + e - (Zdigits2 (Zpos m2) + e2) <= 998).
    { simpl Zdigits2 in *. lia. }
    destruct (div_error s m m2 e e2 998 Hlt Hdig ltac:(lia)) as [Hshape _].
    destruct Hshape as [-> | (m' & e' & -> & _)]; reflexivity.
Qed.

Lemma isfinite_range (x : float) :
  (abs x <=? 0x1p990)%float = true -> Flt.isfinite x = true.
Proof.
  intros Hx. unfold Flt.isfinite.
  rewrite FloatAxioms.leb_spec, abs_spec in Hx.
  destruct (Prim2SF x); try reflexivity; discriminate Hx.
Qed.

(** X13. [from_gp] never raises and returns the five denominations in the
    order pp, gp, ep, sp, cp; for a price of magnitude at most 2^990 every
    amount is finite. The bound matters: 1e307 is a finite price whose
    amount in cp is infinite. *)
Theorem from_gp_amounts_finite (x : float) :
  (abs x <=? 0x1p990)%float = true ->
  from_gp x = inr (combine UNITS (amounts x)) /\
  displayable x = true /\
  Flt.isfinite 1e307 = true /\ displayable 1e307 = false.
Proof.
  intros Hx. split; [reflexivity |].
  split; [| split; vm_compute; reflexivity].
  unfold displayable, amounts. simpl.
  rewrite (div_rate_finite x 10 5629499534213120 (-49) eq_refl) by (try exact Hx; simpl; lia).
  rewrite (isfinite_range x Hx).
  rewrite (div_rate_finite x 0.5 4503599627370496 (-53) eq_refl) by (try exact Hx; simpl; lia).
  rewrite (div_rate_finite x 0.1 7205759403792794 (-56) eq_refl) by (try exact Hx; simpl; lia).
  rewrite (div_rate_finite x 0.01 5764607523034235 (-59) eq_refl) by (try exact Hx; simpl; lia).
  reflexivity.
Qed.

Lemma from_gp_amounts_finite_witness :
  displayable 12345678.9%float = true.
Proof.
  apply (from_gp_amounts_finite 12345678.9%float). vm_compute. reflexivity.
Defined.

End Table.

(** ** The table after a sort *)

Module SortedTable.

Import TableSort.

Section SortMap.
Context {A B K : Type}.
Variable lt : K -> K -> bool.
Variable key : B -> K.
Variable f : A -> B.

Lemma insert_map (x : A) (l : list A) :
  insert lt key (f x) (map f l) = map f (insert lt (fun a => key (f a)) x l).
Proof.
  induction l as [| y rest IH]; simpl; [reflexivity |].
  destruct (lt (key (f y)) (key (f x))); simpl; [rewrite IH |]; reflexivity.
Qed.

Lemma sort_asc_map (l : list A) :
  sort_asc lt key (map f l) = map f (sort_asc lt (fun a => key (f a)) l).
Proof.
  induction l as [| x rest IH]; simpl; [reflexivity |].
  rewrite IH. apply insert_map.
Qed.

(** Sorting the images is the image of sorting by the key of the image. *)
Lemma sort_by_map (reverse : bool) (l : list A) :
  sort_by lt key reverse (map f l) =
  map f (sort_by lt (fun a => key (f a)) reverse l).
Proof.
  unfold sort_by. destruct reverse; [| apply sort_asc_map].
  rewrite <- map_rev, sort_asc_map, map_rev. reflexivity.
Qed.

End SortMap.

(** The cell of a row and its identifier, as the sort collects them. *)
Definition tag (col_key : string) (c : row) : string * nat :=
  (cell col_key c, fst c).

Lemma collect_rows_map (col_key : string) (children : list row) :
  forall rows,
    collect_rows col_key children = inr rows ->
    rows = map (tag col_key) children.
Proof.
  induction children as [| [iid vals] rest IH]; intros rows H.
  - inversion H. reflexivity.
  - cbn [collect_rows] in H. unfold subscript in H.
    destruct (Dict.get col_key (combine columns vals)) as [s |] eqn:Eg;
      [| discriminate].
    cbn [bind ret] in H.
    destruct (collect_rows col_key rest) as [e | rows']; [discriminate |].
    inversion H. cbn [map]. rewrite <- (IH rows' eq_refl).
    unfold tag, cell. cbn [fst snd]. rewrite Eg. reflexivity.
Qed.

Lemma six_cells_get (col_key : string) (vals : list string) :
  In col_key columns -> List.length vals = 6%nat ->
  exists s, Dict.get col_key (combine columns vals) = Some s.
Proof.
  intros Hc Hl.
  destruct vals as [| v1 [| v2 [| v3 [| v4 [| v5 [| v6 [| v7 vals]]]]]]];
    try discriminate.
  simpl in Hc.
  destruct Hc as [<- | [<- | [<- | [<- | [<- | [<- | []]]]]]]; eexists; reflexivity.
Qed.

Lemma collect_rows_ok (col_key : string) (children : list row) :
  In col_key columns ->
  Forall (fun c => List.length (snd c) = 6%nat) children ->
  collect_rows col_key children = inr (map (tag col_key) children).
Proof.
  intros Hc Hall. induction Hall as [| [iid vals] rest Hlen Hall IH].
  - reflexivity.
  - cbn [collect_rows]. unfold subscript.
    destruct (six_cells_get col_key vals Hc Hlen) as [s Hs].
    rewrite Hs. cbn [bind ret]. rewrite IH. cbn [bind ret map].
    unfold tag at 2, cell. cbn [fst snd]. rewrite Hs. reflexivity.
Qed.

Lemma same_id_same_row (L : list row) (x y : row) :
  NoDup (map fst L) -> In x L -> In y L -> fst x = fst y -> x = y.
Proof.
  induction L as [| c L IH]; simpl; intros Hnd Hx Hy E; [destruct Hx |].
  inversion Hnd as [| ? ? Hnotin Hrest]; subst.
  destruct Hx as [<- | Hx], Hy as [<- | Hy].
  - reflexivity.
  - exfalso. apply Hnotin. rewrite E. apply in_map. exact Hy.
  - exfalso. apply Hnotin. rewrite <- E. apply in_map. exact Hx.
  - exact (IH Hrest Hx Hy E).
Qed.

Lemma same_ids_same_rows (L : list row) :
  NoDup (map fst L) ->
  forall S T : list row,
    (forall x, In x S -> In x L) -> (forall x, In x T -> In x L) ->
    map fst S = map fst T -> S = T.
Proof.
  intros Hnd S. induction S as [| s S IH]; intros [| t T] HS HT E;
    try discriminate; [reflexivity |].
  simpl in E. inversion E as [[E1 E2]].
  f_equal.
  - apply (same_id_same_row L); [exact Hnd | apply HS | apply HT | exact E1];
      left; reflexivity.
  - apply IH; [intros x Hx; apply HS | intros x Hx; apply HT | exact E2];
      right; exact Hx.
Qed.

(** The key by which a column is sorted: the number of the cell for a
    denomination, its lower case for the name. *)
Definition sorted_as (col_key : string) (descending : bool) (children : list row)
  : list row :=
  if existsb (String.eqb col_key) numeric_cols then
    sort_by PrimFloat.ltb (fun c => to_num (cell col_key c)) descending children
  else
    sort_by Str.ltb (fun c => Str.lower (cell col_key c)) descending children.

Lemma sorted_as_perm (col_key : string) (descending : bool) (children : list row) :
  Permutation (sorted_as col_key descending children) children.
Proof.
  unfold sorted_as. destruct (existsb (String.eqb col_key) numeric_cols);
    apply SortFacts.sort_by_perm.
Qed.

Lemma sort_rows_tag (col_key : string) (descending : bool) (children : list row) :
  sort_rows col_key descending (map (tag col_key) children) =
  map (tag col_key) (sorted_as col_key descending children).
Proof.
  unfold sort_rows, sorted_as.
  destruct (existsb (String.eqb col_key) numeric_cols).
  - apply (sort_by_map PrimFloat.ltb (fun t => to_num (fst t)) (tag col_key)).
  - apply (sort_by_map Str.ltb (fun t => Str.lower (fst t)) (tag col_key)).
Qed.

(** Moving the rows one by one leaves the table in the sorted order. *)
Lemma sort_by_tree (a : App) (col_key : string) (descending : bool) :
  NoDup (map fst (tree a)) ->
  collect_rows col_key (tree a) = inr (map (tag col_key) (tree a)) ->
  _sort_by col_key descending a =
    (with_heading (Dict.set col_key (negb descending) (heading a))
       (with_tree (sorted_as col_key descending (tree a)) (tree_next a) a), inr tt).
Proof.
  intros Hnd Hrows. unfold _sort_by. rewrite Hrows.
  rewrite sort_rows_tag.
  pose proof (sorted_as_perm col_key descending (tree a)) as Hperm.
  assert (Hids : map snd (map (tag col_key) (sorted_as col_key descending (tree a))) =
                 map fst (sorted_as col_key descending (tree a))).
  { rewrite map_map. reflexivity. }
  destruct (move_all_spec (map (tag col_key) (sorted_as col_key descending (tree a)))
              [] (tree a)) as (S & Hmove & Hmap & HpermS).
  - exact Hnd.
  - rewrite Hids. apply (Permutation_NoDup (l := map fst (tree a))); [| exact Hnd].
    apply Permutation_map, Permutation_sym. exact Hperm.
  - intros x. rewrite Hids. split; apply Permutation_in; apply Permutation_map;
      [exact Hperm | apply Permutation_sym; exact Hperm].
  - simpl in Hmove. rewrite Hmove.
    rewrite Hids in Hmap.
    assert (E : S = sorted_as col_key descending (tree a)).
    { apply (same_ids_same_rows (tree a) Hnd).
      - intros x. apply Permutation_in. exact HpermS.
      - intros x. apply Permutation_in. exact Hperm.
      - exact Hmap. }
    rewrite E. reflexivity.
Qed.

(** X14. Sorting by any of the six columns never loses a row: for a table
    with distinct row identifiers and six cells in every row, the sort
    returns, leaves the same rows in the table in another order, whatever
    the cells hold, records the other direction for the next click on the
    column, and leaves the catalog, the results and the dialogs alone. *)
Theorem sort_keeps_every_row (a : App) (col_key : string) (descending : bool) :
  In col_key columns ->
  NoDup (map fst (tree a)) ->
  Forall (fun c => List.length (snd c) = 6%nat) (tree a) ->
  snd (_sort_by col_key descending a) = inr tt /\
  Permutation (tree (fst (_sort_by col_key descending a))) (tree a) /\
  Dict.get col_key (heading (fst (_sort_by col_key descending a))) =
    Some (negb descending) /\
  items (fst (_sort_by col_key descending a)) = items a /\
  filtered_items (fst (_sort_by col_key descending a)) = filtered_items a /\
  dialogs (fst (_sort_by col_key descending a)) = dialogs a.
Proof.
  intros Hc Hnd Hall.
  rewrite (sort_by_tree a col_key descending Hnd (collect_rows_ok col_key _ Hc Hall)).
  simpl. split; [reflexivity |]. split; [apply sorted_as_perm |].
  split; [apply DictFacts.get_set_same |]. auto.
Qed.

Definition ragged_table : App :=
  table_app
    [(0%nat, ["Rope"; "nan"; "?"; ""; "x"; "1"]);
     (1%nat, ["Dagger"; "0.20"; "2"; "4"; "20"; "200"])].

Lemma sort_keeps_every_row_witness :
  Permutation (tree (fst (_sort_by "pp" true ragged_table))) (tree ragged_table).
Proof.
  apply (sort_keeps_every_row ragged_table "pp" true).
  - right. left. reflexivity.
  - simpl. repeat constructor; simpl; intuition discriminate.
  - repeat constructor.
Defined.

(** The name of a row, in lower case. *)
Definition name_key (c : row) : string := Str.lower (cell "name" c).

Lemma same_key_eqb (k : string) (c : row) :
  SortFacts.same_key Str.ltb name_key k c = String.eqb (name_key c) k.
Proof.
  unfold SortFacts.same_key.
  destruct (String.eqb (name_key c) k) eqn:E.
  - apply String.eqb_eq in E. rewrite E, StrOrder.str_ltb_irrefl. reflexivity.
  - apply String.eqb_neq in E.
    destruct (Str.ltb k (name_key c)) eqn:E1; [reflexivity |].
    destruct (Str.ltb (name_key c) k) eqn:E2; [reflexivity |].
    exfalso. apply E. symmetry. exact (StrOrder.str_ltb_total _ _ E1 E2).
Qed.

(** X15. Sorting by the name column orders the table by the names in lower
    case, compared character by character: ascending, no row is below an
    earlier one, descending, none is above; rows whose names differ in case
    only keep their order, in both directions. *)
Theorem name_sort (a : App) (descending : bool) :
  NoDup (map fst (tree a)) ->
  Forall (fun c => List.length (snd c) = 6%nat) (tree a) ->
  snd (_sort_by "name" descending a) = inr tt /\
  Permutation (tree (fst (_sort_by "name" descending a))) (tree a) /\
  StronglySorted
    (fun c1 c2 => if descending then Str.ltb (name_key c1) (name_key c2) = false
                  else Str.ltb (name_key c2) (name_key c1) = false)
    (tree (fst (_sort_by "name" descending a))) /\
  (forall k,
      filter (fun c => String.eqb (name_key c) k)
        (tree (fst (_sort_by "name" descending a))) =
      filter (fun c => String.eqb (name_key c) k) (tree a)).
Proof.
  intros Hnd Hall.
  assert (Hc : In "name" columns) by (left; reflexivity).
  rewrite (sort_by_tree a "name" descending Hnd (collect_rows_ok "name" _ Hc Hall)).
  simpl. change (sorted_as "name" descending (tree a))
    with (sort_by Str.ltb name_key descending (tree a)).
  assert (Hgood : Forall (fun c : row => (fun _ : string => True) (name_key c)) (tree a)).
  { apply Forall_forall. intros; exact I. }
  split; [reflexivity |]. split; [apply SortFacts.sort_by_perm |].
  split.
  - apply (SortFacts.sort_by_sorted Str.ltb name_key (fun _ => True)
             (fun x y _ _ => StrOrder.str_ltb_asym x y)
             (fun x y z _ _ _ => StrOrder.str_ltb_negtrans x y z) descending (tree a) Hgood).
  - intros k.
    rewrite <- (filter_ext _ _ (same_key_eqb k)).
    rewrite <- (filter_ext _ _ (same_key_eqb k) (tree a)).
    apply (SortFacts.sort_by_stable Str.ltb name_key (fun _ => True)
             (fun x y z _ _ _ => StrOrder.str_ltb_negtrans x y z) descending k (tree a) I Hgood).
Qed.

Definition names_table : App :=
  table_app
    [(0%nat, ["rope"; "0.10"; "1"; "2"; "10"; "100"]);
     (1%nat, ["Dagger"; "0.20"; "2"; "4"; "20"; "200"]);
     (2%nat, ["Rope"; "0.30"; "3"; "6"; "30"; "300"]);
     (3%nat, ["arrow"; "0.01"; "0.10"; "0.20"; "1"; "10"])].

Lemma name_sort_witness :
  map fst (tree (fst (_sort_by "name" false names_table))) = [3%nat; 1%nat; 0%nat; 2%nat] /\
  filter (fun c => String.eqb (name_key c) "rope")
    (tree (fst (_sort_by "name" true names_table))) =
  filter (fun c => String.eqb (name_key c) "rope") (tree names_table).
Proof.
  assert (Hnd : NoDup (map fst (tree names_table))).
  { simpl. repeat constructor; simpl; intuition discriminate. }
  assert (Hall : Forall (fun c => List.length (snd c) = 6%nat) (tree names_table))
    by (repeat constructor).
  split; [vm_compute; reflexivity |].
  exact (proj2 (proj2 (proj2 (name_sort names_table true Hnd Hall))) "rope").
Defined.

End SortedTable.

(** ** Names and paths *)

Module Names.

Lemma append_assoc (a b c : string) : ((a ++ b) ++ c = a ++ (b ++ c))%string.
Proof. induction a as [| x a IH]; simpl; [| rewrite IH]; reflexivity. Qed.

Lemma append_empty_r (a : string) : (a ++ "")%string = a.
Proof. induction a as [| x a IH]; simpl; [| rewrite IH]; reflexivity. Qed.

Lemma rev_acc_app (s : string) :
  forall acc, Str.rev_acc s acc = (Str.rev_acc s "" ++ acc)%string.
Proof.
  induction s as [| c t IH]; intros acc; simpl; [reflexivity |].
  rewrite (IH (String c acc)), (IH (String c "")), append_assoc. reflexivity.
Qed.

Lemma rev_app (a b : string) : Str.rev (a ++ b)%string = (Str.rev b ++ Str.rev a)%string.
Proof.
  unfold Str.rev. induction a as [| x a IH]; simpl.
  - rewrite append_empty_r. reflexivity.
  - rewrite (rev_acc_app (a ++ b) (String x "")), IH, append_assoc.
    rewrite <- (rev_acc_app a (String x "")). reflexivity.
Qed.

Lemma startswith_empty (s : string) : Str.startswith s "" = true.
Proof. destruct s; reflexivity. Qed.

Lemma startswith_app (p : string) :
  forall s t, Str.startswith s p = true -> Str.startswith (s ++ t) p = true.
Proof.
  induction p as [| a p IH]; intros s t H.
  - apply startswith_empty.
  - destruct s as [| b s]; [discriminate |].
    cbn [Str.startswith append] in *.
    apply andb_true_iff in H. destruct H as [H1 H2].
    rewrite H1, (IH s t H2). reflexivity.
Qed.

Lemma startswith_self (p t : string) : Str.startswith (p ++ t) p = true.
Proof.
  induction p as [| a p IH]; [apply startswith_empty |].
  cbn [Str.startswith append]. rewrite Ascii.eqb_refl, IH. reflexivity.
Qed.

Lemma endswith_app (a b e : string) :
  Str.endswith b e = true -> Str.endswith (a ++ b) e = true.
Proof.
  unfold Str.endswith. intros H. rewrite rev_app. apply startswith_app. exact H.
Qed.

Lemma endswith_self (a e : string) : Str.endswith (a ++ e) e = true.
Proof. unfold Str.endswith. rewrite rev_app. apply startswith_self. Qed.

Lemma lower_app (a b : string) :
  Str.lower (a ++ b) = (Str.lower a ++ Str.lower b)%string.
Proof. induction a as [| x a IH]; simpl; [| rewrite IH]; reflexivity. Qed.

Lemma has_sep_app (a b : string) :
  Path.has_sep (a ++ b) = (Path.has_sep a || Path.has_sep b)%bool.
Proof.
  induction a as [| x a IH]; [reflexivity |].
  cbn [append]. change (Path.has_sep (String x (a ++ b)))
    with (Ascii.eqb x "/" || Path.has_sep (a ++ b))%bool.
  change (Path.has_sep (String x a)) with (Ascii.eqb x "/" || Path.has_sep a)%bool.
  rewrite IH, orb_assoc. reflexivity.
Qed.

Lemma basename_no_sep (p : string) : Path.has_sep (Path.basename p) = false.
Proof.
  induction p as [| c t IH]; [reflexivity |].
  change (Path.basename (String c t))
    with (if Path.has_sep (String c t) then Path.basename t else String c t).
  destruct (Path.has_sep (String c t)) eqn:E; [exact IH | exact E].
Qed.

Lemma split_last_dot_app (s b e : string) :
  Path.split_last_dot s = Some (b, e) -> s = (b ++ e)%string.
Proof.
  revert b e. induction s as [| c t IH]; intros b e; [discriminate |].
  cbn [Path.split_last_dot].
  destruct (Path.split_last_dot t) as [[b' e'] |].
  - intros H. inversion H; subst. cbn [append]. rewrite (IH b' e eq_refl) at 1.
    reflexivity.
  - destruct (Ascii.eqb c "."); [| discriminate].
    intros H. inversion H. reflexivity.
Qed.

(** [os.path.splitext] cuts a name in two. *)
Lemma splitext_app (p : string) :
  (fst (Path.splitext p) ++ snd (Path.splitext p))%string = p.
Proof.
  unfold Path.splitext.
  destruct (Path.split_last_dot p) as [[b e] |] eqn:E; cbn [fst snd].
  - destruct (Path.all_dots b); cbn [fst snd];
      [apply append_empty_r | symmetry; apply split_last_dot_app; exact E].
  - apply append_empty_r.
Qed.

Lemma digits_no_sep (s : string) :
  Pretty.all_digits s = true -> Path.has_sep s = false.
Proof.
  induction s as [| c t IH]; [reflexivity |].
  cbn [Pretty.all_digits].
  change (Path.has_sep (String c t)) with (Ascii.eqb c "/" || Path.has_sep t)%bool.
  intros H. apply andb_true_iff in H. destruct H as [Hc Ht].
  rewrite (IH Ht), orb_false_r.
  destruct (Ascii.eqb_spec c "/") as [-> | _]; [discriminate Hc | reflexivity].
Qed.

Lemma child_of_join (folder name : string) :
  Path.has_sep name = false -> name <> "" ->
  Fs.child_of folder (folder ++ "/" ++ name)%string = Some name.
Proof.
  intros Hs Hn. induction folder as [| a f IH].
  - cbn [append Fs.child_of]. rewrite Hs.
    apply String.eqb_neq in Hn. rewrite Hn. reflexivity.
  - cbn [append Fs.child_of]. rewrite Ascii.eqb_refl. exact IH.
Qed.

Lemma join_plain (folder name : string) :
  folder <> "" -> Str.endswith folder "/" = false -> Path.has_sep name = false ->
  Path.join folder name = (folder ++ "/" ++ name)%string.
Proof.
  intros Hf He Hs. unfold Path.join.
  rewrite (Listing.no_sep_no_slash_head name Hs), He.
  apply String.eqb_neq in Hf. rewrite Hf. reflexivity.
Qed.

End Names.

(** ** The folder of a path *)

Module Folders.

Import Names.














End Folders.

(** ** Copies into the folder *)

Module Copies.

Lemma lookup_app (p : string) (fs1 fs2 : FS) :
  Fs.lookup p (fs1 ++ fs2) =
  match Fs.lookup p fs1 with
  | Some n => Some n
  | None => Fs.lookup p fs2
  end.
Proof.
  induction fs1 as [| [q n] rest IH]; simpl; [reflexivity |].
  destruct (String.eqb p q); [reflexivity | exact IH].
Qed.

(** A copy to a path that does not exist adds the path and nothing else. *)
Lemma copy2_new (fs fs' : FS) (src dst : string) :
  Fs.exists_ fs dst = false ->
  Fs.copy2 fs src dst = inr fs' ->
  exists c,
    Fs.lookup src fs = Some (File true c) /\
    fs' = fs ++ [(dst, File true c)] /\
    Fs.lookup dst fs' = Some (File true c) /\
    (forall p, p <> dst -> Fs.lookup p fs' = Fs.lookup p fs) /\
    (forall p, Fs.exists_ fs p = true -> Fs.lookup p fs' = Fs.lookup p fs).
Proof.
  intros Hdst Hcopy. rewrite (Importing.copy2_fresh fs src dst Hdst) in Hcopy.
  destruct (Fs.lookup src fs) as [[[|] c |] |] eqn:Es; try discriminate.
  unfold bind in Hcopy. destruct (Fs.create fs dst) as [e | u]; [discriminate |].
  inversion Hcopy. subst fs'. exists c.
  assert (Hnone : Fs.lookup dst fs = None).
  { unfold Fs.exists_ in Hdst. destruct (Fs.lookup dst fs); [discriminate | reflexivity]. }
  split; [reflexivity |]. split; [reflexivity |].
  split; [| split].
  - rewrite lookup_app, Hnone. simpl. rewrite String.eqb_refl. reflexivity.
  - intros p Hp. rewrite lookup_app. destruct (Fs.lookup p fs); [reflexivity |].
    simpl. apply String.eqb_neq in Hp. rewrite Hp. reflexivity.
  - intros p Hp. rewrite lookup_app. unfold Fs.exists_ in Hp.
    destruct (Fs.lookup p fs); [reflexivity | discriminate].
Qed.


Lemma copy2_fails (fs : FS) (src dst : string) :
  (forall c, Fs.lookup src fs <> Some (File true c)) ->
  exists e, Fs.copy2 fs src dst = inl e.
Proof.
  intros H. unfold Fs.copy2.
  destruct (String.eqb src _ && Fs.exists_ fs src)%bool; [eexists; reflexivity |].
  destruct (Fs.lookup src fs) as [[[|] c |] |] eqn:Es; try (eexists; reflexivity).
  exfalso. exact (H c eq_refl).
Qed.

(** X16. Seeding never touches what is there: when the default name exists
    in the folder, as a file or as a directory, or when the bundled file is
    missing, is a directory or cannot be read, nothing is copied and nothing
    is returned; and whatever happens, every path that existed keeps its
    content. *)
Theorem seed_never_overwrites (env : Env) (fs : FS) (json_dir default_name : string) :
  (Fs.exists_ fs (Path.join json_dir default_name) = true ->
   seed_default_prices env fs json_dir default_name = (fs, None)) /\
  ((forall c, Fs.lookup (resource_path env default_name) fs <> Some (File true c)) ->
   seed_default_prices env fs json_dir default_name = (fs, None)) /\
  (forall p, Fs.exists_ fs p = true ->
             Fs.lookup p (fst (seed_default_prices env fs json_dir default_name)) =
             Fs.lookup p fs).
Proof.
  unfold seed_default_prices.
  split; [| split].
  - intros ->. reflexivity.
  - intros Hsrc.
    destruct (Fs.exists_ fs (Path.join json_dir default_name)); [reflexivity |].
    destruct (Fs.exists_ fs (resource_path env default_name)); [| reflexivity].
    destruct (copy2_fails fs (resource_path env default_name)
                (Path.join json_dir default_name) Hsrc) as [e ->].
    reflexivity.
  - intros p Hp.
    destruct (Fs.exists_ fs (Path.join json_dir default_name)) eqn:Ed; [reflexivity |].
    destruct (Fs.exists_ fs (resource_path env default_name)); [| reflexivity].
    destruct (Fs.copy2 fs (resource_path env default_name)
                (Path.join json_dir default_name)) as [e | fs'] eqn:Ec; [reflexivity |].
    destruct (copy2_new fs fs' _ _ Ed Ec) as (c & _ & _ & _ & _ & Hkeep).
    exact (Hkeep p Hp).
Qed.

Definition dev_env : Env := mkEnv false "/usr/bin" None "/app".

Definition first_run_fs : FS :=
  [("/app", Dir);
   ("/app/prices.json", File true (Json (JDict [(KStr "Dagger", JInt 2)])));
   ("/app/json_files", Dir)].

Definition seeded_fs : FS :=
  first_run_fs ++
  [("/app/json_files/prices.json", File true (Json (JDict [(KStr "Dagger", JInt 2)])))].

Lemma seed_never_overwrites_witness :
  seed_default_prices dev_env seeded_fs "/app/json_files" DEFAULT_JSON_NAME =
    (seeded_fs, None).
Proof.
  apply (proj1 (seed_never_overwrites dev_env seeded_fs "/app/json_files"
                  DEFAULT_JSON_NAME)).
  reflexivity.
Defined.



Lemma dedupe_returns (fs : FS) (folder filename : string) :
  exists name,
    dedupe_filename fs folder filename = Some name /\
    Fs.exists_ fs (Path.join folder name) = false.
Proof.
  destruct (Importing.dedupe_filename_spec fs folder filename) as (name & H1 & H2 & _).
  exists name. auto.
Qed.

Lemma import_not_a_file (cwd : string) (fs : FS) (src_path json_dir : string) :
  Fs.isfile fs src_path = false ->
  safe_copy_into_json_dir cwd fs src_path json_dir = Some (inl FileNotFoundError).
Proof. intros H. unfold safe_copy_into_json_dir. rewrite H. reflexivity. Qed.

(** What an import that returns has done: the file is stored under the name
    that [dedupe_filename] found, and the path returned is the absolute path
    of the stored file. *)
Lemma import_returns_new (cwd : string) (fs fs' : FS) (src_path json_dir dst : string) :
  safe_copy_into_json_dir cwd fs src_path json_dir = Some (inr (fs', dst)) ->
  exists name,
    dedupe_filename fs json_dir (Importing.import_name src_path) = Some name /\
    dst = Path.abspath cwd (Path.join json_dir name) /\
    Fs.exists_ fs (Path.join json_dir name) = false /\
    (exists c, Fs.lookup src_path fs = Some (File true c) /\
               fs' = fs ++ [(Path.join json_dir name, File true c)]) /\
    (forall p, Fs.exists_ fs p = true -> Fs.lookup p fs' = Fs.lookup p fs).
Proof.
  unfold safe_copy_into_json_dir. fold (Importing.import_name src_path).
  destruct (dedupe_returns fs json_dir (Importing.import_name src_path))
    as (name & Hname & Hfree).
  intros H.
  destruct (Fs.isfile fs src_path); simpl in H; [| discriminate].
  rewrite Hname in H.
  destruct (Fs.copy2 fs src_path (Path.join json_dir name)) as [e | fs1] eqn:Ec;
    simpl in H; [discriminate |].
  inversion H; subst fs1 dst.
  destruct (copy2_new fs fs' _ _ Hfree Ec) as (c & Hsrc & Hfs & _ & _ & Hkeep).
  exists name. split; [exact Hname |]. split; [reflexivity |].
  split; [exact Hfree |]. split; [exists c; auto | exact Hkeep].
Qed.

Lemma import_ends (cwd : string) (fs : FS) (src_path json_dir : string) :
  safe_copy_into_json_dir cwd fs src_path json_dir <> None.
Proof.
  unfold safe_copy_into_json_dir. fold (Importing.import_name src_path).
  destruct (dedupe_returns fs json_dir (Importing.import_name src_path))
    as (name & Hname & _).
  destruct (Fs.isfile fs src_path); simpl; [rewrite Hname |]; discriminate.
Qed.

(** X18. An import never overwrites: it raises [FileNotFoundError] when the
    source is not a regular file and [OSError] when the source cannot be
    read, and leaves the files alone; otherwise, when it returns, the path
    it returns is the absolute path of the file it stored, the stored path
    did not exist before, the file system gains it with the content of the
    source, and every path that existed keeps its content. The search of a
    free name always ends. *)
Theorem import_never_overwrites (cwd : string) (fs : FS) (src_path json_dir : string) :
  (Fs.isfile fs src_path = false ->
   safe_copy_into_json_dir cwd fs src_path json_dir = Some (inl FileNotFoundError)) /\
  (forall c, Fs.lookup src_path fs = Some (File false c) ->
             safe_copy_into_json_dir cwd fs src_path json_dir = Some (inl OSError)) /\
  (forall fs' dst,
      safe_copy_into_json_dir cwd fs src_path json_dir = Some (inr (fs', dst)) ->
      exists stored,
        dst = Path.abspath cwd stored /\
        Fs.exists_ fs stored = false /\
        (exists c, Fs.lookup src_path fs = Some (File true c) /\
                   fs' = fs ++ [(stored, File true c)]) /\
        (forall p, Fs.exists_ fs p = true -> Fs.lookup p fs' = Fs.lookup p fs)) /\
  safe_copy_into_json_dir cwd fs src_path json_dir <> None.
Proof.
  split; [apply import_not_a_file |].
  split.
  - intros c Hc.
    pose proof (import_ends cwd fs src_path json_dir) as Hend.
    destruct (safe_copy_into_json_dir cwd fs src_path json_dir)
      as [[e | [fs' dst]] |] eqn:E; [| | contradiction].
    + unfold safe_copy_into_json_dir in E. unfold Fs.isfile in E.
      rewrite Hc in E. simpl in E. fold (Importing.import_name src_path) in E.
      destruct (dedupe_returns fs json_dir (Importing.import_name src_path))
        as (name & Hname & Hfree).
      rewrite Hname in E.
      rewrite (Importing.copy2_fresh fs src_path _ Hfree), Hc in E. simpl in E.
      inversion E. reflexivity.
    + destruct (import_returns_new cwd fs fs' src_path json_dir dst E)
        as (name & _ & _ & _ & (c' & Hc' & _) & _).
      rewrite Hc in Hc'. discriminate.
  - split; [| apply import_ends].
    intros fs' dst E.
    destruct (import_returns_new cwd fs fs' src_path json_dir dst E)
      as (name & _ & Hdst & Hfree & Hfs & Hkeep).
    exists (Path.join json_dir name). auto.
Qed.

Lemma import_never_overwrites_witness :
  safe_copy_into_json_dir "/home/u" Importing.crowded_fs "/downloads/none.json" "/data" =
    Some (inl FileNotFoundError).
Proof.
  apply (proj1 (import_never_overwrites "/home/u" Importing.crowded_fs
                  "/downloads/none.json" "/data")).
  reflexivity.
Defined.

End Copies.

(** ** Buttons *)

Module Buttons.

Import DictOrder.

(** What the filter leaves alone: the folder, the selection, the catalog and
    the fields. *)
Definition same_view (a a' : App) : Prop :=
  json_dir a' = json_dir a /\ file_index a' = file_index a /\
  menu_values a' = menu_values a /\ file_var a' = file_var a /\
  selected_display_name a' = selected_display_name a /\
  items a' = items a /\
  name_var a' = name_var a /\ min_var a' = min_var a /\
  max_var a' = max_var a /\ unit_var a' = unit_var a /\
  heading a' = heading a.

Lemma apply_filters_view (a : App) : same_view a (fst (_apply_filters a)).
Proof.
  unfold _apply_filters.
  destruct (min_gp <- parse_bound (Str.strip (min_var a)) (unit_var a) ;;
            max_gp <- parse_bound (Str.strip (max_var a)) (unit_var a) ;;
            ret (min_gp, max_gp)) as [e | [min_gp max_gp]].
  - destruct (is_a e ValueError); repeat split.
  - match goal with
    | |- same_view _ (fst (_refresh_table ?r ?s)) =>
        destruct (FilterEdge.refresh_table_frame r s)
          as (H1 & H2 & H3 & H4 & H5 & H6 & _ & H8 & H9 & H10 & H11 & H12 & _)
    end.
    unfold same_view. rewrite H1, H2, H3, H4, H5, H6, H8, H9, H10, H11, H12.
    repeat split.
Qed.

Lemma pick_current (current : string) (values : list string) :
  Index.pick (Some current) current values =
  if existsb (String.eqb current) values then current else "All files".
Proof.
  unfold Index.pick.
  destruct (existsb (String.eqb current) values); simpl.
  - destruct (String.eqb current ""); reflexivity.
  - rewrite andb_false_r. reflexivity.
Qed.

(** X19. "Reload Folder" rescans the folder and keeps the selection when it
    still is an entry of the dropdown; when it is not, because its file is
    gone, "All files" is selected and the catalog is the merge of the files
    of the index. The selection is an entry of the dropdown afterwards. *)
Theorem reload_keeps_or_falls_back (fs : FS) (a : App) :
  menu_values (fst (_reload_folder fs a)) = Index.menu fs (json_dir a) /\
  file_index (fst (_reload_folder fs a)) =
    index_paths (list_json_files fs (json_dir a)) /\
  In (file_var (fst (_reload_folder fs a))) (menu_values (fst (_reload_folder fs a))) /\
  (In (file_var a) (Index.menu fs (json_dir a)) ->
   file_var (fst (_reload_folder fs a)) = file_var a) /\
  (~ In (file_var a) (Index.menu fs (json_dir a)) ->
   file_var (fst (_reload_folder fs a)) = "All files" /\
   items (fst (_reload_folder fs a)) =
     merge_all fs (index_paths (list_json_files fs (json_dir a))) []).
Proof.
  unfold _reload_folder.
  set (a1 := _refresh_file_list fs (Some (file_var a)) a).
  destruct (apply_filters_view (_load_items_for_selection fs a1))
    as (_ & Hix & Hmv & Hfv & _ & Hit & _).
  rewrite Hix, Hmv, Hfv, Hit.
  destruct (Index.refresh_fields fs (Some (file_var a)) a) as (Hm & Hv & _ & Hi & _).
  fold a1 in Hm, Hv, Hi.
  change (menu_values (_load_items_for_selection fs a1)) with (menu_values a1).
  change (file_index (_load_items_for_selection fs a1)) with (file_index a1).
  change (file_var (_load_items_for_selection fs a1)) with (file_var a1).
  rewrite Hm, Hi, Hv, pick_current.
  split; [reflexivity |]. split; [reflexivity |].
  split; [| split].
  - destruct (existsb (String.eqb (file_var a)) (Index.menu fs (json_dir a))) eqn:E.
    + apply existsb_eqb_In. exact E.
    + left. reflexivity.
  - intros Hin. apply existsb_eqb_In in Hin. rewrite Hin. reflexivity.
  - intros Hnin. apply Index.existsb_eqb_false in Hnin. rewrite Hnin.
    split; [reflexivity |].
    unfold _load_items_for_selection. rewrite Hv, pick_current, Hnin, Hi. reflexivity.
Qed.

Definition stale_app : App :=
  mkApp "/data" [("gone", "/data/gone.json")] ["All files"; "gone"] "gone" "gone"
    [("Old", 1%float)] [] "" "" "" "gp" [] 0 [] [].

Lemma reload_keeps_or_falls_back_witness :
  file_var (fst (_reload_folder MergeAll.two_files_fs stale_app)) = "All files" /\
  items (fst (_reload_folder MergeAll.two_files_fs stale_app)) =
    [("Sword", 5%float); ("Rope", 1%float)].
Proof.
  destruct (reload_keeps_or_falls_back MergeAll.two_files_fs stale_app)
    as (_ & _ & _ & _ & Hfall).
  destruct Hfall as [Hv Hit].
  - vm_compute. intros [H | [H | [H | [H | []]]]]; discriminate.
  - split; [exact Hv |]. rewrite Hit. vm_compute. reflexivity.
Defined.

Lemma join_nonempty (folder name : string) : name <> "" -> Path.join folder name <> "".
Proof.
  intros Hn. unfold Path.join.
  destruct (Str.startswith name "/"); [exact Hn |].
  destruct (String.eqb folder "" || Str.endswith folder "/")%bool.
  - destruct folder; simpl; [exact Hn | discriminate].
  - destruct folder; simpl; discriminate.
Qed.

(** X20. Choosing a display name after a rescan shows one file: when the
    name is the name without extension of a listed file, is not empty and
    is not "All files", it becomes the selection and the catalog is that of
    the last listed file of that name, empty if the file does not load. *)
Theorem chosen_name_shows_last_file (fs : FS) (a : App) (k path : string)
  (l1 l2 : list string) :
  list_json_files fs (json_dir a) = l1 ++ path :: l2 ->
  Merge.stem path = k ->
  (forall q, In q l2 -> Merge.stem q <> k) ->
  k <> "" -> k <> "All files" ->
  file_var (_refresh_file_list fs (Some k) a) = k /\
  items (_load_items_for_selection fs (_refresh_file_list fs (Some k) a)) =
    match load_prices_json fs path with
    | inr data => data
    | inl _ => []
    end.
Proof.
  intros Hlist Hstem Hlast Hne Hall.
  destruct (Index.refresh_fields fs (Some k) a) as (Hm & Hv & _ & Hi & _).
  assert (Hget : Dict.get k (index_paths (list_json_files fs (json_dir a))) = Some path).
  { apply Index.index_paths_get. exists l1, l2. auto. }
  assert (Hin : In k (Index.menu fs (json_dir a))).
  { right.
    apply (Permutation_in _
             (Permutation_sym (SortFacts.sort_by_perm Str.ltb Str.lower false _))).
    apply get_Some_In in Hget. apply (in_map fst) in Hget. exact Hget. }
  assert (Hk : file_var (_refresh_file_list fs (Some k) a) = k).
  { rewrite Hv. unfold Index.pick.
    apply String.eqb_neq in Hne. rewrite Hne.
    apply existsb_eqb_In in Hin. rewrite Hin. reflexivity. }
  split; [exact Hk |].
  unfold _load_items_for_selection. rewrite Hk, Hi, Hget.
  apply String.eqb_neq in Hall. rewrite Hall.
  assert (Hp : path <> "").
  { assert (Hpin : In path (list_json_files fs (json_dir a))).
    { rewrite Hlist. apply in_or_app. right. left. reflexivity. }
    apply Listing.listed_In in Hpin.
    destruct Hpin as (_ & fn & -> & (q & _ & Hq) & _).
    apply join_nonempty. exact (proj2 (Listing.child_of_no_sep _ _ _ Hq)). }
  apply String.eqb_neq in Hp. rewrite Hp. reflexivity.
Qed.

Lemma chosen_name_shows_last_file_witness :
  items (_load_items_for_selection MergeAll.two_files_fs
           (_refresh_file_list MergeAll.two_files_fs (Some "b") (Merge.start_app "/data"))) =
  [("Sword", 5%float)].
Proof.
  assert (Hlist : list_json_files MergeAll.two_files_fs (json_dir (Merge.start_app "/data")) =
                  ["/data/a.json"] ++ "/data/b.json" :: ["/data/c.json"])
    by (vm_compute; reflexivity).
  destruct (chosen_name_shows_last_file MergeAll.two_files_fs (Merge.start_app "/data")
              "b" "/data/b.json" _ _ Hlist eq_refl) as [_ Hitems].
  - intros q [<- | []]. vm_compute. discriminate.
  - discriminate.
  - discriminate.
  - rewrite Hitems. vm_compute. reflexivity.
Defined.

(** The view after a copy to [dst]: the folder rescanned with the name of
    [dst] without extension requested, and the catalog loaded. *)
Definition imported_view (fs' : FS) (dst : string) (a : App) : App :=
  _load_items_for_selection fs'
    (_refresh_file_list fs' (Some (Merge.stem dst)) a).

Definition last_dialog (a : App) : option (string * string) :=
  last (map Some (dialogs a)) None.

Lemma last_dialog_shown (title message : string) (a : App) :
  last_dialog (showwarning title message a) = Some (title, message).
Proof.
  unfold last_dialog, showwarning. cbn [dialogs].
  rewrite map_app. cbn [map]. apply last_last.
Qed.

Section ImportButton.
Variable describe : exn -> string.
Variable cwd : string.

Definition failure_text (e : exn) : string :=
  ("Could not import file:" ++ newline ++ describe e)%string.

Lemma choose_after_copy (fs fs' : FS) (path dst : string) (a : App) :
  path <> "" ->
  safe_copy_into_json_dir cwd fs path (json_dir a) = Some (inr (fs', dst)) ->
  _choose_and_import_json describe cwd fs path a =
    match _apply_filters (imported_view fs' dst a) with
    | (a3, inr _) =>
        Some (fs', showinfo "Imported"
                     ("Copied into " ++ JSON_DIR_NAME ++ ":" ++ newline ++
                      Path.basename dst)%string a3)
    | (a3, inl e) => Some (fs', showerror "Import failed" (failure_text e) a3)
    end.
Proof.
  intros Hp Hcopy. unfold _choose_and_import_json.
  apply String.eqb_neq in Hp. rewrite Hp, Hcopy. reflexivity.
Qed.

(** X21. The import button: a cancelled dialog changes nothing; a source
    that is not a regular file changes nothing but for the "Import failed"
    notice; in every case the paths that existed keep their content. When
    the copy is made and the filter then raises, the notice is "Import
    failed" although the copy stays in the folder: the path returned is the
    absolute path of a file that was stored and was not there before. *)
Theorem import_button (fs : FS) (path : string) (a : App) :
  (path = "" -> _choose_and_import_json describe cwd fs path a = Some (fs, a)) /\
  (path <> "" -> Fs.isfile fs path = false ->
   _choose_and_import_json describe cwd fs path a =
     Some (fs, showerror "Import failed" (failure_text FileNotFoundError) a)) /\
  (forall fs' a',
      _choose_and_import_json describe cwd fs path a = Some (fs', a') ->
      forall p, Fs.exists_ fs p = true -> Fs.lookup p fs' = Fs.lookup p fs) /\
  (forall fs' dst e,
      path <> "" ->
      safe_copy_into_json_dir cwd fs path (json_dir a) = Some (inr (fs', dst)) ->
      snd (_apply_filters (imported_view fs' dst a)) = inl e ->
      exists a' stored,
        _choose_and_import_json describe cwd fs path a = Some (fs', a') /\
        last_dialog a' = Some ("Import failed", failure_text e) /\
        dst = Path.abspath cwd stored /\
        Fs.exists_ fs stored = false /\ Fs.exists_ fs' stored = true) /\
  _choose_and_import_json describe cwd fs path a <> None.
Proof.
  split; [| split; [| split; [| split]]].
  - intros ->. reflexivity.
  - intros Hp Hsrc. unfold _choose_and_import_json.
    apply String.eqb_neq in Hp. rewrite Hp.
    rewrite (Copies.import_not_a_file cwd fs path (json_dir a) Hsrc). reflexivity.
  - intros fs' a' H p Hex. unfold _choose_and_import_json in H.
    destruct (String.eqb path ""); [inversion H; reflexivity |].
    destruct (safe_copy_into_json_dir cwd fs path (json_dir a))
      as [[e | [fs1 dst]] |] eqn:E; [inversion H; reflexivity | | discriminate].
    destruct (Copies.import_returns_new cwd fs fs1 path (json_dir a) dst E)
      as (name & _ & _ & _ & _ & Hkeep).
    destruct (_apply_filters _) as [a3 [e | u]]; inversion H; subst; exact (Hkeep p Hex).
  - intros fs' dst e Hp Hcopy Hraise.
    rewrite (choose_after_copy fs fs' path dst a Hp Hcopy).
    destruct (_apply_filters (imported_view fs' dst a)) as [a3 [e' | u]];
      simpl in Hraise; [| discriminate].
    inversion Hraise; subst e'.
    destruct (Copies.import_returns_new cwd fs fs' path (json_dir a) dst Hcopy)
      as (name & _ & Hdst & Hfree & (c & _ & Hfs) & _).
    exists (showerror "Import failed" (failure_text e) a3), (Path.join (json_dir a) name).
    split; [reflexivity |]. split; [apply last_dialog_shown |].
    split; [exact Hdst |]. split; [exact Hfree |].
    rewrite Hfs. unfold Fs.exists_. rewrite Copies.lookup_app.
    destruct (Fs.lookup (Path.join (json_dir a) name) fs); [reflexivity |]. simpl.
    rewrite String.eqb_refl. reflexivity.
  - unfold _choose_and_import_json.
    destruct (String.eqb path ""); [discriminate |].
    pose proof (Copies.import_ends cwd fs path (json_dir a)) as Hn.
    destruct (safe_copy_into_json_dir cwd fs path (json_dir a)) as [[e | [fs' dst]] |];
      [discriminate | | contradiction].
    destruct (_apply_filters _) as [a3 [e | u]]; discriminate.
Qed.

End ImportButton.

Definition relic_fs : FS :=
  [("/data", Dir);
   ("/downloads/relic.json", File true (Json (JDict [(KStr "Relic", JStr "nan")])))].

Lemma import_button_witness :
  exists fs' a',
    _choose_and_import_json (fun _ => "") "/home/u" relic_fs "/downloads/relic.json"
      (Merge.start_app "/data") = Some (fs', a') /\
    last_dialog a' = Some ("Import failed", failure_text (fun _ => "") ValueError) /\
    Fs.exists_ fs' "/data/relic.json" = true.
Proof.
  destruct (import_button (fun _ => "") "/home/u" relic_fs "/downloads/relic.json"
              (Merge.start_app "/data")) as (_ & _ & _ & Hraise & _).
  destruct (Hraise (relic_fs ++
                      [("/data/relic.json",
                        File true (Json (JDict [(KStr "Relic", JStr "nan")])))])
              "/data/relic.json" ValueError)
    as (a' & stored & Hres & Hlast & _ & _ & _).
  - discriminate.
  - vm_compute. reflexivity.
  - vm_compute. reflexivity.
  - eexists. exists a'. split; [exact Hres |]. split; [exact Hlast |].
    vm_compute. reflexivity.
Defined.

End Buttons.

(** ** Whole prices *)

Module Whole.

(** An integer of at most 53 bits is a float, exactly. *)
Lemma round_small_exact (s : bool) (p : positive) :
  Zpos (digits2_pos p) <= 53 ->
  exists m k,
    binary_round prec emax s p 0 = S754_finite s m (- k) /\
    0 <= k /\ Zpos m = Zpos p * 2 ^ k /\
    SpecFloat.bounded prec emax m (- k) = true.
Proof.
  intros Hd. unfold binary_round.
  assert (Hf : fexp prec emax (Zpos (digits2_pos p) + 0) = Zpos (digits2_pos p) - 53).
  { unfold fexp, emin, prec, emax. lia. }
  rewrite Hf. unfold shl_align.
  destruct (Zpos (digits2_pos p) - 53 - 0) as [| k | k] eqn:Ek; try lia.
  - assert (Hb : SpecFloat.bounded prec emax p 0 = true).
    { unfold SpecFloat.bounded, canonical_mantissa. rewrite Hf.
      replace (Zpos (digits2_pos p) - 53) with 0 by lia. reflexivity. }
    exists p, 0. split; [apply FloatExact.round_aux_unshifted; exact Hb |].
    split; [lia |]. split; [rewrite Z.pow_0_r; lia | exact Hb].
  - assert (He : Zpos (digits2_pos p) - 53 = - Zpos k) by lia.
    rewrite He.
    assert (Hb : SpecFloat.bounded prec emax (Pos.iter xO p k) (- Zpos k) = true).
    { unfold SpecFloat.bounded, canonical_mantissa. rewrite FloatExact.digits_shift.
      apply andb_true_iff. split.
      - apply Z.eqb_eq. unfold fexp, emin, prec, emax. lia.
      - apply Z.leb_le. unfold prec, emax. lia. }
    exists (Pos.iter xO p k), (Zpos k).
    split; [apply FloatExact.round_aux_unshifted; exact Hb |].
    split; [lia |]. split; [| exact Hb].
    change (Pos.iter xO p k) with (shift_pos k p).
    rewrite shift_pos_correct. change (Z.pow_pos 2 k) with (2 ^ Zpos k). lia.
Qed.

Lemma sub_self_zero (x : float) :
  Flt.isfinite x = true -> exists s, Prim2SF (x - x) = S754_zero s.
Proof.
  unfold Flt.isfinite. rewrite sub_spec.
  destruct (Prim2SF x) as [s | s | | s m e]; try discriminate; intros _.
  - destruct s; eexists; reflexivity.
  - unfold SF64sub, SFsub. rewrite Z.sub_diag. eexists. reflexivity.
Qed.

Lemma near_self (x : float) :
  Flt.isfinite x = true -> (abs (x - x) <? 1e-9)%float = true.
Proof.
  intros Hx. destruct (sub_self_zero x Hx) as [s Hs].
  rewrite FloatAxioms.ltb_spec, abs_spec, Hs. reflexivity.
Qed.

Lemma round_exact_quotient (p k : Z) :
  0 < p -> 0 <= k -> Flt.round_half_even (p * 2 ^ k) (2 ^ k) = p.
Proof.
  intros Hp Hk. unfold Flt.round_half_even.
  assert (Hpow : 0 < 2 ^ k) by (apply Z.pow_pos_nonneg; lia).
  rewrite Z.div_mul by lia. rewrite Z.mod_mul by lia.
  destruct (Z.compare_spec (2 * 0) (2 ^ k)); lia.
Qed.

(** The float of a small integer and what [round] makes of it. *)
Lemma whole_float (z : Z) :
  Z.abs z < 2 ^ 53 ->
  exists x, Flt.of_int z = inr x /\ Flt.isfinite x = true /\ Flt.round x = inr z.
Proof.
  intros Hz. unfold Flt.of_int.
  destruct z as [| p | p]; cbn [binary_normalize].
  - exists (SF2Prim (S754_zero false)). repeat split.
  - assert (Hd : Zpos (digits2_pos p) <= 53).
    { apply (Rounding.digits_le (Zpos p) 53); lia. }
    destruct (round_small_exact false p Hd) as (m & k & -> & Hk & Hm & Hb).
    exists (SF2Prim (S754_finite false m (- k))). split; [reflexivity |].
    unfold Flt.isfinite, Flt.round.
    rewrite (Prim2SF_SF2Prim (S754_finite false m (- k)) Hb).
    split; [reflexivity |].
    unfold Flt.num_den. destruct (0 <=? - k) eqn:E.
    + apply Z.leb_le in E. assert (Hk0 : k = 0) by lia. subst k.
      change (- 0) with 0. rewrite Z.pow_0_r, Z.mul_1_r in *.
      cbv beta iota. rewrite Pretty.round_half_even_one, Hm. reflexivity.
    + rewrite Z.opp_involutive, Hm, round_exact_quotient by lia. reflexivity.
  - assert (Hd : Zpos (digits2_pos p) <= 53).
    { apply (Rounding.digits_le (Zpos p) 53); lia. }
    destruct (round_small_exact true p Hd) as (m & k & -> & Hk & Hm & Hb).
    exists (SF2Prim (S754_finite true m (- k))). split; [reflexivity |].
    unfold Flt.isfinite, Flt.round.
    rewrite (Prim2SF_SF2Prim (S754_finite true m (- k)) Hb).
    split; [reflexivity |].
    unfold Flt.num_den. destruct (0 <=? - k) eqn:E.
    + apply Z.leb_le in E. assert (Hk0 : k = 0) by lia. subst k.
      change (- 0) with 0. rewrite Z.pow_0_r, Z.mul_1_r in *.
      cbv beta iota. rewrite Pretty.round_half_even_one, Hm. reflexivity.
    + rewrite Z.opp_involutive, Hm, round_exact_quotient by lia. reflexivity.
Qed.

(** X22. A whole price prints as the integer: for every integer below 2^53
    in magnitude, the float of the integer is rendered by [pretty] as the
    decimal text of the integer, with no decimals. *)
Theorem pretty_whole_price (z : Z) :
  Z.abs z < 2 ^ 53 ->
  exists x, Flt.of_int z = inr x /\ pretty x true = inr (Str.of_Z z).
Proof.
  intros Hz. destruct (whole_float z Hz) as (x & Hx & Hfin & Hround).
  exists x. split; [exact Hx |].
  unfold pretty. rewrite Hround. simpl. rewrite Hx. simpl.
  rewrite (near_self x Hfin). reflexivity.
Qed.

Lemma pretty_whole_price_witness :
  exists x, Flt.of_int 1500 = inr x /\ pretty x true = inr "1500".
Proof.
  destruct (pretty_whole_price 1500 ltac:(vm_compute; reflexivity)) as (x & Hx & Hp).
  exists x. split; [exact Hx | exact Hp].
Defined.

End Whole.

(** ** What the formatter shows

    The text of [pretty] in terms of the number a float stands for. *)

Module Exact.

Import Rounding.

(** Rounding a mantissa of at most 53 bits at an exponent in the range of
    the format changes nothing. *)
Lemma binary_round_exact (s : bool) (mx : positive) (ex : Z) :
  Zpos (digits2_pos mx) <= 53 -> -1074 <= ex -> ex <= 900 ->
  exists m e,
    binary_round prec emax s mx ex = S754_finite s m e /\
    (IZR (Zpos m) * bpow e = IZR (Zpos mx) * bpow ex)%R.
Proof.
  intros Hd Hlo Hhi. unfold binary_round.
  pose proof (shl_align_value mx ex (fexp prec emax (Zpos (digits2_pos mx) + ex)))
    as [Hez Hval].
  destruct (shl_align mx ex (fexp prec emax (Zpos (digits2_pos mx) + ex)))
    as [mz ez]. cbn [fst snd] in Hez, Hval.
  rewrite fexp64 in Hez.
  assert (Hez' : ez = Z.max (Zpos (digits2_pos mx) + ex - 53) (-1074)) by lia.
  assert (Hdz : Zdigits2 (Zpos mz) + ez <= Zpos (digits2_pos mx) + ex).
  { apply digits_exponent_bound. rewrite Hval, bpow_add.
    destruct (digits_bounds (Zpos mx) ltac:(lia)) as [[_ Hup] _].
    simpl Zdigits2 in Hup. apply IZR_lt in Hup. rewrite bpow_IZR in Hup by lia.
    apply Rmult_lt_compat_r; [apply bpow_pos | exact Hup]. }
  assert (He1 : ez = Z.max ez (fexp prec emax (Zdigits2 (Zpos mz) + ez))).
  { rewrite fexp64. lia. }
  assert (Hloc : located (Zpos mz) loc_Exact (Zpos mz) 1) by (cbn [located]; lia).
  destruct (round_aux_sem s (Zpos mz) ez loc_Exact (Zpos mz) 1 ez
              (Pos2Z.is_nonneg mz) Z.lt_0_1 Hloc He1 ltac:(lia))
    as (z & Hz0 & Hz & Hres).
  rewrite Z.sub_diag, Z.pow_0_r in Hz.
  assert (Hzm : z = Zpos mz) by lia.
  destruct Hres as [[_ Hzero] | [(m & Hr & Hm) | (m & Hr & Hm)]].
  - lia.
  - exists m, ez. split; [exact Hr |]. rewrite Hm, Hzm. exact Hval.
  - exists m, (ez + 1). split; [exact Hr |].
    rewrite <- Hval, <- Hzm, <- Hm, mult_IZR, bpow_add, bpow_1. ring.
Qed.

(** What an operation returns when it returns a number. *)
Definition plain (x : spec_float) : Prop :=
  match x with
  | S754_zero _ | S754_finite _ _ _ => True
  | _ => False
  end.

(** The difference of two floats of the same sign is exact when it fits in
    53 bits at the lower of the two exponents. *)
Lemma sub_exact (s : bool) (ma mb : positive) (ea eb : Z) :
  -1074 <= ea <= 900 -> -1074 <= eb <= 900 ->
  (Rabs (IZR (Zpos ma) * bpow ea - IZR (Zpos mb) * bpow eb) < bpow (53 + Z.min ea eb))%R ->
  plain (SFsub prec emax (S754_finite s ma ea) (S754_finite s mb eb)) /\
  mag (SFsub prec emax (S754_finite s ma ea) (S754_finite s mb eb)) =
  Rabs (IZR (Zpos ma) * bpow ea - IZR (Zpos mb) * bpow eb).
Proof.
  intros Hea Heb Hlt. unfold SFsub.
  destruct (shl_align_value ma ea (Z.min ea eb)) as [He1 Hv1].
  destruct (shl_align_value mb eb (Z.min ea eb)) as [He2 Hv2].
  replace (Z.min ea (Z.min ea eb)) with (Z.min ea eb) in He1 by lia.
  replace (Z.min eb (Z.min ea eb)) with (Z.min ea eb) in He2 by lia.
  rewrite He1 in Hv1. rewrite He2 in Hv2.
  set (a := fst (shl_align ma ea (Z.min ea eb))) in *.
  set (b := fst (shl_align mb eb (Z.min ea eb))) in *.
  rewrite <- Hv1, <- Hv2 in *. clear Hv1 Hv2 He1 He2.
  set (ez := Z.min ea eb) in *.
  pose proof (bpow_pos ez) as Hez.
  assert (Hdiff : (IZR (Zpos a) * bpow ez - IZR (Zpos b) * bpow ez =
                   IZR (Zpos a - Zpos b) * bpow ez)%R).
  { rewrite minus_IZR. ring. }
  rewrite Hdiff in *. clear Hdiff.
  assert (Hsame : cond_Zopp s (Zpos a) - cond_Zopp s (Zpos b) =
                  cond_Zopp s (Zpos a - Zpos b)).
  { destruct s; cbn [cond_Zopp]; lia. }
  rewrite Hsame.
  assert (Hsmall : forall d, Z.abs (Zpos a - Zpos b) = Zpos d ->
                             Zpos (digits2_pos d) <= 53).
  { intros d Hd. apply (digits_le (Zpos d) 53); [| lia].
    split; [lia |].
    rewrite Rabs_mult, (Rabs_pos_eq (bpow ez)), <- abs_IZR, Hd, bpow_add in Hlt by lra.
    apply Rmult_lt_reg_r in Hlt; [| exact Hez].
    rewrite <- bpow_IZR in Hlt by lia. apply lt_IZR. exact Hlt. }
  destruct (Zpos a - Zpos b) as [| d | d] eqn:Ed.
  - destruct s; cbn [cond_Zopp Z.opp binary_normalize mag plain];
      rewrite Rmult_0_l, Rabs_R0; split; [exact I | reflexivity | exact I | reflexivity].
  - assert (Hpos : (0 < IZR (Zpos d) * bpow ez)%R).
    { apply Rmult_lt_0_compat; [apply IZR_lt; lia | exact Hez]. }
    rewrite Rabs_pos_eq by lra.
    pose proof (Hsmall d eq_refl) as Hd.
    destruct s; cbn [cond_Zopp Z.opp binary_normalize].
    + destruct (binary_round_exact true d ez Hd ltac:(lia) ltac:(lia))
        as (m & e & -> & Hv). split; [exact I | exact Hv].
    + destruct (binary_round_exact false d ez Hd ltac:(lia) ltac:(lia))
        as (m & e & -> & Hv). split; [exact I | exact Hv].
  - assert (Hpos : (0 < IZR (Zpos d) * bpow ez)%R).
    { apply Rmult_lt_0_compat; [apply IZR_lt; lia | exact Hez]. }
    assert (Hneg : (IZR (Zneg d) * bpow ez = - (IZR (Zpos d) * bpow ez))%R).
    { change (Zneg d) with (- Zpos d). rewrite opp_IZR. ring. }
    rewrite Hneg, Rabs_Ropp, Rabs_pos_eq by lra.
    pose proof (Hsmall d eq_refl) as Hd.
    destruct s; cbn [cond_Zopp Z.opp binary_normalize].
    + destruct (binary_round_exact false d ez Hd ltac:(lia) ltac:(lia))
        as (m & e & -> & Hv). split; [exact I | exact Hv].
    + destruct (binary_round_exact true d ez Hd ltac:(lia) ltac:(lia))
        as (m & e & -> & Hv). split; [exact I | exact Hv].
Qed.

End Exact.

Module Near.

Import Rounding.
Import Exact.

(** Among the floats of the format, the order of the values is the order
    of the exponents, and of the mantissas at the same exponent. *)
Lemma lt_of_bounded (m1 m2 : positive) (e1 e2 : Z) :
  SpecFloat.bounded prec emax m1 e1 = true ->
  SpecFloat.bounded prec emax m2 e2 = true ->
  e1 < e2 \/ (e1 = e2 /\ Zpos m1 < Zpos m2) ->
  (IZR (Zpos m1) * bpow e1 < IZR (Zpos m2) * bpow e2)%R.
Proof.
  intros Hb1 Hb2 Hlt.
  destruct (FloatExact.bounded_inv m2 e2 Hb2) as [Hc2 _]. rewrite fexp64 in Hc2.
  destruct (mantissa_bound m1 e1 Hb1) as [_ Hm1].
  destruct (FloatExact.bounded_inv m1 e1 Hb1) as [Hc1 _]. rewrite fexp64 in Hc1.
  pose proof (bpow_pos e1) as He1. pose proof (bpow_pos e2) as He2.
  destruct Hlt as [Hlt | [-> Hlt]].
  - destruct (digits_bounds (Zpos m2) ltac:(lia)) as [[Hlo _] _].
    simpl Zdigits2 in Hlo.
    assert (Hd : Zpos (digits2_pos m2) = 53) by lia.
    rewrite Hd in Hlo.
    apply IZR_le in Hlo. apply IZR_lt in Hm1.
    rewrite bpow_IZR in Hlo, Hm1 by lia.
    assert (H1 : (bpow (53 + e1) <= bpow (53 - 1 + e2))%R) by (apply bpow_le; lia).
    rewrite !bpow_add in H1.
    assert (H2 : (bpow (53 - 1) * bpow e2 <= IZR (Zpos m2) * bpow e2)%R)
      by (apply Rmult_le_compat_r; lra).
    assert (H3 : (IZR (Zpos m1) * bpow e1 < bpow 53 * bpow e1)%R)
      by (apply Rmult_lt_compat_r; lra).
    lra.
  - apply Rmult_lt_compat_r; [exact He2 | apply IZR_lt; exact Hlt].
Qed.

Lemma lt_of_bounded_iff (m1 m2 : positive) (e1 e2 : Z) :
  SpecFloat.bounded prec emax m1 e1 = true ->
  SpecFloat.bounded prec emax m2 e2 = true ->
  (e1 < e2 \/ (e1 = e2 /\ Zpos m1 < Zpos m2) <->
   (IZR (Zpos m1) * bpow e1 < IZR (Zpos m2) * bpow e2)%R).
Proof.
  intros Hb1 Hb2. split; [apply lt_of_bounded; assumption |].
  intros Hlt.
  destruct (Z.lt_trichotomy e1 e2) as [H | [H | H]]; [left; exact H | |].
  - right. split; [exact H |]. subst e2.
    apply Rmult_lt_reg_r in Hlt; [apply lt_IZR; exact Hlt | apply bpow_pos].
  - exfalso.
    pose proof (lt_of_bounded m2 m1 e2 e1 Hb2 Hb1 (or_introl H)). lra.
Qed.

(** The test [abs(d) < 1e-9] compares the magnitude of [d] with the value of
    the float 1e-9. *)
Lemma near_test (d : float) :
  plain (Prim2SF d) ->
  ((abs d <? 1e-9)%float = true <-> (mag (Prim2SF d) < tolerance)%R).
Proof.
  intros Hplain.
  pose proof (Prim2SF_valid d) as Hv.
  rewrite FloatAxioms.ltb_spec, abs_spec.
  change (Prim2SF 1e-9) with (S754_finite false 4835703278458517 (-82)).
  assert (Htol : (0 < tolerance)%R).
  { unfold tolerance. apply Rmult_lt_0_compat; [apply IZR_lt; lia | apply bpow_pos]. }
  destruct (Prim2SF d) as [s | s | | s m e]; try contradiction.
  - cbn [SFabs mag]. split; [intros _; exact Htol | intros _; reflexivity].
  - cbn [SFabs mag valid_binary] in *.
    assert (Hbc : SpecFloat.bounded prec emax 4835703278458517 (-82) = true)
      by reflexivity.
    unfold SFltb.
    rewrite (FloatOrder.SFcompare_rank (S754_finite false m e)
               (S754_finite false 4835703278458517 (-82)))
      by discriminate.
    cbn [FloatOrder.rank].
    rewrite <- (lt_of_bounded_iff m 4835703278458517 e (-82) Hv Hbc).
    destruct (FloatOrder.lex_compare (1, e, Zpos m) (1, -82, 4835703278458517)) eqn:E.
    + apply FloatOrder.lex_compare_Eq in E. unfold FloatOrder.lex_eq in E.
      cbn [fst snd] in E. split; [discriminate | lia].
    + apply FloatOrder.lex_compare_Lt in E. unfold FloatOrder.lex_lt in E.
      cbn [fst snd] in E. split; [intros _; lia | reflexivity].
    + apply FloatOrder.lex_compare_Gt in E. unfold FloatOrder.lex_lt in E.
      cbn [fst snd] in E. split; [discriminate | lia].
Qed.

End Near.

Module Display.

Import Rounding.
Import Near.
Import Exact.

(** The number a finite float stands for. *)
Definition value (n : float) : R :=
  match Prim2SF n with
  | S754_finite true m e => (- (IZR (Zpos m) * bpow e))%R
  | S754_finite false m e => (IZR (Zpos m) * bpow e)%R
  | _ => 0%R
  end.

(** [float(z)] of the value of a float with a non-negative exponent is that
    float. *)
Lemma of_int_scaled_exact (s : bool) (m : positive) (e : Z) :
  SpecFloat.bounded prec emax m e = true -> 0 <= e ->
  Flt.of_int (cond_Zopp s (Zpos m * 2 ^ e)) = inr (SF2Prim (S754_finite s m e)).
Proof.
  intros Hb He. destruct (FloatExact.bounded_inv m e Hb) as [Hc Hmax].
  unfold Flt.of_int.
  destruct e as [| k | k]; try lia.
  - rewrite Z.pow_0_r, Z.mul_1_r.
    assert (E : forall s', binary_round prec emax s' m 0 = S754_finite s' m 0).
    { intros s'. unfold binary_round. rewrite Hc. unfold shl_align. simpl.
      apply FloatExact.round_aux_unshifted. exact Hb. }
    destruct s; simpl; rewrite E; reflexivity.
  - assert (Hshift : Zpos m * 2 ^ Zpos k = Zpos (Pos.iter xO m k)).
    { rewrite <- Z.shiftl_mul_pow2 by lia. simpl.
      symmetry. apply (Pos.iter_swap_gen _ _ Zpos xO (Z.mul 2)). reflexivity. }
    rewrite Hshift.
    assert (E : forall s', binary_round prec emax s' (Pos.iter xO m k) 0 =
                           S754_finite s' m (Zpos k)).
    { intros s'. unfold binary_round. rewrite FloatExact.digits_shift.
      replace (Zpos (digits2_pos m + k) + 0) with (Zpos (digits2_pos m) + Zpos k) by lia.
      rewrite Hc. unfold shl_align. simpl.
      pose proof (FloatExact.round_aux_shifted s' m k (Zpos k) Hb) as Hr.
      rewrite Z.sub_diag in Hr. exact Hr. }
    destruct s; simpl; rewrite E; reflexivity.
Qed.

(** The nearest integer to a fraction, over the reals. *)
Lemma round_half_even_near (n d : Z) :
  0 < d ->
  (Rabs (IZR n / IZR d - IZR (Flt.round_half_even n d)) <= 1 / 2)%R.
Proof.
  intros Hd.
  pose proof (FloatExact.round_half_even_nearest n d Hd) as H.
  set (q := Flt.round_half_even n d) in *.
  assert (Hd' : (0 < IZR d)%R) by (apply IZR_lt; exact Hd).
  assert (E : (IZR n / IZR d - IZR q = - (IZR (q * d - n) / IZR d))%R).
  { rewrite minus_IZR, mult_IZR. field. lra. }
  rewrite E, Rabs_Ropp. unfold Rdiv. rewrite Rabs_mult, Rabs_inv.
  rewrite (Rabs_pos_eq (IZR d)) by lra. rewrite <- abs_IZR.
  apply IZR_le in H. rewrite mult_IZR in H.
  apply (Rmult_le_reg_r (IZR d)); [exact Hd' |].
  rewrite Rmult_assoc, Rinv_l by lra. lra.
Qed.

(** On a tie the nearest integer taken is even. *)
Lemma round_half_even_tie (n d : Z) :
  0 < d -> 2 * Z.abs (Flt.round_half_even n d * d - n) = d ->
  Z.even (Flt.round_half_even n d) = true.
Proof.
  intros Hd. unfold Flt.round_half_even.
  pose proof (Z.div_mod n d ltac:(lia)) as Hdm.
  pose proof (Z.mod_pos_bound n d Hd) as Hr.
  destruct (Z.compare_spec (2 * (n mod d)) d) as [E | E | E].
  - intros _. destruct (Z.even (n / d)) eqn:Ev; [exact Ev |].
    rewrite Z.even_add, Ev. reflexivity.
  - intros H. exfalso. nia.
  - intros H. exfalso. nia.
Qed.

Lemma tolerance_pos : (0 < tolerance)%R.
Proof.
  unfold tolerance. apply Rmult_lt_0_compat; [apply IZR_lt; lia | apply bpow_pos].
Qed.

Lemma value_finite (n : float) (s : bool) (m : positive) (e : Z) :
  Prim2SF n = S754_finite s m e ->
  value n = (if s then - (IZR (Zpos m) * bpow e) else IZR (Zpos m) * bpow e)%R.
Proof. intros H. unfold value. rewrite H. destruct s; reflexivity. Qed.

Lemma IZR_cond_Zopp (s : bool) (q : Z) :
  IZR (cond_Zopp s q) = (if s then - IZR q else IZR q)%R.
Proof. destruct s; cbn [cond_Zopp]; [apply opp_IZR | reflexivity]. Qed.

(** The distance of a float from the integer of the same sign. *)
Lemma distance_same_sign (s : bool) (x q : R) :
  Rabs ((if s then - x else x) - (if s then - q else q)) = Rabs (x - q).
Proof.
  destruct s; [| reflexivity].
  replace (- x - - q)%R with (- (x - q))%R by ring. apply Rabs_Ropp.
Qed.

(** What [pretty] computes before it chooses the text: [round(n)] is an
    integer within a half of [n], [float] converts it back, and the test
    [abs(n - round(n)) < 1e-9] on floats holds exactly when the distance of
    the two numbers is below the value of the float 1e-9. *)
Lemma rounds_to (n : float) :
  Flt.isfinite n = true ->
  exists z zf,
    Flt.round n = inr z /\ Flt.of_int z = inr zf /\
    (Rabs (value n - IZR z) <= 1 / 2)%R /\
    ((abs (n - zf) <? 1e-9)%float = true <->
     (Rabs (value n - IZR z) < tolerance)%R).
Proof.
  unfold Flt.isfinite. intros Hfin.
  pose proof (Prim2SF_valid n) as Hv.
  pose proof tolerance_pos as Htol.
  destruct (Prim2SF n) as [s | s | | s m e] eqn:En; try discriminate.
  - (* zero *)
    exists 0, (SF2Prim (S754_zero false)).
    split; [unfold Flt.round; rewrite En; reflexivity |].
    split; [reflexivity |].
    assert (Hval : value n = 0%R) by (unfold value; rewrite En; reflexivity).
    rewrite Hval, Rminus_0_r, Rabs_R0.
    split; [lra |].
    assert (Hd : exists s', Prim2SF (n - SF2Prim (S754_zero false)) = S754_zero s').
    { rewrite sub_spec, En, (Prim2SF_SF2Prim (S754_zero false) eq_refl).
      destruct s; eexists; reflexivity. }
    destruct Hd as [s' Hd].
    rewrite (near_test _ ltac:(rewrite Hd; exact I)), Hd. cbn [mag].
    split; intros _; [exact Htol | exact Htol].
  - (* finite *)
    cbn [valid_binary] in Hv.
    destruct (FloatExact.bounded_inv m e Hv) as [Hc _]. rewrite fexp64 in Hc.
    destruct (mantissa_bound m e Hv) as [Hdig Hm53].
    rewrite (value_finite n s m e En).
    destruct (Z_le_gt_dec 0 e) as [He | He].
    + (* an integer *)
      exists (cond_Zopp s (Zpos m * 2 ^ e)), (SF2Prim (S754_finite s m e)).
      split.
      { unfold Flt.round. rewrite En. unfold Flt.num_den.
        destruct (0 <=? e) eqn:E; [| apply Z.leb_gt in E; lia].
        rewrite Pretty.round_half_even_one. reflexivity. }
      split; [apply of_int_scaled_exact; assumption |].
      assert (Hzero : (Rabs ((if s then - (IZR (Zpos m) * bpow e)
                              else IZR (Zpos m) * bpow e) -
                             IZR (cond_Zopp s (Zpos m * 2 ^ e))) = 0)%R).
      { rewrite IZR_cond_Zopp, distance_same_sign, mult_IZR, bpow_IZR by lia.
        rewrite Rminus_diag. apply Rabs_R0. }
      rewrite Hzero. split; [lra |].
      assert (Hd : exists s', Prim2SF (n - SF2Prim (S754_finite s m e)) = S754_zero s').
      { rewrite sub_spec, En, (Prim2SF_SF2Prim (S754_finite s m e) Hv).
        unfold SF64sub, SFsub. rewrite Z.sub_diag. eexists. reflexivity. }
      destruct Hd as [s' Hd].
      rewrite (near_test _ ltac:(rewrite Hd; exact I)), Hd. cbn [mag].
      split; intros _; exact Htol.
    + (* a fraction *)
      set (k := - e).
      assert (Hk : 0 < k) by (unfold k; lia).
      assert (Hpow : 1 < 2 ^ k) by (apply Z.pow_gt_1; lia).
      set (q := Flt.round_half_even (Zpos m) (2 ^ k)).
      pose proof (FloatExact.round_half_even_bounds (Zpos m) (2 ^ k) ltac:(lia) Hpow)
        as Hq. fold q in Hq.
      pose proof (round_half_even_near (Zpos m) (2 ^ k) ltac:(lia)) as Hnear.
      fold q in Hnear.
      assert (Hx : (IZR (Zpos m) / IZR (2 ^ k) = IZR (Zpos m) * bpow e)%R).
      { rewrite bpow_IZR by lia. unfold Rdiv. rewrite <- bpow_opp. unfold k.
        rewrite Z.opp_involutive. reflexivity. }
      rewrite Hx in Hnear.
      assert (Hround : Flt.round n = inr (cond_Zopp s q)).
      { unfold Flt.round. rewrite En. unfold Flt.num_den.
        destruct (0 <=? e) eqn:E; [apply Z.leb_le in E; lia | reflexivity]. }
      assert (Hdist : forall q' : Z,
                (Rabs ((if s then - (IZR (Zpos m) * bpow e)
                        else IZR (Zpos m) * bpow e) - IZR (cond_Zopp s q')) =
                 Rabs (IZR (Zpos m) * bpow e - IZR q'))%R).
      { intros q'. rewrite IZR_cond_Zopp. apply distance_same_sign. }
      destruct (Z.eq_dec q 0) as [Hq0 | Hq0].
      * (* rounds to zero *)
        exists (cond_Zopp s q), (SF2Prim (S754_zero false)).
        rewrite (Hdist q).
        split; [exact Hround |].
        split; [rewrite Hq0; destruct s; reflexivity |].
        split; [exact Hnear |].
        assert (Hd : Prim2SF (n - SF2Prim (S754_zero false)) = S754_finite s m e).
        { rewrite sub_spec, En, (Prim2SF_SF2Prim (S754_zero false) eq_refl).
          reflexivity. }
        rewrite (near_test _ ltac:(rewrite Hd; exact I)), Hd. cbn [mag].
        rewrite Hq0, Rminus_0_r, Rabs_pos_eq; [reflexivity |].
        apply Rmult_le_pos; [apply IZR_le; lia | left; apply bpow_pos].
      * (* rounds to an integer that is not zero *)
        destruct q as [| p | p] eqn:Eq; try lia.
        assert (Hp : Zpos (digits2_pos p) <= 53).
        { apply Z.le_trans with (Zpos (digits2_pos m)); [| exact Hdig].
          apply FloatExact.digits_mono. apply Pos2Z.pos_le_pos. lia. }
        destruct (Whole.round_small_exact s p Hp) as (mq & kq & Hbr & Hkq & Hmq & Hbq).
        exists (cond_Zopp s (Zpos p)), (SF2Prim (S754_finite s mq (- kq))).
        rewrite (Hdist (Zpos p)).
        split; [exact Hround |].
        split.
        { unfold Flt.of_int. destruct s; cbn [cond_Zopp Z.opp binary_normalize];
            rewrite Hbr; reflexivity. }
        split; [exact Hnear |].
        destruct (mantissa_bound mq (- kq) Hbq) as [_ Hmq53].
        assert (Hkq52 : kq <= 52).
        { destruct (Z_le_gt_dec kq 52) as [H | H]; [exact H | exfalso].
          assert (2 ^ 53 <= 2 ^ kq) by (apply Z.pow_le_mono_r; lia).
          assert (0 < 2 ^ kq) by (apply Z.pow_pos_nonneg; lia). nia. }
        assert (Hqv : (IZR (Zpos mq) * bpow (- kq) = IZR (Zpos p))%R).
        { rewrite Hmq, mult_IZR, bpow_IZR, Rmult_assoc, <- bpow_add by lia.
          replace (kq + - kq) with 0 by lia. change (bpow 0) with 1%R. ring. }
        assert (He53 : -53 <= e).
        { destruct (Z_le_gt_dec (-53) e) as [H | H]; [exact H | exfalso].
          apply Rabs_le_inv in Hnear.
          assert (Hp1 : (1 <= IZR (Zpos p))%R) by (apply IZR_le; lia).
          assert (Hup : (IZR (Zpos m) * bpow e < bpow 53 * bpow (-54))%R).
          { apply Rle_lt_trans with (IZR (Zpos m) * bpow (-54))%R.
            - apply Rmult_le_compat_l; [apply IZR_le; lia | apply bpow_le; lia].
            - apply Rmult_lt_compat_r; [apply bpow_pos |].
              rewrite <- bpow_IZR by lia. apply IZR_lt. exact Hm53. }
          rewrite <- bpow_add in Hup. change (53 + -54) with (-1) in Hup.
          assert (Hhalf : bpow (-1) = (1 / 2)%R).
          { change (-1) with (0 - 1). rewrite bpow_half. change (bpow 0) with 1%R. lra. }
          lra. }
        assert (Hsub : plain (SFsub prec emax (S754_finite s m e)
                                (S754_finite s mq (- kq))) /\
                       mag (SFsub prec emax (S754_finite s m e) (S754_finite s mq (- kq))) =
                       Rabs (IZR (Zpos m) * bpow e - IZR (Zpos mq) * bpow (- kq))).
        { apply Exact.sub_exact; [lia | lia |].
          rewrite Hqv.
          apply Rle_lt_trans with (1 / 2)%R; [exact Hnear |].
          apply Rlt_le_trans with (bpow 0); [change (bpow 0) with 1%R; lra |].
          apply bpow_le. lia. }
        destruct Hsub as [Hplain Hsub].
        assert (Hd : Prim2SF (n - SF2Prim (S754_finite s mq (- kq))) =
                     SFsub prec emax (S754_finite s m e) (S754_finite s mq (- kq))).
        { rewrite sub_spec, En, (Prim2SF_SF2Prim (S754_finite s mq (- kq)) Hbq).
          reflexivity. }
        rewrite <- Hd in Hplain.
        rewrite (near_test _ Hplain), Hd, Hsub, Hqv. reflexivity.
Qed.

(** The text of [c] hundredths: the whole part, a dot and two digits. *)
Definition two_decimal_text (c : Z) : string :=
  Str.of_Z (c / 100) ++ "." ++ Str.of_Z (c / 10 mod 10) ++ Str.of_Z (c mod 10).

Lemma digit_text (v : Z) :
  0 <= v <= 9 -> String (ascii_of_nat (48 + Z.to_nat v)) "" = Str.of_Z v.
Proof.
  intros Hv.
  assert (H : v = 0 \/ v = 1 \/ v = 2 \/ v = 3 \/ v = 4 \/ v = 5 \/ v = 6 \/
              v = 7 \/ v = 8 \/ v = 9) by lia.
  repeat (destruct H as [-> | H]; [reflexivity |]). subst v. reflexivity.
Qed.

Lemma hundredths_text (neg : bool) (c : Z) :
  0 <= c ->
  Flt.hundredths neg c = ((if neg then "-" else "") ++ two_decimal_text c)%string.
Proof.
  intros Hc. unfold Flt.hundredths, two_decimal_text, Flt.two_digits.
  pose proof (Z.div_mod c 100 ltac:(lia)) as Hdm.
  pose proof (Z.mod_pos_bound c 100 ltac:(lia)) as Hb.
  assert (Hsplit : c = c mod 100 + (10 * (c / 100)) * 10) by lia.
  assert (Hten : 0 <= c mod 100 / 10 < 10).
  { split; [apply Z.div_pos; lia | apply Z.div_lt_upper_bound; lia]. }
  assert (H1 : c mod 100 / 10 = c / 10 mod 10).
  { rewrite Hsplit at 2. rewrite Z.div_add by lia.
    replace (c mod 100 / 10 + 10 * (c / 100)) with (c mod 100 / 10 + (c / 100) * 10) by lia.
    rewrite Z.mod_add by lia. symmetry. apply Z.mod_small. exact Hten. }
  assert (H2 : (c mod 100) mod 10 = c mod 10).
  { rewrite Hsplit at 2. rewrite Z.mod_add by lia. reflexivity. }
  rewrite H1, H2.
  change (String (ascii_of_nat (48 + Z.to_nat (c / 10 mod 10)))
            (String (ascii_of_nat (48 + Z.to_nat (c mod 10))) ""))
    with (String (ascii_of_nat (48 + Z.to_nat (c / 10 mod 10))) "" ++
          String (ascii_of_nat (48 + Z.to_nat (c mod 10))) "")%string.
  pose proof (Z.mod_pos_bound (c / 10) 10 ltac:(lia)) as Hd1.
  pose proof (Z.mod_pos_bound c 10 ltac:(lia)) as Hd2.
  rewrite (digit_text (c / 10 mod 10)), (digit_text (c mod 10)) by (clear - Hd1 Hd2; lia).
  reflexivity.
Qed.

(** The value of the float 1e-9 is 1e-9 but for a part in 10^16. *)
Lemma tolerance_value :
  value 1e-9 = tolerance /\
  (1 / 1000000000 < tolerance < 1 / 1000000000 + 1 / 10000000000000000000000000)%R.
Proof.
  split; [reflexivity |]. unfold tolerance. bpow_eval. lra.
Qed.

(** The two texts of [pretty], with the value of the float 1e-9 as the
    bound of the test. *)
Lemma renders (n : float) :
  Flt.isfinite n = true ->
  (forall z : Z,
      (Rabs (value n - IZR z) < tolerance)%R -> pretty n true = inr (Str.of_Z z)) /\
  ((forall z : Z, (tolerance <= Rabs (value n - IZR z))%R) ->
   exists c : Z,
     0 <= c /\
     (Rabs (100 * Rabs (value n) - IZR c) <= 1 / 2)%R /\
     ((Rabs (100 * Rabs (value n) - IZR c) = 1 / 2)%R -> Z.even c = true) /\
     pretty n true =
       inr ((if Rlt_dec (value n) 0 then "-" else "") ++ two_decimal_text c)%string).
Proof.
  intros Hfin.
  destruct (rounds_to n Hfin) as (z0 & zf & Hround & Hof & Hhalf & Htest).
  pose proof tolerance_small as Hsmall.
  assert (H29 : (bpow (-29) < 1 / 2)%R) by (bpow_eval; lra).
  assert (Hpretty : pretty n true =
                    if (abs (n - zf) <? 1e-9)%float then inr (Str.of_Z z0)
                    else inr (Flt.format_2f n)).
  { unfold pretty. rewrite Hround. cbn [bind]. rewrite Hof. cbn [bind ret].
    destruct (abs (n - zf) <? 1e-9)%float; reflexivity. }
  split.
  - intros z Hz.
    assert (Hzz : z = z0).
    { assert (Hd : (Rabs (IZR (z - z0)) < 1)%R).
      { rewrite minus_IZR.
        replace (IZR z - IZR z0)%R with ((value n - IZR z0) - (value n - IZR z))%R by ring.
        eapply Rle_lt_trans; [apply Rabs_triang |]. rewrite Rabs_Ropp. lra. }
      rewrite <- abs_IZR in Hd. apply lt_IZR in Hd. lia. }
    subst z. rewrite Hpretty. rewrite (proj2 Htest Hz). reflexivity.
  - intros Hfar.
    assert (Hclean : (abs (n - zf) <? 1e-9)%float = false).
    { destruct (abs (n - zf) <? 1e-9)%float eqn:E; [| reflexivity].
      pose proof (proj1 Htest eq_refl). pose proof (Hfar z0). lra. }
    rewrite Hpretty, Hclean.
    pose proof tolerance_pos as Htol.
    pose proof (Prim2SF_valid n) as Hv.
    unfold Flt.isfinite in Hfin.
    destruct (Prim2SF n) as [s | s | | s m e] eqn:En; try discriminate.
    + exfalso. pose proof (Hfar 0) as H0. unfold value in H0. rewrite En in H0.
      rewrite Rminus_0_r, Rabs_R0 in H0. lra.
    + cbn [valid_binary] in Hv.
      assert (Hpos : (0 < IZR (Zpos m) * bpow e)%R).
      { apply Rmult_lt_0_compat; [apply IZR_lt; lia | apply bpow_pos]. }
      destruct (Z_le_gt_dec 0 e) as [He | He].
      * exfalso. pose proof (Hfar (cond_Zopp s (Zpos m * 2 ^ e))) as H0.
        rewrite (value_finite n s m e En), IZR_cond_Zopp, distance_same_sign in H0.
        rewrite mult_IZR, bpow_IZR, Rminus_diag, Rabs_R0 in H0 by lia. lra.
      * set (k := - e).
        assert (Hk : 0 < k) by (unfold k; lia).
        assert (Hpow : 0 < 2 ^ k) by (apply Z.pow_pos_nonneg; lia).
        set (c := Flt.round_half_even (100 * Zpos m) (2 ^ k)).
        assert (Hc : 0 <= c).
        { apply Pretty.round_half_even_nonneg; lia. }
        assert (Hfmt : Flt.format_2f n = Flt.hundredths s c).
        { unfold Flt.format_2f. rewrite En. unfold Flt.num_den.
          destruct (0 <=? e) eqn:E; [apply Z.leb_le in E; lia | reflexivity]. }
        assert (Habs : Rabs (value n) = (IZR (Zpos m) * bpow e)%R).
        { rewrite (value_finite n s m e En). destruct s.
          - rewrite Rabs_Ropp. apply Rabs_pos_eq. lra.
          - apply Rabs_pos_eq. lra. }
        assert (Hx : (100 * (IZR (Zpos m) * bpow e) =
                      IZR (100 * Zpos m) / IZR (2 ^ k))%R).
        { rewrite mult_IZR, bpow_IZR by lia. unfold Rdiv. rewrite <- bpow_opp.
          unfold k. rewrite Z.opp_involutive. ring. }
        exists c. split; [exact Hc |].
        rewrite Habs, Hx.
        split; [apply round_half_even_near; exact Hpow |].
        split.
        { intros Htie. apply round_half_even_tie; [exact Hpow |]. fold c.
          assert (Hd' : (0 < IZR (2 ^ k))%R) by (apply IZR_lt; exact Hpow).
          assert (E : (IZR (100 * Zpos m) / IZR (2 ^ k) - IZR c =
                       - (IZR (c * 2 ^ k - 100 * Zpos m) / IZR (2 ^ k)))%R).
          { rewrite minus_IZR, (mult_IZR c). field. lra. }
          rewrite E, Rabs_Ropp in Htie. unfold Rdiv in Htie.
          rewrite Rabs_mult, Rabs_inv, (Rabs_pos_eq (IZR (2 ^ k))) in Htie by lra.
          rewrite <- abs_IZR in Htie.
          apply eq_IZR. rewrite mult_IZR.
          apply (Rmult_eq_compat_r (IZR (2 ^ k))) in Htie.
          rewrite Rmult_assoc, Rinv_l, Rmult_1_r in Htie by lra.
          rewrite Htie. field. }
        rewrite Hfmt, (hundredths_text s c Hc).
        rewrite (value_finite n s m e En).
        destruct s; destruct (Rlt_dec _ 0) as [Hneg | Hneg];
          try reflexivity; exfalso; lra.
Qed.

(** No float lies between 1e-9 and the value of the float 1e-9 from an
    integer: floats of exponent -82 and above are multiples of 2^-82, and
    smaller ones are below 2^-30. *)
Lemma within_tolerance (m : positive) (e q : Z) :
  Zpos m < 2 ^ 53 ->
  (Rabs (IZR (Zpos m) * bpow e - IZR q) < tolerance)%R ->
  (Rabs (IZR (Zpos m) * bpow e - IZR q) < 1 / 1000000000)%R.
Proof.
  intros Hm H.
  destruct (Z_le_gt_dec (-82) e) as [He | He].
  - set (k := Zpos m * 2 ^ (e + 82) - q * 2 ^ 82).
    assert (E : (IZR (Zpos m) * bpow e - IZR q = IZR k * bpow (-82))%R).
    { unfold k. rewrite minus_IZR, !mult_IZR, !bpow_IZR by lia.
      rewrite Rmult_minus_distr_r, !Rmult_assoc, <- !bpow_add.
      replace (e + 82 + -82) with e by lia.
      change (82 + -82) with 0. unfold bpow at 3. simpl. ring. }
    rewrite E in *. pose proof (bpow_pos (-82)) as Hp.
    rewrite Rabs_mult, (Rabs_pos_eq (bpow (-82))), <- abs_IZR in * by lra.
    unfold tolerance in H. apply Rmult_lt_reg_r in H; [| exact Hp].
    apply lt_IZR in H.
    assert (Hk : Z.abs k <= 4835703278458516) by lia.
    apply IZR_le in Hk.
    eapply Rle_lt_trans;
      [apply Rmult_le_compat_r; [lra | exact Hk] |].
    bpow_eval. lra.
  - pose proof tolerance_small as Hsmall.
    assert (H29 : (bpow (-29) < 1 / 8)%R) by (bpow_eval; lra).
    assert (H30 : (bpow (-30) < 1 / 1000000000)%R) by (bpow_eval; lra).
    assert (Hx : (0 < IZR (Zpos m) * bpow e < bpow (-30))%R).
    { pose proof (bpow_pos e) as Hp.
      assert (Hm0 : (0 < IZR (Zpos m))%R) by (apply IZR_lt; lia).
      split; [apply Rmult_lt_0_compat; assumption |].
      apply IZR_lt in Hm. rewrite bpow_IZR in Hm by lia.
      replace (-30) with (53 + -83) by lia. rewrite bpow_add.
      assert (Hle : (bpow e <= bpow (-83))%R) by (apply bpow_le; lia).
      eapply Rlt_le_trans;
        [apply Rmult_lt_compat_r; [exact Hp | exact Hm] |].
      apply Rmult_le_compat_l; [pose proof (bpow_pos 53); lra | exact Hle]. }
    destruct (Z.eq_dec q 0) as [-> | Hq].
    + rewrite Rminus_0_r, Rabs_pos_eq by lra. lra.
    + exfalso.
      destruct (Z_le_gt_dec q 0) as [Hneg | Hpos].
      * assert (Hq1 : (IZR q <= -1)%R) by (apply IZR_le; lia).
        rewrite Rabs_pos_eq in H by lra. lra.
      * assert (Hq1 : (1 <= IZR q)%R) by (apply IZR_le; lia).
        rewrite Rabs_left in H by lra. lra.
Qed.

(** A finite float is within 1e-9 of an integer exactly when it is within
    the value of the float 1e-9 of it. *)
Lemma near_value (n : float) (z : Z) :
  Flt.isfinite n = true ->
  (Rabs (value n - IZR z) < tolerance)%R <->
  (Rabs (value n - IZR z) < 1 / 1000000000)%R.
Proof.
  intros Hfin.
  split; [| intros H; pose proof (proj2 tolerance_value); lra].
  pose proof (Prim2SF_valid n) as Hv.
  unfold Flt.isfinite in Hfin.
  destruct (Prim2SF n) as [s | s | | s m e] eqn:En; try discriminate.
  - unfold value. rewrite En. rewrite Rminus_0_l, Rabs_Ropp, <- abs_IZR.
    intros H. pose proof tolerance_small as Hsmall.
    assert (H29 : (bpow (-29) < 1)%R) by (bpow_eval; lra).
    assert (Hz : Z.abs z < 1) by (apply lt_IZR; lra).
    replace (Z.abs z) with 0 by lia. lra.
  - cbn [valid_binary] in Hv.
    destruct (mantissa_bound m e Hv) as [_ Hm].
    rewrite (value_finite n s m e En).
    destruct s.
    + replace (- (IZR (Zpos m) * bpow e) - IZR z)%R
        with (- (IZR (Zpos m) * bpow e - IZR (- z)))%R by (rewrite opp_IZR; ring).
      rewrite Rabs_Ropp. apply within_tolerance. exact Hm.
    + apply within_tolerance. exact Hm.
Qed.

(** C9. For every finite float [n], with [value n] the number it stands
    for: when [n] is within 1e-9 of an integer [z], [pretty(n)] is the
    decimal text of [z], with no decimals; when [n] is that far from every
    integer, [pretty(n)] is the text of [n] rounded to two decimals: a minus
    sign if [n] is negative, then the whole part, a dot and two digits of
    the integer [c] nearest to 100 times the magnitude of [n], the even one
    of the two on a tie. ([pretty(3.0)] is "3" and [pretty(3.256)] is
    "3.26".) *)
Theorem pretty_renders (n : float) :
  Flt.isfinite n = true ->
  (forall z : Z,
      (Rabs (value n - IZR z) < 1 / 1000000000)%R ->
      pretty n true = inr (Str.of_Z z)) /\
  ((forall z : Z, (1 / 1000000000 <= Rabs (value n - IZR z))%R) ->
   exists c : Z,
     0 <= c /\
     (Rabs (100 * Rabs (value n) - IZR c) <= 1 / 2)%R /\
     ((Rabs (100 * Rabs (value n) - IZR c) = 1 / 2)%R -> Z.even c = true) /\
     pretty n true =
       inr ((if Rlt_dec (value n) 0 then "-" else "") ++ two_decimal_text c)%string).
Proof.
  intros Hfin.
  destruct (renders n Hfin) as [Hint Hdec].
  split.
  - intros z Hz. apply Hint. apply (near_value n z Hfin). exact Hz.
  - intros Hfar. apply Hdec. intros z.
    destruct (Rle_lt_dec tolerance (Rabs (value n - IZR z))) as [H | H];
      [exact H |].
    apply (near_value n z Hfin) in H. pose proof (Hfar z). lra.
Qed.

Lemma pretty_renders_witness :
  pretty 3.0%float true = inr "3" /\ pretty 3.256%float true = inr "3.26".
Proof.
  split.
  - apply (proj1 (pretty_renders 3.0%float eq_refl) 3).
    assert (Hv : value 3.0%float = 3%R).
    { unfold value.
      change (Prim2SF 3.0%float) with (S754_finite false 6755399441055744 (-51)).
      cbv beta iota.
      bpow_eval. lra. }
    rewrite Hv, Rminus_diag, Rabs_R0. lra.
  - assert (Hv : value 3.256%float = (IZR 7331860193359167 * / IZR (2 ^ 51))%R).
    { unfold value.
      change (Prim2SF 3.256%float) with (S754_finite false 7331860193359167 (-51)).
      cbv beta iota.
      bpow_eval. reflexivity. }
    assert (Hlo : (3 + 1 / 4 < value 3.256%float)%R).
    { rewrite Hv. change (2 ^ 51) with 2251799813685248. lra. }
    assert (Hhi : (value 3.256%float < 3 + 257 / 1000)%R).
    { rewrite Hv. change (2 ^ 51) with 2251799813685248. lra. }
    assert (Hmid : (3 + 2555 / 10000 < value 3.256%float)%R).
    { rewrite Hv. change (2 ^ 51) with 2251799813685248. lra. }
    destruct (proj2 (pretty_renders 3.256%float eq_refl)) as (c & Hc & Hnear & _ & Htext).
    + intros z. destruct (Z_le_gt_dec z 3) as [Hz | Hz].
      * apply IZR_le in Hz. rewrite Rabs_pos_eq by lra. lra.
      * assert (Hz4 : (4 <= IZR z)%R) by (apply IZR_le; lia).
        rewrite Rabs_left by lra. lra.
    + rewrite Htext. clear Htext.
      rewrite (Rabs_pos_eq (value 3.256%float)) in Hnear by lra.
      apply Rabs_le_inv in Hnear.
      assert (Hc1 : (IZR 325 < IZR c)%R) by lra.
      assert (Hc2 : (IZR c < IZR 327)%R) by lra.
      apply lt_IZR in Hc1. apply lt_IZR in Hc2.
      assert (Hc326 : c = 326) by lia. subst c.
      destruct (Rlt_dec (value 3.256%float) 0) as [Hneg | _]; [exfalso; lra |].
      reflexivity.
Defined.

End Display.


(** ** The table and the results *)

Module Results.

Lemma displayable_filter (p : string * float -> bool) (l : list (string * float)) :
  forallb (fun it => Table.displayable (snd it)) l = true ->
  forallb (fun it => Table.displayable (snd it)) (filter p l) = true.
Proof.
  intros H. apply forallb_forall. intros it Hin. apply filter_In in Hin.
  destruct Hin as [Hin _]. exact (proj1 (forallb_forall _ _) H it Hin).
Qed.

(** X23. When the bounds parse and every amount of every item of the catalog
    is finite, the filter returns and the table shows the results: one row
    per result, in the order of the results, under its name, with distinct
    row identifiers and six cells; no warning is shown. *)
Theorem table_shows_results (a : App) (min_gp max_gp : option float) :
  parse_bound (Str.strip (min_var a)) (unit_var a) = inr min_gp ->
  parse_bound (Str.strip (max_var a)) (unit_var a) = inr max_gp ->
  forallb (fun it => Table.displayable (snd it)) (items a) = true ->
  snd (_apply_filters a) = inr tt /\
  map Table.row_name (tree (fst (_apply_filters a))) =
    map fst (filtered_items (fst (_apply_filters a))) /\
  NoDup (map fst (tree (fst (_apply_filters a)))) /\
  Forall (fun c => List.length (snd c) = 6%nat) (tree (fst (_apply_filters a))) /\
  dialogs (fst (_apply_filters a)) = dialogs a.
Proof.
  intros Hmin Hmax Hall.
  rewrite (FilterEdge.apply_filters_parsed a min_gp max_gp Hmin Hmax).
  set (results := filter (Filter.keeps (Str.lower (Str.strip (name_var a))) min_gp max_gp)
                    (items a)).
  assert (Hres : forallb (fun it => Table.displayable (snd it)) results = true)
    by (apply displayable_filter; exact Hall).
  unfold _refresh_table.
  change (tree_next (with_filtered results a)) with (tree_next a).
  destruct (Table.insert_rows_ok results
              (with_tree [] (tree_next a) (with_filtered results a))
              Hres) as (added & Hok & Htree & _ & Hids & Hnames & Hlen).
  destruct (FilterEdge.insert_rows_frame results
              (with_tree [] (tree_next a) (with_filtered results a)))
    as (_ & _ & _ & _ & _ & _ & Hfi & _ & _ & _ & _ & _ & Hd).
  change (tree (with_tree [] (tree_next a) (with_filtered results a)) ++ added)
    with added in Htree.
  rewrite Htree, Hfi, Hd.
  split; [exact Hok |]. split; [exact Hnames |].
  split; [exact (Table.seq_NoDup_ids _ _ _ Hids) |].
  split; [exact Hlen | reflexivity].
Qed.

Lemma table_shows_results_witness :
  map Table.row_name
    (tree (fst (_apply_filters (Filter.sample_app "sword" "" "" "gp")))) =
  map fst (filtered_items (fst (_apply_filters (Filter.sample_app "sword" "" "" "gp")))).
Proof.
  apply (table_shows_results (Filter.sample_app "sword" "" "" "gp") None None);
    vm_compute; reflexivity.
Defined.

End Results.

(** ** Prices that are not numbers *)

Module NanPrices.

Lemma nan_not_displayable (x : float) : is_nan x = true -> Table.displayable x = false.
Proof.
  intros Hnan.
  assert (Hfin : Flt.isfinite x = false).
  { destruct (Flt.isfinite x) eqn:E; [| reflexivity].
    rewrite (Table.isfinite_not_nan x E) in Hnan. discriminate. }
  unfold Table.displayable, Table.amounts. cbn [forallb].
  rewrite Hfin. rewrite andb_false_r. reflexivity.
Qed.

(** The first item that cannot be displayed. *)
Lemma first_bad (l : list (string * float)) (it : string * float) :
  In it l -> Table.displayable (snd it) = false ->
  exists l1 it' l2,
    l = l1 ++ it' :: l2 /\
    forallb (fun it => Table.displayable (snd it)) l1 = true /\
    Table.displayable (snd it') = false.
Proof.
  induction l as [| x rest IH]; intros Hin Hbad; [destruct Hin |].
  destruct (Table.displayable (snd x)) eqn:Ex.
  - destruct Hin as [-> | Hin]; [congruence |].
    destruct (IH Hin Hbad) as (l1 & it' & l2 & -> & Hgood & Hbad').
    exists (x :: l1), it', l2. split; [reflexivity |].
    split; [cbn [forallb]; rewrite Ex, Hgood; reflexivity | exact Hbad'].
  - exists [], x, rest. auto.
Qed.

(** X7. An item whose price is NaN passes every price range: whatever the
    bounds, it is among the results whenever its name matches, and the
    refresh of the table then raises [ValueError] or [OverflowError], since
    [pretty] cannot round such a price. When the minimum is above the
    maximum the only results are the items of price NaN, none in a catalog
    of numbers. With bounds that parse, no warning is shown. *)
Theorem nan_price_passes_every_range (a : App) (min_gp max_gp : option float) :
  parse_bound (Str.strip (min_var a)) (unit_var a) = inr min_gp ->
  parse_bound (Str.strip (max_var a)) (unit_var a) = inr max_gp ->
  (forall it,
      In it (items a) -> is_nan (snd it) = true ->
      FilterEdge.name_matches a it = true ->
      In it (filtered_items (fst (_apply_filters a)))) /\
  (forall lo hi,
      min_gp = Some lo -> max_gp = Some hi -> (hi <? lo)%float = true ->
      forall it, In it (filtered_items (fst (_apply_filters a))) ->
                 is_nan (snd it) = true) /\
  dialogs (fst (_apply_filters a)) = dialogs a /\
  ((exists it, In it (items a) /\ is_nan (snd it) = true /\
               FilterEdge.name_matches a it = true) ->
   exists e, snd (_apply_filters a) = inl e /\ (e = ValueError \/ e = OverflowError)).
Proof.
  intros Hmin Hmax.
  assert (Hpass : forall it,
            In it (items a) -> is_nan (snd it) = true ->
            FilterEdge.name_matches a it = true ->
            In it (filter (Filter.keeps (Str.lower (Str.strip (name_var a)))
                             min_gp max_gp) (items a))).
  { intros it Hin Hnan Hname. apply filter_In. split; [exact Hin |].
    unfold Filter.keeps. unfold FilterEdge.name_matches in Hname. rewrite Hname. simpl.
    destruct min_gp as [lo |], max_gp as [hi |];
      rewrite ?(FilterEdge.ltb_nan_any_l (snd it) _ Hnan),
              ?(FilterEdge.ltb_nan_any_r _ (snd it) Hnan);
      reflexivity. }
  split; [| split; [| split]].
  - rewrite (FilterEdge.apply_filters_filtered a min_gp max_gp Hmin Hmax). exact Hpass.
  - rewrite (FilterEdge.apply_filters_filtered a min_gp max_gp Hmin Hmax).
    intros lo hi -> -> Hgap it Hin. apply filter_In in Hin. destruct Hin as [_ Hk].
    unfold Filter.keeps in Hk.
    apply andb_true_iff in Hk. destruct Hk as [Hk Hhi].
    apply andb_true_iff in Hk. destruct Hk as [_ Hlo].
    apply negb_true_iff in Hlo, Hhi.
    destruct (is_nan (snd it)) eqn:En; [reflexivity | exfalso].
    destruct (is_nan lo) eqn:Elo.
    { rewrite (FilterEdge.ltb_nan_any_r hi lo Elo) in Hgap. discriminate. }
    destruct (is_nan hi) eqn:Ehi.
    { rewrite (FilterEdge.ltb_nan_any_l hi lo Ehi) in Hgap. discriminate. }
    rewrite (FloatOrder.ltb_negtrans lo (snd it) hi Elo En Ehi Hlo Hhi) in Hgap.
    discriminate.
  - rewrite (FilterEdge.apply_filters_parsed a min_gp max_gp Hmin Hmax).
    match goal with
    | |- dialogs (fst (_refresh_table ?r ?s)) = _ =>
        destruct (FilterEdge.refresh_table_frame r s)
          as (_ & _ & _ & _ & _ & _ & _ & _ & _ & _ & _ & _ & Hd)
    end.
    rewrite Hd. reflexivity.
  - intros (it & Hin & Hnan & Hname).
    destruct (first_bad _ it (Hpass it Hin Hnan Hname)
                (nan_not_displayable (snd it) Hnan))
      as (l1 & it' & l2 & Hres & Hgood & Hbad).
    rewrite (FilterEdge.apply_filters_parsed a min_gp max_gp Hmin Hmax), Hres.
    unfold _refresh_table.
    match goal with
    | |- context [insert_rows _ ?s] =>
        destruct (Table.insert_rows_fail l1 l2 it' s Hgood Hbad)
          as (e & added & He & Hk & _)
    end.
    exists e. split; [exact He | exact Hk].
Qed.

Lemma nan_price_passes_every_range_witness :
  In ("Relic", nan) (filtered_items (fst (_apply_filters FilterEdge.odd_prices))) /\
  (forall it, In it (filtered_items (fst (_apply_filters FilterEdge.odd_prices))) ->
              is_nan (snd it) = true) /\
  dialogs (fst (_apply_filters FilterEdge.odd_prices)) = [] /\
  snd (_apply_filters FilterEdge.odd_prices) = inl ValueError.
Proof.
  assert (Hmin : parse_bound (Str.strip (min_var FilterEdge.odd_prices))
                   (unit_var FilterEdge.odd_prices) = inr (Some 10%float))
    by (vm_compute; reflexivity).
  assert (Hmax : parse_bound (Str.strip (max_var FilterEdge.odd_prices))
                   (unit_var FilterEdge.odd_prices) = inr (Some 1%float))
    by (vm_compute; reflexivity).
  destruct (nan_price_passes_every_range FilterEdge.odd_prices _ _ Hmin Hmax)
    as (Hpass & Hgap & Hquiet & Hraise).
  split; [| split; [| split]].
  - apply Hpass; [right; left; reflexivity | reflexivity | reflexivity].
  - apply (Hgap 10%float 1%float eq_refl eq_refl). reflexivity.
  - rewrite Hquiet. reflexivity.
  - destruct Hraise as (e & He & _).
    + exists ("Relic", nan). split; [right; left; reflexivity |]. split; reflexivity.
    + rewrite He. vm_compute in He. symmetry. exact He.
Defined.

End NanPrices.

(** ** An imported file in the listing *)

Module ImportListing.

Import Names.

Lemma import_name_facts (src_path : string) :
  Path.has_sep (Importing.import_name src_path) = false /\
  Importing.import_name src_path <> "" /\
  Str.endswith (Str.lower (Importing.import_name src_path)) ".json" = true.
Proof.
  unfold Importing.import_name.
  pose proof (basename_no_sep src_path) as Hb.
  destruct (Str.endswith (Str.lower (Path.basename src_path)) ".json") eqn:E.
  - split; [exact Hb |]. split; [| exact E].
    intros Hn. rewrite Hn in E. discriminate.
  - split; [rewrite has_sep_app, Hb; reflexivity |].
    split; [destruct (Path.basename src_path); discriminate |].
    rewrite lower_app. apply endswith_self.
Qed.

Lemma numbered_facts (filename : string) (i : Z) :
  Path.has_sep filename = false -> 1 <= i ->
  Str.endswith (Str.lower (snd (Path.splitext filename))) ".json" = true ->
  Path.has_sep (Importing.numbered filename i) = false /\
  Importing.numbered filename i <> "" /\
  Str.endswith (Str.lower (Importing.numbered filename i)) ".json" = true.
Proof.
  intros Hs Hi Hext. unfold Importing.numbered.
  pose proof (splitext_app filename) as Happ.
  rewrite <- Happ, has_sep_app in Hs. apply orb_false_iff in Hs.
  destruct Hs as [Hs1 Hs2].
  destruct (Pretty.of_Z_nonneg_digits i ltac:(lia)) as [_ Hd].
  split; [| split].
  - rewrite !has_sep_app, Hs1, Hs2, (digits_no_sep _ Hd). reflexivity.
  - destruct (fst (Path.splitext filename)); discriminate.
  - rewrite <- !append_assoc, lower_app. apply endswith_app. exact Hext.
Qed.

(** X24. An imported file is in the listing of the folder afterwards: the
    path the import returns is the absolute path of a file of the listing;
    and every file that was listed still is. This holds for a folder that
    is a directory, whose path is not empty and does not end in a
    separator, and a name whose extension, as [os.path.splitext] finds it,
    is ".json" in any case. *)
Theorem imported_file_is_listed (cwd : string) (fs fs' : FS)
  (src_path json_dir dst : string) :
  Fs.lookup json_dir fs = Some Dir ->
  json_dir <> "" -> Str.endswith json_dir "/" = false ->
  Str.endswith
    (Str.lower (snd (Path.splitext (Importing.import_name src_path)))) ".json" = true ->
  safe_copy_into_json_dir cwd fs src_path json_dir = Some (inr (fs', dst)) ->
  (exists p, In p (list_json_files fs' json_dir) /\ dst = Path.abspath cwd p) /\
  (forall p, In p (list_json_files fs json_dir) -> In p (list_json_files fs' json_dir)).
Proof.
  intros Hdir Hne Hslash Hext Hcopy.
  destruct (Copies.import_returns_new cwd fs fs' src_path json_dir dst Hcopy)
    as (name & Hd & Hdst & Hfree & (c & Hsrc & Hfs) & Hkeep).
  assert (Hdir' : Fs.lookup json_dir fs' = Some Dir).
  { rewrite (Hkeep json_dir); [exact Hdir |]. unfold Fs.exists_. rewrite Hdir. reflexivity. }
  assert (Hsub : forall q, In q (map fst fs) -> In q (map fst fs')).
  { intros q Hq. rewrite Hfs, map_app. apply in_or_app. left. exact Hq. }
  split.
  - assert (Hname : Path.has_sep name = false /\ name <> "" /\
                    Str.endswith (Str.lower name) ".json" = true).
    { destruct (import_name_facts src_path) as (Hs & Hn & He).
      destruct (Importing.dedupe_filename_spec fs json_dir (Importing.import_name src_path))
        as (name' & Hd' & _ & Hcases).
      rewrite Hd in Hd'. inversion Hd'; subst name'.
      destruct Hcases as [[_ ->] | [_ (i & Hi & -> & _)]].
      - auto.
      - exact (numbered_facts _ i Hs Hi Hext). }
    destruct Hname as (Hs & Hn & He).
    exists (Path.join json_dir name). split; [| exact Hdst].
    apply Listing.listed_In. split; [exact Hdir' |].
    exists name. split; [reflexivity |].
    split; [| split; [exact He |]].
    + exists (Path.join json_dir name). split.
      * rewrite Hfs, map_app. apply in_or_app. right. left. reflexivity.
      * rewrite (join_plain json_dir name Hne Hslash Hs).
        apply child_of_join; assumption.
    + unfold Fs.isfile. rewrite Hfs, Copies.lookup_app.
      unfold Fs.exists_ in Hfree.
      destruct (Fs.lookup (Path.join json_dir name) fs); [discriminate |].
      simpl. rewrite String.eqb_refl. reflexivity.
  - intros p Hp. apply Listing.listed_In in Hp.
    destruct Hp as (_ & fn & Hpj & (q & Hq & Hc) & He & Hfile).
    apply Listing.listed_In. split; [exact Hdir' |].
    exists fn. split; [exact Hpj |].
    split; [exists q; split; [apply Hsub; exact Hq | exact Hc] |].
    split; [exact He |].
    unfold Fs.isfile in *. rewrite (Hkeep p); [exact Hfile |].
    unfold Fs.exists_. destruct (Fs.lookup p fs); [reflexivity | discriminate].
Qed.

Definition relative_fs : FS :=
  [("data", Dir);
   ("data/prices.json", File true (Json (JDict [(KStr "Dagger", JInt 2)])));
   ("/downloads/prices.json", File true (Json (JDict [(KStr "Rope", JInt 1)])))].

Lemma imported_file_is_listed_witness :
  exists fs',
    safe_copy_into_json_dir "/home/u" relative_fs "/downloads/prices.json" "data" =
      Some (inr (fs', "/home/u/data/prices_1.json")) /\
    exists p, In p (list_json_files fs' "data") /\
              "/home/u/data/prices_1.json" = Path.abspath "/home/u" p.
Proof.
  assert (Hcopy : safe_copy_into_json_dir "/home/u" relative_fs "/downloads/prices.json"
                    "data" =
                  Some (inr (relative_fs ++
                               [("data/prices_1.json",
                                 File true (Json (JDict [(KStr "Rope", JInt 1)])))],
                             "/home/u/data/prices_1.json")))
    by (vm_compute; reflexivity).
  eexists. split; [exact Hcopy |].
  refine (proj1 (imported_file_is_listed "/home/u" relative_fs _
                   "/downloads/prices.json" "data" "/home/u/data/prices_1.json"
                   _ _ _ _ Hcopy));
    try reflexivity; discriminate.
Defined.

End ImportListing.

(** ** The name of an imported file *)

Module Stored.

Import Names.

















End Stored.

(** ** The dropdown handler *)

Module Select.

Lemma insert_rows_selected (choice : string) (rows : list (string * float)) (a : App) :
  insert_rows rows (with_selected choice a) =
  (with_selected choice (fst (insert_rows rows a)), snd (insert_rows rows a)).
Proof.
  revert a. induction rows as [| [name gp_value] rest IH]; intros a.
  - reflexivity.
  - cbn [insert_rows]. destruct (row_values name gp_value) as [e | vals].
    + reflexivity.
    + exact (IH (with_tree (tree a ++ [(tree_next a, vals)]) (S (tree_next a)) a)).
Qed.

Lemma apply_filters_selected (choice : string) (a : App) :
  _apply_filters (with_selected choice a) =
  (with_selected choice (fst (_apply_filters a)), snd (_apply_filters a)).
Proof.
  unfold _apply_filters.
  change (name_var (with_selected choice a)) with (name_var a).
  change (min_var (with_selected choice a)) with (min_var a).
  change (max_var (with_selected choice a)) with (max_var a).
  change (unit_var (with_selected choice a)) with (unit_var a).
  change (items (with_selected choice a)) with (items a).
  destruct (min_gp <- parse_bound (Str.strip (min_var a)) (unit_var a) ;;
            max_gp <- parse_bound (Str.strip (max_var a)) (unit_var a) ;;
            ret (min_gp, max_gp)) as [e | [min_gp max_gp]].
  - destruct (is_a e ValueError); reflexivity.
  - unfold _refresh_table.
    exact (insert_rows_selected choice _
             (with_tree [] (tree_next a)
                (with_filtered
                   (filter_loop (Str.lower (Str.strip (name_var a))) min_gp max_gp
                      (items a) []) a))).
Qed.

(** X25. Choosing an entry of the dropdown loads the catalog of the menu's
    variable [file_var], not of the name the handler is called with: the
    name is only stored in [selected_display_name], and the catalog, the
    results, the table and the outcome are those of loading and filtering
    without it. *)
Theorem select_loads_the_menu_variable (fs : FS) (choice : string) (a : App) :
  _on_select_file fs choice a =
  (with_selected choice (fst (_apply_filters (_load_items_for_selection fs a))),
   snd (_apply_filters (_load_items_for_selection fs a))).
Proof.
  unfold _on_select_file.
  change (_load_items_for_selection fs (with_selected choice a))
    with (with_selected choice (_load_items_for_selection fs a)).
  apply apply_filters_selected.
Qed.

End Select.
